(** * VU_meter: the asynchronous I2C command engine (src/i2c_async.c)

    A shallow embedding of the double-buffered command queue, the task
    queue and the interrupt-driven state machine of [i2c_async.c], and
    the properties of it that the specification states.

    The C code mutates one global [I2C_QUEUE] from two contexts (program
    flow and the TWI interrupt handler).  It is embedded as a state and
    error monad over a [machine]: the queue, the two hardware flags the
    code depends on (the global interrupt enable bit of SREG and whether a
    TWI interrupt is on its way), the memory holding the callbacks'
    contexts, and the record of bus primitives and callback invocations
    made so far. *)

From Stdlib Require Import ZArith Lia Bool.
From stdpp Require Import base numbers list functions.

Local Open Scope Z_scope.

(** ** Configuration and library constants *)

(** [config.h] is not part of the sources at hand: the two capacities it
    defines are taken as parameters of the whole development. *)
Class config := {
  I2C_BUFFER_SIZE : Z;
  I2C_QUEUE_SIZE : Z
}.

(** Status codes of avr-libc's <util/twi.h>. *)
Definition TW_STATUS_MASK : Z := 0xF8.
Definition TW_BUS_ERROR : Z := 0x00.
Definition TW_START : Z := 0x08.
Definition TW_REP_START : Z := 0x10.
Definition TW_MT_SLA_ACK : Z := 0x18.
Definition TW_MT_SLA_NACK : Z := 0x20.
Definition TW_MT_DATA_ACK : Z := 0x28.
Definition TW_MT_DATA_NACK : Z := 0x30.
Definition TW_MT_ARB_LOST : Z := 0x38.

(** [++x], [--x] and [x += n] on a [uint8_t], and [++x] on a [uint16_t]. *)
Definition u8 (x : Z) : Z := x mod 256.
Definition u16 (x : Z) : Z := x mod 65536.

(** ** Data model *)

(** [i2c_command_code_t].  The field of a command is read back from
    memory and dispatched by a [switch] with a [default] branch, so it is
    kept as the integer it is. *)
Definition I2C_COMMAND_START : Z := 0x01.
Definition I2C_COMMAND_SEND_DATA : Z := 0x02.
Definition I2C_COMMAND_STOP : Z := 0x03.
Definition I2C_COMMAND_PENDING : Z := 0x04.

Record i2c_command_t := mk_command {
  cmd_code : Z;
  cmd_data : Z
}.

Record i2c_command_buffer_t := mk_buffer {
  buf_length : Z;
  buf_commands : list i2c_command_t
}.

(** The calls a producer callback makes into the engine. *)
Inductive producer_call :=
| call_send_byte (b : Z)
| call_send_bytes (bytes : list Z) (n : Z)
| call_send_start
| call_end_transmission.

(** A callback context lives behind a [void *]. *)
Abbreviation ptr := nat.

(** [i2c_callback_t]: a producer callback reads its context, makes calls
    of the producer API, updates its context and says whether it has
    more to produce. *)
Definition i2c_callback_t (ctx : Type) : Type :=
  ctx -> list producer_call * ctx * bool.

Record i2c_task_t (ctx : Type) := mk_task {
  callback : i2c_callback_t ctx;
  task_data : ptr;
  address : Z
}.
Arguments mk_task {ctx}.
Arguments callback {ctx}.
Arguments task_data {ctx}.
Arguments address {ctx}.

(** [front_buffer] and [back_buffer] point at one of the two buffers of
    the queue. *)
Inductive buffer_ref := ref_buffer_a | ref_buffer_b.

(** [i2c_queue_t].
    Modelled from the spec: [ring_buffer.h] is absent.  [tasks] stands for
    [tasks_storage] with its [ring_buffer_t]: a FIFO of at most
    [I2C_QUEUE_SIZE] tasks, appended at the tail, read and discarded at
    the head. *)
Record i2c_queue_t (ctx : Type) := mk_queue {
  tasks : list (i2c_task_t ctx);
  buffer_a : i2c_command_buffer_t;
  buffer_b : i2c_command_buffer_t;
  front_buffer : buffer_ref;
  back_buffer : buffer_ref;
  transmitter_active : bool;
  pending_buffer_switch : bool;
  tasks_n : Z;
  front_buffer_cursor : Z;
  current_command : i2c_command_t
}.
Arguments mk_queue {ctx}.
Arguments tasks {ctx}.
Arguments buffer_a {ctx}.
Arguments buffer_b {ctx}.
Arguments front_buffer {ctx}.
Arguments back_buffer {ctx}.
Arguments transmitter_active {ctx}.
Arguments pending_buffer_switch {ctx}.
Arguments tasks_n {ctx}.
Arguments front_buffer_cursor {ctx}.
Arguments current_command {ctx}.

(** The primitives of [i2c_hw.h], as the engine calls them. *)
Inductive hw_call :=
| hw_init
| hw_send_start_condition
| hw_send_byte (b : Z)
| hw_send_stop_condition
| hw_disable_int.

(** What happened to the tasks: an enqueue, or one invocation of a task's
    callback, with the calls it made and the value it returned. *)
Inductive task_event (ctx : Type) :=
| task_enqueued (t : i2c_task_t ctx)
| task_called (t : i2c_task_t ctx) (cs : list producer_call) (keep_task : bool).
Arguments task_enqueued {ctx}.
Arguments task_called {ctx}.

(** The machine.
    - [SREG_I]: the global interrupt enable bit.
    - [TWI_armed]: a bus operation is in flight and will raise the TWI
      interrupt when it completes.
    - [memory]: the callbacks' contexts.
    - [schedule]: what the bus will do at the coming points where program
      flow can be preempted: for each such point, the status register
      values of the TWI interrupts that are raised there.
    - [bus], [calls]: the primitives invoked and the task events so far
      (oldest first); they are written, never read. *)
Record machine (ctx : Type) := mk_machine {
  I2C_QUEUE : i2c_queue_t ctx;
  SREG_I : bool;
  TWI_armed : bool;
  memory : ptr -> ctx;
  schedule : list (list Z);
  bus : list hw_call;
  calls : list (task_event ctx)
}.
Arguments mk_machine {ctx}.
Arguments I2C_QUEUE {ctx}.
Arguments SREG_I {ctx}.
Arguments TWI_armed {ctx}.
Arguments memory {ctx}.
Arguments schedule {ctx}.
Arguments bus {ctx}.
Arguments calls {ctx}.

(** Fault categories of [fault.h]; [FAULT_ASSERTION] is the one a failed
    [assert] reports. *)
Inductive fault_category := FAULT_I2C | FAULT_ASSERTION.

(** How a run of engine code ends.
    Modelled from the spec: [fault.h] and [assert.h] are absent.  A fault
    is terminal (section 6), and a failed assertion is a fault (section
    7); the code of an assertion fault is the line of the [assert] in
    [i2c_async.c].  An access outside an array is kept apart from both. *)
Inductive outcome (ctx A : Type) :=
| Done (a : A) (m : machine ctx)
| Faulted (category : fault_category) (code : Z) (m : machine ctx)
| OutOfBounds (m : machine ctx)
| OutOfFuel.
Arguments Done {ctx A}.
Arguments Faulted {ctx A}.
Arguments OutOfBounds {ctx A}.
Arguments OutOfFuel {ctx A}.

(** ** The state and error monad *)

Definition M (ctx A : Type) : Type := machine ctx -> outcome ctx A.

Definition ret {ctx A} (a : A) : M ctx A := fun m => Done a m.

Definition bind {ctx A B} (c : M ctx A) (k : A -> M ctx B) : M ctx B :=
  fun m =>
    match c m with
    | Done a m' => k a m'
    | Faulted category code m' => Faulted category code m'
    | OutOfBounds m' => OutOfBounds m'
    | OutOfFuel => OutOfFuel
    end.

Notation "x <- c ;; k" := (bind c (fun x => k))
  (at level 100, c at next level, k at level 200, right associativity).
Notation "c ;; k" := (bind c (fun _ => k))
  (at level 100, k at level 200, right associativity).

Section Engine.
Context {cfg : config} {ctx : Type}.

Local Abbreviation M := (M ctx).

Definition get : M (machine ctx) := fun m => Done m m.
Definition get_queue : M (i2c_queue_t ctx) := fun m => Done (I2C_QUEUE m) m.
Definition modify (f : machine ctx -> machine ctx) : M unit :=
  fun m => Done tt (f m).
Definition out_of_fuel {A} : M A := fun _ => OutOfFuel.
Definition out_of_bounds {A} : M A := fun m => OutOfBounds m.

(** [fault(category, code, message)]. *)
Definition fault {A} (category : fault_category) (code : Z) : M A :=
  fun m => Faulted category code m.

(** [assert(c)], at line [line] of the source. *)
Definition assert (line : Z) (c : bool) : M unit :=
  if c then ret tt else fault FAULT_ASSERTION line.

(** *** Field updates *)

Definition set_tasks (v : list (i2c_task_t ctx)) (q : i2c_queue_t ctx) :=
  mk_queue v (buffer_a q) (buffer_b q) (front_buffer q) (back_buffer q)
    (transmitter_active q) (pending_buffer_switch q) (tasks_n q)
    (front_buffer_cursor q) (current_command q).
Definition set_buffer_a (v : i2c_command_buffer_t) (q : i2c_queue_t ctx) :=
  mk_queue (tasks q) v (buffer_b q) (front_buffer q) (back_buffer q)
    (transmitter_active q) (pending_buffer_switch q) (tasks_n q)
    (front_buffer_cursor q) (current_command q).
Definition set_buffer_b (v : i2c_command_buffer_t) (q : i2c_queue_t ctx) :=
  mk_queue (tasks q) (buffer_a q) v (front_buffer q) (back_buffer q)
    (transmitter_active q) (pending_buffer_switch q) (tasks_n q)
    (front_buffer_cursor q) (current_command q).
Definition set_front_buffer (v : buffer_ref) (q : i2c_queue_t ctx) :=
  mk_queue (tasks q) (buffer_a q) (buffer_b q) v (back_buffer q)
    (transmitter_active q) (pending_buffer_switch q) (tasks_n q)
    (front_buffer_cursor q) (current_command q).
Definition set_back_buffer (v : buffer_ref) (q : i2c_queue_t ctx) :=
  mk_queue (tasks q) (buffer_a q) (buffer_b q) (front_buffer q) v
    (transmitter_active q) (pending_buffer_switch q) (tasks_n q)
    (front_buffer_cursor q) (current_command q).
Definition set_transmitter_active (v : bool) (q : i2c_queue_t ctx) :=
  mk_queue (tasks q) (buffer_a q) (buffer_b q) (front_buffer q) (back_buffer q)
    v (pending_buffer_switch q) (tasks_n q)
    (front_buffer_cursor q) (current_command q).
Definition set_pending_buffer_switch (v : bool) (q : i2c_queue_t ctx) :=
  mk_queue (tasks q) (buffer_a q) (buffer_b q) (front_buffer q) (back_buffer q)
    (transmitter_active q) v (tasks_n q)
    (front_buffer_cursor q) (current_command q).
Definition set_tasks_n (v : Z) (q : i2c_queue_t ctx) :=
  mk_queue (tasks q) (buffer_a q) (buffer_b q) (front_buffer q) (back_buffer q)
    (transmitter_active q) (pending_buffer_switch q) v
    (front_buffer_cursor q) (current_command q).
Definition set_front_buffer_cursor (v : Z) (q : i2c_queue_t ctx) :=
  mk_queue (tasks q) (buffer_a q) (buffer_b q) (front_buffer q) (back_buffer q)
    (transmitter_active q) (pending_buffer_switch q) (tasks_n q)
    v (current_command q).
Definition set_current_command (v : i2c_command_t) (q : i2c_queue_t ctx) :=
  mk_queue (tasks q) (buffer_a q) (buffer_b q) (front_buffer q) (back_buffer q)
    (transmitter_active q) (pending_buffer_switch q) (tasks_n q)
    (front_buffer_cursor q) v.

Definition set_I2C_QUEUE (v : i2c_queue_t ctx) (m : machine ctx) :=
  mk_machine v (SREG_I m) (TWI_armed m) (memory m) (schedule m) (bus m) (calls m).
Definition set_SREG_I (v : bool) (m : machine ctx) :=
  mk_machine (I2C_QUEUE m) v (TWI_armed m) (memory m) (schedule m) (bus m) (calls m).
Definition set_TWI_armed (v : bool) (m : machine ctx) :=
  mk_machine (I2C_QUEUE m) (SREG_I m) v (memory m) (schedule m) (bus m) (calls m).
Definition set_memory (v : ptr -> ctx) (m : machine ctx) :=
  mk_machine (I2C_QUEUE m) (SREG_I m) (TWI_armed m) v (schedule m) (bus m) (calls m).
Definition set_schedule (v : list (list Z)) (m : machine ctx) :=
  mk_machine (I2C_QUEUE m) (SREG_I m) (TWI_armed m) (memory m) v (bus m) (calls m).
Definition set_bus (v : list hw_call) (m : machine ctx) :=
  mk_machine (I2C_QUEUE m) (SREG_I m) (TWI_armed m) (memory m) (schedule m) v (calls m).
Definition set_calls (v : list (task_event ctx)) (m : machine ctx) :=
  mk_machine (I2C_QUEUE m) (SREG_I m) (TWI_armed m) (memory m) (schedule m) (bus m) v.

(** An assignment to a field of [I2C_QUEUE]. *)
Definition modify_queue (f : i2c_queue_t ctx -> i2c_queue_t ctx) : M unit :=
  modify (fun m => set_I2C_QUEUE (f (I2C_QUEUE m)) m).

(** *** The two buffers behind [front_buffer] and [back_buffer] *)

Definition deref (q : i2c_queue_t ctx) (r : buffer_ref) : i2c_command_buffer_t :=
  match r with
  | ref_buffer_a => buffer_a q
  | ref_buffer_b => buffer_b q
  end.

Definition assign (r : buffer_ref) (b : i2c_command_buffer_t)
    (q : i2c_queue_t ctx) : i2c_queue_t ctx :=
  match r with
  | ref_buffer_a => set_buffer_a b q
  | ref_buffer_b => set_buffer_b b q
  end.

Definition front (q : i2c_queue_t ctx) := deref q (front_buffer q).
Definition back (q : i2c_queue_t ctx) := deref q (back_buffer q).

(** [buffer->commands[i]], read. *)
Definition read_command (b : i2c_command_buffer_t) (i : Z) : M i2c_command_t :=
  if i <? 0 then out_of_bounds
  else match buf_commands b !! Z.to_nat i with
       | Some c => ret c
       | None => out_of_bounds
       end.

(** [I2C_QUEUE.back_buffer->commands[i] = c]. *)
Definition write_back_command (i : Z) (c : i2c_command_t) : M unit :=
  q <- get_queue ;;
  if i <? 0 then out_of_bounds
  else match buf_commands (back q) !! Z.to_nat i with
       | Some _ =>
           modify_queue
             (assign (back_buffer q)
                (mk_buffer (buf_length (back q))
                   (<[Z.to_nat i := c]> (buf_commands (back q)))))
       | None => out_of_bounds
       end.

(** [I2C_QUEUE.back_buffer->length = n]. *)
Definition set_back_length (n : Z) : M unit :=
  modify_queue (fun q =>
    assign (back_buffer q) (mk_buffer n (buf_commands (back q))) q).

(** ** Collaborators *)

(** Modelled from the spec: [i2c_hw.h] is absent.  Section 6: the start
    and byte primitives complete with one interrupt each, the stop
    primitive and the disabling of the interrupt source with none. *)
Definition hw (c : hw_call) (armed : bool) : M unit :=
  modify (fun m => set_TWI_armed armed (set_bus (bus m ++ [c]) m)).

Definition i2c_hw_init : M unit := hw hw_init false.
Definition i2c_hw_send_start_condition_int : M unit :=
  hw hw_send_start_condition true.
Definition i2c_hw_send_byte_int (b : Z) : M unit := hw (hw_send_byte b) true.
Definition i2c_hw_send_stop_condition : M unit :=
  hw hw_send_stop_condition false.
Definition i2c_hw_disable_int : M unit := hw hw_disable_int false.

(** [cli()] and [sei()]. *)
Definition cli : M unit := modify (set_SREG_I false).
Definition sei : M unit := modify (set_SREG_I true).

(** [ATOMIC_BLOCK(ATOMIC_RESTORESTATE)] of avr-libc's <util/atomic.h>. *)
Definition ATOMIC_RESTORESTATE {A} (body : M A) : M A :=
  m <- get ;;
  cli ;;
  r <- body ;;
  modify (set_SREG_I (SREG_I m)) ;;
  ret r.

(** [assert_interrupts_disabled()]. *)
Definition assert_interrupts_disabled (line : Z) : M unit :=
  m <- get ;;
  assert line (negb (SREG_I m)).

(** The hardware raising the TWI interrupt with status register [twsr]:
    nothing happens unless interrupts are enabled and an operation is in
    flight; the handler runs with interrupts disabled, and they are
    enabled again when it returns. *)
Definition interrupt (handler : Z -> M unit) (twsr : Z) : M unit :=
  m <- get ;;
  if SREG_I m && TWI_armed m then
    modify (fun m => set_TWI_armed false (set_SREG_I false m)) ;;
    handler twsr ;;
    sei
  else ret tt.

Fixpoint interrupts (handler : Z -> M unit) (twsrs : list Z) : M unit :=
  match twsrs with
  | [] => ret tt
  | twsr :: rest => interrupt handler twsr ;; interrupts handler rest
  end.

(** A point where program flow can be preempted: the interrupts the
    schedule holds for it are raised. *)
Definition preempt (handler : Z -> M unit) : M unit :=
  m <- get ;;
  match schedule m with
  | [] => ret tt
  | twsrs :: rest =>
      modify (set_schedule rest) ;;
      interrupts handler twsrs
  end.

(** ** The task queue *)

(** Modelled from the spec: [ring_buffer.h] is absent (section 4.1).  The
    two assertions fault when the queue cannot take, or does not hold, [n]
    elements; append writes at the tail, [ring_buffer_get_first] reads the
    head and [ring_buffer_discard] removes it.  The element that
    [ring_buffer_append] hands out is filled by the caller before anyone
    can read it, so the task is appended with its fields set. *)
Definition ring_buffer_assert_can_write_n_elements (line n : Z) : M unit :=
  q <- get_queue ;;
  assert line (Z.of_nat (length (tasks q)) + n <=? I2C_QUEUE_SIZE).

Definition ring_buffer_assert_can_read_n_elements (line n : Z) : M unit :=
  q <- get_queue ;;
  assert line (n <=? Z.of_nat (length (tasks q))).

Definition ring_buffer_append (t : i2c_task_t ctx) : M unit :=
  modify_queue (fun q => set_tasks (tasks q ++ [t]) q).

Definition ring_buffer_get_first : M (i2c_task_t ctx) :=
  q <- get_queue ;;
  match tasks q with
  | t :: _ => ret t
  | [] => out_of_bounds
  end.

Definition ring_buffer_discard : M unit :=
  modify_queue (fun q => set_tasks (tail (tasks q)) q).

Definition ring_buffer_init : M unit :=
  modify_queue (set_tasks []).

(** ** The double command buffer *)

Definition i2c_queue_switch_buffers : M unit :=
  q <- get_queue ;;
  assert 73 (0 <? buf_length (back q)) ;;
  assert 74 (front_buffer_cursor q =? buf_length (front q)) ;;
  let tmp := back_buffer q in
  modify_queue (set_back_buffer (front_buffer q)) ;;
  modify_queue (set_front_buffer tmp) ;;
  modify_queue (set_pending_buffer_switch false) ;;
  set_back_length 0 ;;
  modify_queue (set_front_buffer_cursor 0) ;;
  q <- get_queue ;;
  c <- read_command (front q) 0 ;;
  modify_queue (set_current_command c).

Definition i2c_queue_switch_tasks : M unit :=
  assert_interrupts_disabled 91 ;;
  ring_buffer_assert_can_read_n_elements 92 1 ;;
  ring_buffer_discard ;;
  modify_queue (fun q => set_tasks_n (u8 (tasks_n q - 1)) q).

(** ** The producer API *)

Definition i2c_produce_command (code data : Z) : M unit :=
  q <- get_queue ;;
  assert 309 (1 <=? I2C_BUFFER_SIZE - buf_length (back q)) ;;
  write_back_command (buf_length (back q)) (mk_command code data) ;;
  set_back_length (u8 (buf_length (back q) + 1)).

Definition i2c_async_send_byte (data : Z) : M unit :=
  i2c_produce_command I2C_COMMAND_SEND_DATA data.

(** The loop of [i2c_async_send_bytes]: iterations [i], [i + 1], ... of
    the [count] that remain.  [data[i]] past the end of [data] reads as 0. *)
Fixpoint send_bytes_loop (base : Z) (data : list Z) (i : Z) (count : nat)
    : M unit :=
  match count with
  | O => ret tt
  | S count' =>
      write_back_command (base + i)
        (mk_command I2C_COMMAND_SEND_DATA (nth (Z.to_nat i) data 0)) ;;
      send_bytes_loop base data (i + 1) count'
  end.

Definition i2c_async_send_bytes (data : list Z) (n : Z) : M unit :=
  assert 330 (0 <? n) ;;
  q <- get_queue ;;
  assert 331 (n <=? I2C_BUFFER_SIZE - buf_length (back q)) ;;
  send_bytes_loop (buf_length (back q)) data 0 (Z.to_nat n) ;;
  set_back_length (u8 (buf_length (back q) + n)) ;;
  q <- get_queue ;;
  assert 341 (0 <? buf_length (back q)).

Definition i2c_async_send_start : M unit :=
  ring_buffer_assert_can_read_n_elements 348 1 ;;
  task <- ring_buffer_get_first ;;
  i2c_produce_command I2C_COMMAND_START 0 ;;
  assert 353 (Z.land (address task) 1 =? 0) ;;
  i2c_produce_command I2C_COMMAND_SEND_DATA (address task).

Definition i2c_async_end_transmission : M unit :=
  i2c_produce_command I2C_COMMAND_STOP 0.

Definition producer (c : producer_call) : M unit :=
  match c with
  | call_send_byte b => i2c_async_send_byte b
  | call_send_bytes data n => i2c_async_send_bytes data n
  | call_send_start => i2c_async_send_start
  | call_end_transmission => i2c_async_end_transmission
  end.

(** The body of a callback: its calls, each of which the interrupt
    handler may precede. *)
Fixpoint run_calls (handler : Z -> M unit) (cs : list producer_call) : M unit :=
  match cs with
  | [] => ret tt
  | c :: rest => preempt handler ;; producer c ;; run_calls handler rest
  end.

(** [NONATOMIC_BLOCK(NONATOMIC_FORCEOFF) { keep_task = task->callback(task->data); }]:
    the callback runs with interrupts enabled, and they are disabled
    again when the block is left. *)
Definition call_task (handler : Z -> M unit) (task : i2c_task_t ctx) : M bool :=
  sei ;;
  m <- get ;;
  let '(cs, c', keep_task) := callback task (memory m (task_data task)) in
  run_calls handler cs ;;
  modify (fun m => set_memory (<[task_data task := c']> (memory m)) m) ;;
  preempt handler ;;
  cli ;;
  modify (fun m => set_calls (calls m ++ [task_called task cs keep_task]) m) ;;
  ret keep_task.

(** ** The state machine *)

(** The body of [ISR(TWI_vect)], over the function it ends with. *)
Definition TWI_vect_body (process_command : M unit) (twsr : Z) : M unit :=
  let i2c_status := Z.land twsr TW_STATUS_MASK in
  (if (TW_MT_DATA_ACK <? i2c_status) || (i2c_status =? TW_MT_SLA_NACK)
   then fault FAULT_I2C i2c_status
   else ret tt) ;;
  process_command.

(** [i2c_queue_start_transmitter], over the function it ends with. *)
Definition i2c_queue_start_transmitter (process_command : M unit) : M unit :=
  q <- get_queue ;;
  assert 101 (negb (transmitter_active q)) ;;
  assert 102 (negb (cmd_code (current_command q) =? I2C_COMMAND_PENDING)) ;;
  modify_queue (set_transmitter_active true) ;;
  process_command.

(** [i2c_queue_process_command] and [i2c_queue_fetch_commands] call each
    other, and the latter loops for as long as its callbacks make it.
    Their bodies are written over the functions they call; the functions
    are then defined together, every call and every turn of the loop
    taking one unit of [fuel] (the callees are passed as functions of the
    machine, so that evaluating a call does not evaluate them first). *)
(** What [i2c_queue_process_command] does after its [switch], on the
    branches that leave it by [break]. *)
Definition process_command_advance (process_command fetch_commands : M unit)
    : M unit :=
  modify_queue (fun q =>
    set_front_buffer_cursor (u8 (front_buffer_cursor q + 1)) q) ;;
  q <- get_queue ;;
  if front_buffer_cursor q =? buf_length (front q) then
    if pending_buffer_switch q then
      i2c_queue_switch_buffers ;;
      q <- get_queue ;;
      (if negb (transmitter_active q)
       then i2c_queue_start_transmitter process_command
       else ret tt) ;;
      q <- get_queue ;;
      if 0 <? tasks_n q then fetch_commands else ret tt
    else
      modify_queue (fun q =>
        set_current_command
          (mk_command I2C_COMMAND_PENDING (cmd_data (current_command q))) q)
  else
    c <- read_command (front q) (front_buffer_cursor q) ;;
    modify_queue (set_current_command c) ;;
    q <- get_queue ;;
    assert 222 (transmitter_active q).

Definition process_command_body (process_command fetch_commands : M unit)
    : M unit :=
  assert_interrupts_disabled 155 ;;
  q <- get_queue ;;
  assert 156 (transmitter_active q) ;;
  assert 158 (0 <? buf_length (front q)) ;;
  assert 159 (front_buffer_cursor q <=? buf_length (front q)) ;;
  let advance := process_command_advance process_command fetch_commands in
  let code := cmd_code (current_command q) in
  if code =? I2C_COMMAND_SEND_DATA then
    i2c_hw_send_byte_int (cmd_data (current_command q)) ;;
    advance
  else if code =? I2C_COMMAND_START then
    i2c_hw_send_start_condition_int ;;
    advance
  else if code =? I2C_COMMAND_STOP then
    i2c_hw_send_stop_condition ;;
    modify_queue (set_transmitter_active false) ;;
    advance
  else if code =? I2C_COMMAND_PENDING then
    if pending_buffer_switch q then
      i2c_queue_switch_buffers ;;
      process_command ;;
      q <- get_queue ;;
      if 0 <? tasks_n q then fetch_commands else ret tt
    else
      i2c_hw_disable_int ;;
      modify_queue (set_transmitter_active false)
  else
    fault FAULT_I2C code.

(** One turn of the [do ... while (true)] of [i2c_queue_fetch_commands];
    [again] is the next turn. *)
Definition fetch_commands_turn (process_command again : M unit) : M unit :=
  q <- get_queue ;;
  if tasks_n q =? 0 then ret tt
  else
    task <- ring_buffer_get_first ;;
    q <- get_queue ;;
    assert 123 (buf_length (back q) =? 0) ;;
    keep_task <- call_task (TWI_vect_body process_command) task ;;
    q <- get_queue ;;
    assert 131 (0 <? buf_length (back q)) ;;
    (if negb keep_task then i2c_queue_switch_tasks else ret tt) ;;
    q <- get_queue ;;
    if negb (transmitter_active q) then
      i2c_queue_switch_buffers ;;
      i2c_queue_start_transmitter process_command ;;
      again
    else
      modify_queue (set_pending_buffer_switch true).

Definition fetch_commands_body (loop : M unit) : M unit :=
  assert_interrupts_disabled 112 ;;
  q <- get_queue ;;
  assert 113 (0 <? tasks_n q) ;;
  assert 114 (negb (pending_buffer_switch q)) ;;
  loop.

Fixpoint i2c_queue_process_command (fuel : nat) {struct fuel} : M unit :=
  match fuel with
  | O => out_of_fuel
  | S fuel' =>
      process_command_body
        (fun m => i2c_queue_process_command fuel' m)
        (fun m => i2c_queue_fetch_commands fuel' m)
  end

with i2c_queue_fetch_commands (fuel : nat) {struct fuel} : M unit :=
  match fuel with
  | O => out_of_fuel
  | S fuel' =>
      fetch_commands_body (fun m => i2c_queue_fetch_commands_loop fuel' m)
  end

with i2c_queue_fetch_commands_loop (fuel : nat) {struct fuel} : M unit :=
  match fuel with
  | O => out_of_fuel
  | S fuel' =>
      fetch_commands_turn
        (fun m => i2c_queue_process_command fuel' m)
        (fun m => i2c_queue_fetch_commands_loop fuel' m)
  end.

(** [ISR(TWI_vect)]. *)
Definition TWI_vect (fuel : nat) (twsr : Z) : M unit :=
  TWI_vect_body (i2c_queue_process_command fuel) twsr.

(** ** User API *)

Definition i2c_init : M unit :=
  modify_queue (set_front_buffer ref_buffer_a) ;;
  modify_queue (fun q =>
    assign (front_buffer q) (mk_buffer 0 (buf_commands (front q))) q) ;;
  modify_queue (set_front_buffer_cursor 0) ;;
  modify_queue (set_back_buffer ref_buffer_b) ;;
  set_back_length 0 ;;
  modify_queue (set_pending_buffer_switch false) ;;
  modify_queue (set_transmitter_active false) ;;
  modify_queue (set_tasks_n 0) ;;
  modify_queue (fun q =>
    set_current_command
      (mk_command I2C_COMMAND_PENDING (cmd_data (current_command q))) q) ;;
  ring_buffer_init ;;
  i2c_hw_init.

Definition i2c_is_idle : M bool :=
  ATOMIC_RESTORESTATE
    (q <- get_queue ;;
     ret (negb (transmitter_active q) && (tasks_n q =? 0))).

(** [i2c_wait]: every turn of the loop is a point where the interrupt
    handler may run, and takes one unit of [polls]. *)
Fixpoint i2c_wait (fuel polls : nat) : M unit :=
  match polls with
  | O => out_of_fuel
  | S polls' =>
      idle <- i2c_is_idle ;;
      if idle then ret tt
      else preempt (TWI_vect fuel) ;; i2c_wait fuel polls'
  end.

Definition i2c_transmit_async (fuel : nat) (address : Z)
    (callback : i2c_callback_t ctx) (data : ptr) : M unit :=
  ATOMIC_RESTORESTATE
    (ring_buffer_assert_can_write_n_elements 289 1 ;;
     ring_buffer_append (mk_task callback data address) ;;
     is_idle <- i2c_is_idle ;;
     modify (fun m =>
       set_calls (calls m ++ [task_enqueued (mk_task callback data address)]) m) ;;
     modify_queue (fun q => set_tasks_n (u8 (tasks_n q + 1)) q) ;;
     if is_idle then i2c_queue_fetch_commands fuel else ret tt).

End Engine.

(** ** The program-storage transfer helper *)

(** [transmit_progmem_t].  [pm_data] is the content of program storage
    from the address [data] on; a read past its end yields 0. *)
Record transmit_progmem_t := mk_progmem {
  pm_length : Z;
  pm_counter : Z;
  pm_data : list Z
}.

Definition pgm_read_byte (data : list Z) (offset : Z) : Z :=
  nth (Z.to_nat offset) data 0.

(** The [for] loop of [i2c_transmit_progmem_cb], with [turns] turns left
    of its 16. *)
Fixpoint progmem_loop (turns : nat) (ctrl : transmit_progmem_t)
    : list producer_call * transmit_progmem_t :=
  match turns with
  | O => ([], ctrl)
  | S turns' =>
      if pm_counter ctrl <? pm_length ctrl then
        let c := call_send_byte (pgm_read_byte (pm_data ctrl) (pm_counter ctrl)) in
        let ctrl' :=
          mk_progmem (pm_length ctrl) (u16 (pm_counter ctrl + 1)) (pm_data ctrl) in
        let '(cs, ctrl'') := progmem_loop turns' ctrl' in
        (c :: cs, ctrl'')
      else ([], ctrl)
  end.

Definition i2c_transmit_progmem_cb : i2c_callback_t transmit_progmem_t :=
  fun ctrl =>
    let start := if pm_counter ctrl =? 0 then [call_send_start] else [] in
    if pm_counter ctrl <? pm_length ctrl then
      let '(cs, ctrl') := progmem_loop 16 ctrl in
      (start ++ cs, ctrl', true)
    else
      (start ++ [call_end_transmission],
       mk_progmem (pm_length ctrl) 0 (pm_data ctrl),
       false).

(** [i2c_transmit_progmem]; [ctrl] is where its local variable of that
    name lives. *)
Definition i2c_transmit_progmem {cfg : config} (fuel polls : nat) (ctrl : ptr)
    (address : Z) (data : list Z) (length : Z) : M transmit_progmem_t unit :=
  modify (fun m =>
    set_memory (<[ctrl := mk_progmem length 0 data]> (memory m)) m) ;;
  i2c_transmit_async fuel address i2c_transmit_progmem_cb ctrl ;;
  i2c_wait fuel polls.

(** * Specification *)

(** ** Invariants of the engine *)

Section Invariants.
Context {cfg : config} {ctx : Type}.

(** A buffer within its capacity: the array has [I2C_BUFFER_SIZE]
    elements, and [length], a [uint8_t], counts at most that many. *)
Definition buffer_within_capacity (b : i2c_command_buffer_t) : Prop :=
  Z.of_nat (length (buf_commands b)) = I2C_BUFFER_SIZE /\
  0 <= buf_length b <= I2C_BUFFER_SIZE /\ buf_length b <= 255.

Definition within_capacity (m : machine ctx) : Prop :=
  buffer_within_capacity (buffer_a (I2C_QUEUE m)) /\
  buffer_within_capacity (buffer_b (I2C_QUEUE m)).

(** The two buffers are distinct and within capacity, and a front buffer
    read to its end leaves the pending sentinel as current command. *)
Definition buffers_wf (m : machine ctx) : Prop :=
  let q := I2C_QUEUE m in
  front_buffer q <> back_buffer q /\
  within_capacity m /\
  0 <= front_buffer_cursor q <= 255 /\
  (front_buffer_cursor q = buf_length (front q) ->
   cmd_code (current_command q) = I2C_COMMAND_PENDING).

(** [fifo evs ts]: the task events [evs] are a first-in first-out service
    of the queue, which they leave holding [ts]: a task enters at the
    tail, the callback invoked is that of the head, and the head leaves
    when, and only when, its callback returned false. *)
Inductive fifo : list (task_event ctx) -> list (i2c_task_t ctx) -> Prop :=
| fifo_start : fifo [] []
| fifo_enqueued evs ts t :
    fifo evs ts -> fifo (evs ++ [task_enqueued t]) (ts ++ [t])
| fifo_kept evs ts t cs :
    fifo evs (t :: ts) -> fifo (evs ++ [task_called t cs true]) (t :: ts)
| fifo_completed evs ts t cs :
    fifo evs (t :: ts) -> fifo (evs ++ [task_called t cs false]) ts.

(** The tasks enqueued and the tasks completed, in the order of the
    events. *)
Fixpoint enqueued (evs : list (task_event ctx)) : list (i2c_task_t ctx) :=
  match evs with
  | [] => []
  | task_enqueued t :: rest => t :: enqueued rest
  | task_called _ _ _ :: rest => enqueued rest
  end.

Fixpoint completed (evs : list (task_event ctx)) : list (i2c_task_t ctx) :=
  match evs with
  | [] => []
  | task_called t _ false :: rest => t :: completed rest
  | _ :: rest => completed rest
  end.

(** What a step of the task queue does to the tasks queued, the task
    events and the memory of the callbacks: the head task is served once.
    A property [T] of the three that such a step keeps is kept by the
    whole engine. *)
Definition kept_by_service
    (T : list (i2c_task_t ctx) -> list (task_event ctx) -> (ptr -> ctx) -> Prop)
    : Prop :=
  forall t rest cl mem cs c' keep_task,
    T (t :: rest) cl mem ->
    callback t (mem (task_data t)) = (cs, c', keep_task) ->
    T (if keep_task then t :: rest else rest)
      (cl ++ [task_called t cs keep_task])
      (<[task_data t := c']> mem).

(** The invariant of the engine between two operations, over such a
    property [T]: [tasks_n] counts the tasks queued, and they fit the
    queue. *)
Definition engine_inv
    (T : list (i2c_task_t ctx) -> list (task_event ctx) -> (ptr -> ctx) -> Prop)
    (m : machine ctx) : Prop :=
  buffers_wf m /\
  tasks_n (I2C_QUEUE m) = Z.of_nat (length (tasks (I2C_QUEUE m))) /\
  Z.of_nat (length (tasks (I2C_QUEUE m))) <= I2C_QUEUE_SIZE /\
  T (tasks (I2C_QUEUE m)) (calls m) (memory m).

(** The state of the engine while a callback runs: no buffer switch is
    pending, and the tasks, the task events and the memory are the
    callback's to change. *)
Definition producing (ts : list (i2c_task_t ctx)) (cl : list (task_event ctx))
    (n : Z) (mem : ptr -> ctx) (m : machine ctx) : Prop :=
  buffers_wf m /\
  pending_buffer_switch (I2C_QUEUE m) = false /\
  tasks (I2C_QUEUE m) = ts /\ calls m = cl /\
  tasks_n (I2C_QUEUE m) = n /\ memory m = mem.

(** The state of the machine when [main] starts: the buffers are the two
    arrays of [I2C_BUFFER_SIZE] commands, and nothing has happened yet. *)
Definition power_on (m : machine ctx) : Prop :=
  Z.of_nat (length (buf_commands (buffer_a (I2C_QUEUE m)))) = I2C_BUFFER_SIZE /\
  Z.of_nat (length (buf_commands (buffer_b (I2C_QUEUE m)))) = I2C_BUFFER_SIZE /\
  bus m = [] /\ calls m = [].

(** The states of the machine between two operations of the engine:
    after [i2c_init], program flow enqueues tasks and waits, the bus
    raises interrupts, and program flow may change the memory, the
    schedule of the bus and the interrupt enable bit.  Operations that
    fault do not lead anywhere: a fault is terminal. *)
Inductive reachable : machine ctx -> Prop :=
| reach_init m0 m :
    power_on m0 -> i2c_init m0 = Done tt m -> reachable m
| reach_transmit m fuel address callback data m' :
    reachable m ->
    i2c_transmit_async fuel address callback data m = Done tt m' ->
    reachable m'
| reach_interrupt m fuel twsr m' :
    reachable m ->
    interrupt (TWI_vect fuel) twsr m = Done tt m' ->
    reachable m'
| reach_wait m fuel polls m' :
    reachable m ->
    i2c_wait fuel polls m = Done tt m' ->
    reachable m'
| reach_program m mem sch i :
    reachable m ->
    reachable (set_memory mem (set_schedule sch (set_SREG_I i m))).

(** How a run can fail to complete. *)
Inductive failure :=
| fail_fault (category : fault_category) (code : Z) (m : machine ctx)
| fail_bounds (m : machine ctx)
| fail_fuel.

(** The failures of a run that keeps the buffers within capacity: it may
    fault, with the buffers within capacity still, and it may run out of
    fuel, but it accesses no array outside its bounds. *)
Definition capacity_kept (f : failure) : Prop :=
  match f with
  | fail_fault _ _ m => within_capacity m
  | fail_bounds _ => False
  | fail_fuel => True
  end.

(** No failure is allowed: the run completes. *)
Definition never : failure -> Prop := fun _ => False.

(** [wp c Q X m]: the run of [c] from [m] completes with [Q], or fails
    in a way [X] allows. *)
Definition wp {A} (c : M ctx A) (Q : A -> machine ctx -> Prop)
    (X : failure -> Prop) (m : machine ctx) : Prop :=
  match c m with
  | Done a m' => Q a m'
  | Faulted category code m' => X (fail_fault category code m')
  | OutOfBounds m' => X (fail_bounds m')
  | OutOfFuel => X fail_fuel
  end.

End Invariants.

Arguments failure : clear implicits.

(** ** What the bus is asked to do *)

Section Bus.
Context {ctx : Type}.

(** The commands a buffer holds: the first [length] elements of its
    array. *)
Definition filled (b : i2c_command_buffer_t) : list i2c_command_t :=
  take (Z.to_nat (buf_length b)) (buf_commands b).

(** The commands of the front buffer from the cursor on. *)
Definition unsent (q : i2c_queue_t ctx) : list i2c_command_t :=
  drop (Z.to_nat (front_buffer_cursor q)) (filled (front q)).

(** The commands that a call of the producer API appends, in a task for
    [address]. *)
Definition commands_of (address : Z) (c : producer_call) : list i2c_command_t :=
  match c with
  | call_send_byte b => [mk_command I2C_COMMAND_SEND_DATA b]
  | call_send_bytes data n =>
      map (fun i => mk_command I2C_COMMAND_SEND_DATA (nth i data 0))
        (seq 0 (Z.to_nat n))
  | call_send_start =>
      [mk_command I2C_COMMAND_START 0;
       mk_command I2C_COMMAND_SEND_DATA address]
  | call_end_transmission => [mk_command I2C_COMMAND_STOP 0]
  end.

(** The commands produced by the callback invocations of a record of task
    events. *)
Fixpoint produced (evs : list (task_event ctx)) : list i2c_command_t :=
  match evs with
  | [] => []
  | task_enqueued _ :: rest => produced rest
  | task_called t cs _ :: rest =>
      concat (map (commands_of (address t)) cs) ++ produced rest
  end.

(** The bus primitive that [i2c_queue_process_command] invokes for a
    command of the front buffer. *)
Definition hw_of (c : i2c_command_t) : hw_call :=
  if cmd_code c =? I2C_COMMAND_SEND_DATA then hw_send_byte (cmd_data c)
  else if cmd_code c =? I2C_COMMAND_START then hw_send_start_condition
  else hw_send_stop_condition.

(** The primitives that put something on the wire. *)
Definition on_wire (c : hw_call) : bool :=
  match c with
  | hw_send_start_condition | hw_send_byte _ | hw_send_stop_condition => true
  | hw_init | hw_disable_int => false
  end.

Definition wire (bs : list hw_call) : list hw_call := List.filter on_wire bs.

(** The codes that the producer API appends. *)
Definition producible (c : i2c_command_t) : Prop :=
  cmd_code c = I2C_COMMAND_START \/ cmd_code c = I2C_COMMAND_SEND_DATA \/
  cmd_code c = I2C_COMMAND_STOP.

End Bus.

(** * Properties *)

(** Unfolds the monad, the field accesses and the field updates. *)
Ltac simpl_state :=
  cbv beta iota zeta delta
    [bind ret get get_queue modify modify_queue out_of_fuel out_of_bounds
     fault assert
     set_tasks set_buffer_a set_buffer_b set_front_buffer set_back_buffer
     set_transmitter_active set_pending_buffer_switch set_tasks_n
     set_front_buffer_cursor set_current_command
     set_I2C_QUEUE set_SREG_I set_TWI_armed set_memory set_schedule set_bus
     set_calls
     tasks buffer_a buffer_b front_buffer back_buffer transmitter_active
     pending_buffer_switch tasks_n front_buffer_cursor current_command
     I2C_QUEUE SREG_I TWI_armed memory schedule bus calls
     buf_length buf_commands cmd_code cmd_data callback task_data address
     deref assign front back set_back_length
     hw i2c_hw_init i2c_hw_send_start_condition_int i2c_hw_send_byte_int
     i2c_hw_send_stop_condition i2c_hw_disable_int
     cli sei ATOMIC_RESTORESTATE assert_interrupts_disabled].

Tactic Notation "simpl_state" "in" hyp(H) :=
  cbv beta iota zeta delta
    [bind ret get get_queue modify modify_queue out_of_fuel out_of_bounds
     fault assert
     set_tasks set_buffer_a set_buffer_b set_front_buffer set_back_buffer
     set_transmitter_active set_pending_buffer_switch set_tasks_n
     set_front_buffer_cursor set_current_command
     set_I2C_QUEUE set_SREG_I set_TWI_armed set_memory set_schedule set_bus
     set_calls
     tasks buffer_a buffer_b front_buffer back_buffer transmitter_active
     pending_buffer_switch tasks_n front_buffer_cursor current_command
     I2C_QUEUE SREG_I TWI_armed memory schedule bus calls
     buf_length buf_commands cmd_code cmd_data callback task_data address
     deref assign front back set_back_length
     hw i2c_hw_init i2c_hw_send_start_condition_int i2c_hw_send_byte_int
     i2c_hw_send_stop_condition i2c_hw_disable_int
     cli sei ATOMIC_RESTORESTATE assert_interrupts_disabled] in H.


(** ** Reasoning about runs *)

Section Runs.
Context {ctx : Type}.

Local Abbreviation M := (M ctx).

Lemma wp_ret {A} (a : A) Q X (m : machine ctx) : Q a m -> wp (ret a) Q X m.
Proof. auto. Qed.

Lemma wp_bind {A B} (c : M A) (k : A -> M B) Q X (m : machine ctx) :
  wp c (fun a m' => wp (k a) Q X m') X m -> wp (a <- c ;; k a) Q X m.
Proof. unfold wp, bind. destruct (c m); auto. Qed.

Lemma wp_get Q X (m : machine ctx) : Q m m -> wp get Q X m.
Proof. auto. Qed.

Lemma wp_get_queue Q X (m : machine ctx) : Q (I2C_QUEUE m) m -> wp get_queue Q X m.
Proof. auto. Qed.

Lemma wp_modify f Q X (m : machine ctx) : Q tt (f m) -> wp (modify f) Q X m.
Proof. auto. Qed.

Lemma wp_modify_queue f Q X (m : machine ctx) :
  Q tt (set_I2C_QUEUE (f (I2C_QUEUE m)) m) -> wp (modify_queue f) Q X m.
Proof. auto. Qed.

Lemma wp_assert line (c : bool) Q X (m : machine ctx) :
  (c = true -> Q tt m) ->
  (c = false -> X (fail_fault FAULT_ASSERTION line m)) ->
  wp (assert line c) Q X m.
Proof. destruct c; unfold wp; simpl; auto. Qed.

Lemma wp_fault {A} category code (Q : A -> machine ctx -> Prop) X m :
  X (fail_fault category code m) -> wp (fault category code) Q X m.
Proof. auto. Qed.

Lemma wp_conseq {A} (c : M A) (Q Q' : A -> machine ctx -> Prop) X (m : machine ctx) :
  wp c Q X m -> (forall a m', Q a m' -> Q' a m') -> wp c Q' X m.
Proof. unfold wp. destruct (c m); auto. Qed.

Lemma wp_never_Done {A} (c : M A) Q (m : machine ctx) :
  wp c Q never m -> exists a m', c m = Done a m' /\ Q a m'.
Proof. unfold wp, never. destruct (c m); try tauto. eauto. Qed.

Lemma wp_Done {A} (c : M A) Q X (m : machine ctx) a m' :
  wp c Q X m -> c m = Done a m' -> Q a m'.
Proof. unfold wp. intros H E. rewrite E in H. exact H. Qed.

End Runs.

(** Unfolds the field accesses and the field updates, leaving the monad
    as it is. *)
Ltac simpl_fields :=
  cbn beta iota zeta delta
    [set_tasks set_buffer_a set_buffer_b set_front_buffer set_back_buffer
     set_transmitter_active set_pending_buffer_switch set_tasks_n
     set_front_buffer_cursor set_current_command
     set_I2C_QUEUE set_SREG_I set_TWI_armed set_memory set_schedule set_bus
     set_calls
     tasks buffer_a buffer_b front_buffer back_buffer transmitter_active
     pending_buffer_switch tasks_n front_buffer_cursor current_command
     I2C_QUEUE SREG_I TWI_armed memory schedule bus calls
     buf_length buf_commands cmd_code cmd_data callback task_data address
     deref assign front back].

Tactic Notation "simpl_fields" "in" "*" :=
  cbn beta iota zeta delta
    [set_tasks set_buffer_a set_buffer_b set_front_buffer set_back_buffer
     set_transmitter_active set_pending_buffer_switch set_tasks_n
     set_front_buffer_cursor set_current_command
     set_I2C_QUEUE set_SREG_I set_TWI_armed set_memory set_schedule set_bus
     set_calls
     tasks buffer_a buffer_b front_buffer back_buffer transmitter_active
     pending_buffer_switch tasks_n front_buffer_cursor current_command
     I2C_QUEUE SREG_I TWI_armed memory schedule bus calls
     buf_length buf_commands cmd_code cmd_data callback task_data address
     deref assign front back] in *.

(** Comparisons on [Z] that were decided, as propositions. *)
Ltac bool_to_prop :=
  repeat match goal with
  | H : (_ <? _) = true |- _ => apply Z.ltb_lt in H
  | H : (_ <? _) = false |- _ => apply Z.ltb_ge in H
  | H : (_ <=? _) = true |- _ => apply Z.leb_le in H
  | H : (_ <=? _) = false |- _ => apply Z.leb_gt in H
  | H : (_ =? _) = true |- _ => apply Z.eqb_eq in H
  | H : (_ =? _) = false |- _ => apply Z.eqb_neq in H
  | H : negb _ = true |- _ => apply negb_true_iff in H
  | H : negb _ = false |- _ => apply negb_false_iff in H
  | H : (_ && _) = true |- _ => apply andb_true_iff in H; destruct H
  | H : (_ || _) = false |- _ => apply orb_false_iff in H; destruct H
  end.

(** One step of a run: the rule for the construct at its head. *)
Ltac wp_step :=
  lazymatch goal with
  | |- wp (bind _ _) _ _ _ => apply wp_bind
  | |- wp (ret _) _ _ _ => apply wp_ret
  | |- wp get _ _ _ => apply wp_get
  | |- wp get_queue _ _ _ => apply wp_get_queue
  | |- wp (modify _) _ _ _ => apply wp_modify
  | |- wp (modify_queue _) _ _ _ => apply wp_modify_queue
  | |- wp (fault _ _) _ _ _ => apply wp_fault
  | |- wp (assert _ _) _ _ _ => apply wp_assert; intros ?
  | |- wp (if ?b then _ else _) _ _ _ => destruct b eqn:?
  | |- wp (set_back_length _) _ _ _ => unfold set_back_length
  | |- wp (hw _ _) _ _ _ => unfold hw
  | |- wp cli _ _ _ => unfold cli
  | |- wp sei _ _ _ => unfold sei
  | |- wp (assert_interrupts_disabled _) _ _ _ =>
      unfold assert_interrupts_disabled
  | |- wp i2c_hw_init _ _ _ => unfold i2c_hw_init
  | |- wp i2c_hw_send_start_condition_int _ _ _ =>
      unfold i2c_hw_send_start_condition_int
  | |- wp (i2c_hw_send_byte_int _) _ _ _ => unfold i2c_hw_send_byte_int
  | |- wp i2c_hw_send_stop_condition _ _ _ => unfold i2c_hw_send_stop_condition
  | |- wp i2c_hw_disable_int _ _ _ => unfold i2c_hw_disable_int
  | |- wp (ATOMIC_RESTORESTATE _) _ _ _ => unfold ATOMIC_RESTORESTATE
  | |- wp (ring_buffer_assert_can_write_n_elements _ _) _ _ _ =>
      unfold ring_buffer_assert_can_write_n_elements
  | |- wp (ring_buffer_assert_can_read_n_elements _ _) _ _ _ =>
      unfold ring_buffer_assert_can_read_n_elements
  | |- wp (ring_buffer_append _) _ _ _ => unfold ring_buffer_append
  | |- wp ring_buffer_discard _ _ _ => unfold ring_buffer_discard
  | |- wp ring_buffer_init _ _ _ => unfold ring_buffer_init
  end; simpl_fields.

Ltac wp_steps := repeat wp_step.

(** The steps of a run up to its next branch. *)
Ltac wp_step_straight :=
  lazymatch goal with
  | |- wp (if _ then _ else _) _ _ _ => fail
  | _ => wp_step
  end.

Ltac wp_run := repeat wp_step_straight.

(** ** Reasoning about the invariants *)

Ltac destruct_machine m :=
  let q := fresh "q" in
  destruct m as [q sreg armed mem0 sch bs cl0];
  destruct q as [ts0 [la ca] [lb cb] [|] [|] act pend tn cur [cc cd]].

Ltac unfold_inv :=
  unfold engine_inv, producing, buffers_wf, within_capacity,
    buffer_within_capacity, capacity_kept in *;
  simpl_fields in *.

Ltac arith :=
  unfold u8, u16, I2C_COMMAND_START, I2C_COMMAND_SEND_DATA, I2C_COMMAND_STOP,
    I2C_COMMAND_PENDING in *;
  Z.div_mod_to_equations; lia.

Ltac solve_inv :=
  unfold_inv; bool_to_prop;
  repeat match goal with
  | H : _ /\ _ |- _ => destruct H
  end;
  repeat split; intros; rewrite ?length_insert; auto; try congruence;
  try arith.

(** ** The engine keeps its invariants *)

Section InvariantsKept.
Context {cfg : config} {ctx : Type}.

Lemma u8_range x : 0 <= u8 x <= 255.
Proof. unfold u8. pose proof (Z.mod_pos_bound x 256). lia. Qed.

Lemma process_command_S fuel :
  i2c_queue_process_command (ctx := ctx) (S fuel) =
  process_command_body (i2c_queue_process_command fuel)
    (i2c_queue_fetch_commands fuel).
Proof. reflexivity. Qed.

Lemma fetch_commands_S fuel :
  i2c_queue_fetch_commands (ctx := ctx) (S fuel) =
  fetch_commands_body (i2c_queue_fetch_commands_loop fuel).
Proof. reflexivity. Qed.

Lemma fetch_commands_loop_S fuel :
  i2c_queue_fetch_commands_loop (ctx := ctx) (S fuel) =
  fetch_commands_turn (i2c_queue_process_command fuel)
    (i2c_queue_fetch_commands_loop fuel).
Proof. reflexivity. Qed.

Lemma front_set_transmitter_active b (q : i2c_queue_t ctx) :
  front (set_transmitter_active b q) = front q.
Proof. reflexivity. Qed.

(** *** Array accesses and the head of the task queue *)

Lemma wp_write_back_command i c Q X (m : machine ctx) :
  0 <= i < Z.of_nat (length (buf_commands (back (I2C_QUEUE m)))) ->
  Q tt (set_I2C_QUEUE
          (assign (back_buffer (I2C_QUEUE m))
             (mk_buffer (buf_length (back (I2C_QUEUE m)))
                (<[Z.to_nat i := c]> (buf_commands (back (I2C_QUEUE m)))))
             (I2C_QUEUE m)) m) ->
  wp (write_back_command i c) Q X m.
Proof.
  intros Hi HQ. unfold write_back_command. wp_step. wp_step.
  destruct (Z.ltb_spec i 0); [lia|].
  destruct (lookup_lt_is_Some_2 (buf_commands (back (I2C_QUEUE m))) (Z.to_nat i))
    as [c' Hc']; [lia|].
  simpl_fields in *. rewrite Hc'. wp_step. exact HQ.
Qed.

Lemma wp_read_command (b : i2c_command_buffer_t) i Q X (m : machine ctx) :
  0 <= i < Z.of_nat (length (buf_commands b)) ->
  (forall c, buf_commands b !! Z.to_nat i = Some c -> Q c m) ->
  wp (read_command b i) Q X m.
Proof.
  intros Hi HQ. unfold read_command.
  destruct (Z.ltb_spec i 0); [lia|].
  destruct (lookup_lt_is_Some_2 (buf_commands b) (Z.to_nat i)) as [c Hc]; [lia|].
  rewrite Hc. apply wp_ret. auto.
Qed.

Lemma wp_ring_buffer_get_first Q X (m : machine ctx) :
  (forall t rest, tasks (I2C_QUEUE m) = t :: rest -> Q t m) ->
  (tasks (I2C_QUEUE m) = [] -> X (fail_bounds m)) ->
  wp ring_buffer_get_first Q X m.
Proof.
  intros HQ HX. unfold ring_buffer_get_first. wp_step. wp_step.
  destruct (tasks (I2C_QUEUE m)) as [|t rest] eqn:E.
  - now apply HX.
  - wp_step. eauto.
Qed.

Lemma is_idle_spec Q X (m : machine ctx) :
  Q (negb (transmitter_active (I2C_QUEUE m)) &&
     (tasks_n (I2C_QUEUE m) =? 0)) m ->
  wp i2c_is_idle Q X m.
Proof.
  intros H. unfold i2c_is_idle. wp_steps.
  destruct m as [q s a mem sch b cl]. exact H.
Qed.

(** *** While a callback runs *)

Lemma producing_frame ts cl n mem (m m' : machine ctx) :
  I2C_QUEUE m' = I2C_QUEUE m -> calls m' = calls m -> memory m' = memory m ->
  producing ts cl n mem m -> producing ts cl n mem m'.
Proof.
  unfold producing, buffers_wf, within_capacity. intros -> -> ->. auto.
Qed.

Lemma producing_capacity ts cl n mem (m : machine ctx) :
  producing ts cl n mem m -> within_capacity m.
Proof. unfold producing, buffers_wf. tauto. Qed.

Lemma produce_command_producing code data ts cl n mem (m : machine ctx) :
  producing ts cl n mem m ->
  wp (i2c_produce_command code data) (fun _ m' => producing ts cl n mem m')
    capacity_kept m.
Proof.
  intros H. unfold i2c_produce_command.
  destruct_machine m; wp_steps; try solve [solve_inv].
  all: apply wp_write_back_command; simpl_fields; [solve_inv|].
  all: wp_steps; solve_inv.
Qed.

(** While no buffer switch is pending, the state machine neither
    switches buffers nor fetches commands. *)
Lemma process_command_producing fuel ts cl n mem (m : machine ctx) :
  producing ts cl n mem m ->
  wp (i2c_queue_process_command fuel) (fun _ m' => producing ts cl n mem m')
    capacity_kept m.
Proof.
  intros H. destruct fuel as [|fuel]; [exact I|].
  rewrite process_command_S.
  unfold process_command_body, process_command_advance.
  destruct_machine m; unfold_inv;
    destruct H as ((Hne & Hcap & Hcur & Hpend) & -> & Hts & Hcl & Hn & Hmem);
    try congruence.
  all: wp_steps; try solve [solve_inv].
  all: apply wp_read_command; simpl_fields; [solve_inv|intros c Hc].
  all: wp_steps; solve_inv.
Qed.

Lemma TWI_vect_producing fuel twsr ts cl n mem (m : machine ctx) :
  producing ts cl n mem m ->
  wp (TWI_vect_body (i2c_queue_process_command fuel) twsr)
    (fun _ m' => producing ts cl n mem m') capacity_kept m.
Proof.
  intros H. unfold TWI_vect_body. wp_step. wp_step.
  - wp_step. simpl. eauto using producing_capacity.
  - wp_step. now apply process_command_producing.
Qed.

(** Raising interrupts keeps what the handler keeps, when that depends
    on the queue, the task events and the memory only. *)
Section Interrupts.
Variable handler : Z -> M ctx unit.
Variable I : machine ctx -> Prop.
Hypothesis I_frame : forall m m',
  I2C_QUEUE m' = I2C_QUEUE m -> calls m' = calls m -> memory m' = memory m ->
  I m -> I m'.
Hypothesis handler_keeps : forall twsr m,
  I m -> wp (handler twsr) (fun _ m' => I m') capacity_kept m.

Lemma interrupt_keeps twsr (m : machine ctx) :
  I m -> wp (interrupt handler twsr) (fun _ m' => I m') capacity_kept m.
Proof.
  intros H. unfold interrupt. wp_step. wp_step. wp_step; [|wp_step; exact H].
  wp_step. wp_step. wp_step.
  eapply wp_conseq.
  - apply handler_keeps. revert H. now apply I_frame.
  - intros [] m' H'. wp_step. revert H'. now apply I_frame.
Qed.

Lemma interrupts_keeps twsrs (m : machine ctx) :
  I m -> wp (interrupts handler twsrs) (fun _ m' => I m') capacity_kept m.
Proof.
  revert m. induction twsrs as [|twsr rest IH]; intros m H; simpl.
  - wp_step. exact H.
  - wp_step. eapply wp_conseq; [now apply interrupt_keeps|].
    intros [] m' H'. now apply IH.
Qed.

Lemma preempt_keeps (m : machine ctx) :
  I m -> wp (preempt handler) (fun _ m' => I m') capacity_kept m.
Proof.
  intros H. unfold preempt. wp_step. wp_step.
  destruct (schedule m) as [|twsrs rest] eqn:E.
  - wp_step. exact H.
  - wp_step. wp_step. apply interrupts_keeps.
    revert H. now apply I_frame.
Qed.

End Interrupts.

Section Callback.
Variable handler : Z -> M ctx unit.
Variables (ts : list (i2c_task_t ctx)) (cl : list (task_event ctx)) (n : Z).
Hypothesis handler_producing : forall twsr mem m,
  producing ts cl n mem m ->
  wp (handler twsr) (fun _ m' => producing ts cl n mem m') capacity_kept m.

Lemma preempt_producing mem (m : machine ctx) :
  producing ts cl n mem m ->
  wp (preempt handler) (fun _ m' => producing ts cl n mem m') capacity_kept m.
Proof.
  apply preempt_keeps; auto. intros m1 m2 Hq Hc Hm.
  now apply producing_frame.
Qed.

Lemma send_bytes_loop_producing mem base data count : forall i (m : machine ctx),
  producing ts cl n mem m ->
  base = buf_length (back (I2C_QUEUE m)) ->
  0 <= i -> base + i + Z.of_nat count <= I2C_BUFFER_SIZE ->
  wp (send_bytes_loop base data i count)
    (fun _ m' => producing ts cl n mem m' /\
       buf_length (back (I2C_QUEUE m')) = base)
    capacity_kept m.
Proof.
  induction count as [|count IH]; intros i m H Hbase Hi Hc; simpl.
  - wp_step. auto.
  - wp_step.
    destruct_machine m; unfold_inv;
      destruct H as ((Hne & Hcap & Hcur & Hpend) & -> & Hts & Hcl & Hn & Hmem);
      try congruence.
    all: apply wp_write_back_command; simpl_fields; [solve_inv|].
    all: apply IH; simpl_fields; try lia; solve_inv.
Qed.

Lemma send_bytes_producing mem data k (m : machine ctx) :
  producing ts cl n mem m ->
  wp (i2c_async_send_bytes data k) (fun _ m' => producing ts cl n mem m')
    capacity_kept m.
Proof.
  intros H. unfold i2c_async_send_bytes.
  wp_steps; try solve [simpl; eauto using producing_capacity].
  bool_to_prop.
  eapply wp_conseq.
  { apply send_bytes_loop_producing; eauto; lia. }
  intros [] m' (H' & Hlen).
  destruct_machine m'; unfold_inv;
    destruct H' as ((Hne & Hcap & Hcur & Hpend) & -> & Hts & Hcl & Hn & Hmem);
    try congruence.
  all: wp_steps; solve_inv.
Qed.

Lemma send_start_producing mem (m : machine ctx) :
  producing ts cl n mem m ->
  wp i2c_async_send_start (fun _ m' => producing ts cl n mem m')
    capacity_kept m.
Proof.
  intros H. unfold i2c_async_send_start.
  wp_steps; try solve [simpl; eauto using producing_capacity].
  bool_to_prop. apply wp_ring_buffer_get_first.
  2: { intros E. rewrite E in *. simpl in *. lia. }
  intros t rest E. wp_step.
  eapply wp_conseq;
    [apply (produce_command_producing _ _ ts cl n mem); exact H|].
  intros [] m1 H1.
  wp_steps; try solve [simpl; eauto using producing_capacity].
  apply (produce_command_producing _ _ ts cl n mem); exact H1.
Qed.

Lemma producer_producing mem c (m : machine ctx) :
  producing ts cl n mem m ->
  wp (producer c) (fun _ m' => producing ts cl n mem m') capacity_kept m.
Proof.
  intros H. destruct c; simpl.
  - now apply produce_command_producing.
  - now apply send_bytes_producing.
  - now apply send_start_producing.
  - now apply produce_command_producing.
Qed.

Lemma run_calls_producing mem cs : forall (m : machine ctx),
  producing ts cl n mem m ->
  wp (run_calls handler cs) (fun _ m' => producing ts cl n mem m')
    capacity_kept m.
Proof.
  induction cs as [|c rest IH]; intros m H; simpl.
  - wp_step. exact H.
  - wp_step. eapply wp_conseq; [apply (preempt_producing mem); exact H|].
    intros [] m1 H1. wp_step.
    eapply wp_conseq; [apply (producer_producing mem); exact H1|].
    intros [] m2 H2. now apply IH.
Qed.

Lemma call_task_producing mem task (m : machine ctx) :
  producing ts cl n mem m ->
  wp (call_task handler task)
    (fun keep_task m' =>
       exists cs c',
         callback task (mem (task_data task)) = (cs, c', keep_task) /\
         producing ts (cl ++ [task_called task cs keep_task]) n
           (<[task_data task := c']> mem) m' /\
         SREG_I m' = false)
    capacity_kept m.
Proof.
  intros H. unfold call_task. wp_steps.
  assert (Hmem : memory m = mem) by apply H. rewrite Hmem.
  destruct (callback task (mem (task_data task))) as [[cs c'] keep_task] eqn:E.
  wp_step. eapply wp_conseq.
  { apply (run_calls_producing mem). revert H. now apply producing_frame. }
  intros [] m1 H1. wp_steps.
  eapply wp_conseq.
  { apply preempt_producing with (mem := <[task_data task := c']> mem).
    destruct H1 as (Hb & Hp & Ht & Hc & Hn & Hm).
    unfold producing, buffers_wf, within_capacity in *; simpl_fields.
    rewrite Hm. repeat split; auto; apply Hb. }
  intros [] m2 H2. wp_steps. exists cs, c'. split; [reflexivity|].
  split; [|reflexivity].
  destruct H2 as (Hb & Hp & Ht & Hc & Hn & Hm).
  unfold producing, buffers_wf, within_capacity in *; simpl_fields.
  rewrite Hc. repeat split; auto; apply Hb.
Qed.

End Callback.

(** *** Between two operations *)

Section Engine.
Variable T :
  list (i2c_task_t ctx) -> list (task_event ctx) -> (ptr -> ctx) -> Prop.
Hypothesis T_service : kept_by_service T.
Hypothesis queue_fits : I2C_QUEUE_SIZE <= 255.

Lemma engine_inv_capacity (m : machine ctx) :
  engine_inv T m -> within_capacity m.
Proof. unfold engine_inv, buffers_wf. tauto. Qed.

Lemma engine_inv_frame (m m' : machine ctx) :
  I2C_QUEUE m' = I2C_QUEUE m -> calls m' = calls m -> memory m' = memory m ->
  engine_inv T m -> engine_inv T m'.
Proof.
  unfold engine_inv, buffers_wf, within_capacity. intros -> -> ->. auto.
Qed.

(** What the tasks queued, the task events and the memory satisfy between
    two operations. *)
Definition tasks_ok (ts : list (i2c_task_t ctx)) (cl : list (task_event ctx))
    (n : Z) (mem : ptr -> ctx) : Prop :=
  n = Z.of_nat (length ts) /\
  Z.of_nat (length ts) <= I2C_QUEUE_SIZE /\
  T ts cl mem.

Lemma producing_engine_inv ts cl n mem (m : machine ctx) :
  producing ts cl n mem m -> tasks_ok ts cl n mem -> engine_inv T m.
Proof.
  intros (Hb & Hp & <- & <- & <- & <-) (Hn & Hq & HT). repeat split; auto;
    apply Hb.
Qed.

Lemma engine_inv_producing (m : machine ctx) :
  engine_inv T m -> pending_buffer_switch (I2C_QUEUE m) = false ->
  producing (tasks (I2C_QUEUE m)) (calls m) (tasks_n (I2C_QUEUE m))
    (memory m) m.
Proof. intros (Hb & Hok) Hp. repeat split; auto; apply Hb. Qed.

Lemma engine_inv_tasks_ok (m : machine ctx) :
  engine_inv T m ->
  tasks_ok (tasks (I2C_QUEUE m)) (calls m) (tasks_n (I2C_QUEUE m)) (memory m).
Proof. intros (Hb & Hok). exact Hok. Qed.

Lemma switch_buffers_producing ts cl n mem (m : machine ctx) :
  front_buffer (I2C_QUEUE m) <> back_buffer (I2C_QUEUE m) ->
  within_capacity m ->
  tasks (I2C_QUEUE m) = ts -> calls m = cl -> tasks_n (I2C_QUEUE m) = n ->
  memory m = mem ->
  wp i2c_queue_switch_buffers (fun _ m' => producing ts cl n mem m')
    capacity_kept m.
Proof.
  intros Hne Hcap Hts Hcl Hn Hmem. unfold i2c_queue_switch_buffers.
  destruct_machine m; unfold_inv; try congruence.
  all: wp_steps; try solve [solve_inv].
  all: apply wp_read_command; simpl_fields; [solve_inv|intros c Hc].
  all: wp_steps; solve_inv.
Qed.

Lemma switch_tasks_producing t rest cl n mem (m : machine ctx) :
  producing (t :: rest) cl n mem m ->
  wp i2c_queue_switch_tasks
    (fun _ m' => producing rest cl (u8 (n - 1)) mem m') capacity_kept m.
Proof.
  intros H. unfold i2c_queue_switch_tasks.
  wp_steps; try solve [simpl; eauto using producing_capacity].
  destruct H as (Hb & Hp & Ht & Hc & Hn & Hm).
  unfold producing, buffers_wf, within_capacity in *; simpl_fields.
  rewrite Ht, Hn. simpl. repeat split; auto; apply Hb.
Qed.

Lemma start_transmitter_producing fuel ts cl n mem (m : machine ctx) :
  producing ts cl n mem m ->
  wp (i2c_queue_start_transmitter (i2c_queue_process_command fuel))
    (fun _ m' => producing ts cl n mem m') capacity_kept m.
Proof.
  intros H. unfold i2c_queue_start_transmitter.
  wp_steps; try solve [simpl; eauto using producing_capacity].
  apply process_command_producing.
  destruct H as (Hb & Hp & Ht & Hc & Hn & Hm).
  unfold producing, buffers_wf, within_capacity in *; simpl_fields.
  repeat split; auto; apply Hb.
Qed.

Lemma fetch_commands_loop_inv fuel : forall (m : machine ctx),
  engine_inv T m -> pending_buffer_switch (I2C_QUEUE m) = false ->
  wp (i2c_queue_fetch_commands_loop fuel) (fun _ m' => engine_inv T m')
    capacity_kept m.
Proof.
  induction fuel as [|fuel IH]; intros m Hinv Hpend; [exact I|].
  rewrite fetch_commands_loop_S. unfold fetch_commands_turn.
  wp_step. wp_step. wp_step; [wp_step; exact Hinv|].
  wp_step. apply wp_ring_buffer_get_first.
  2: { intros E. destruct Hinv as (_ & Hn & _). rewrite E in Hn.
       bool_to_prop. simpl in *. lia. }
  intros t rest E.
  wp_steps; try solve [simpl; eauto using engine_inv_capacity].
  pose proof (engine_inv_producing m Hinv Hpend) as Hprod.
  destruct Hinv as (Hb & Hn & Hq & HT). rewrite E in *.
  eapply wp_conseq.
  { apply call_task_producing; [|exact Hprod].
    intros twsr mem m0. apply TWI_vect_producing. }
  intros keep_task m1 (cs & c' & Hcb & H1 & Hs1).
  pose proof (T_service _ _ _ _ _ _ _ HT Hcb) as HT1.
  wp_run; try solve [simpl; eauto using producing_capacity].
  eapply wp_conseq with
    (Q := fun _ m' => engine_inv T m' /\
                      pending_buffer_switch (I2C_QUEUE m') = false).
  { destruct keep_task; cbn [negb].
    - wp_step. split; [|apply H1].
      apply (producing_engine_inv _ _ _ _ _ H1). repeat split; auto.
    - eapply wp_conseq; [apply (switch_tasks_producing _ _ _ _ _ _ H1)|].
      intros [] m2 H2. split; [|apply H2].
      apply (producing_engine_inv _ _ _ _ _ H2).
      simpl length in *. repeat split; auto; arith. }
  intros [] m2 (H2 & Hp2).
  wp_run. wp_step.
  - wp_step. pose proof (engine_inv_tasks_ok _ H2) as Hok2.
    destruct H2 as (Hb2 & _). eapply wp_conseq.
    { apply switch_buffers_producing; eauto; apply Hb2. }
    intros [] m3 H3. wp_step. eapply wp_conseq.
    { apply start_transmitter_producing. exact H3. }
    intros [] m4 H4. apply IH; [|apply H4].
    apply (producing_engine_inv _ _ _ _ _ H4 Hok2).
  - wp_step. revert H2. unfold engine_inv, buffers_wf, within_capacity.
    simpl_fields. auto.
Qed.

Lemma fetch_commands_inv fuel (m : machine ctx) :
  engine_inv T m ->
  wp (i2c_queue_fetch_commands fuel) (fun _ m' => engine_inv T m')
    capacity_kept m.
Proof.
  intros H. destruct fuel as [|fuel]; [exact I|].
  rewrite fetch_commands_S. unfold fetch_commands_body.
  wp_run; try solve [simpl; eauto using engine_inv_capacity].
  bool_to_prop. now apply fetch_commands_loop_inv.
Qed.

(** After a buffer switch made by the state machine. *)
Lemma fetch_if_tasks_inv fuel (m : machine ctx) :
  engine_inv T m ->
  wp (q <- get_queue ;;
      if 0 <? tasks_n q then i2c_queue_fetch_commands fuel else ret tt)
    (fun _ m' => engine_inv T m') capacity_kept m.
Proof.
  intros H. wp_run. wp_step.
  - now apply fetch_commands_inv.
  - wp_step. exact H.
Qed.

Lemma process_command_advance_inv fuel (m : machine ctx) :
  engine_inv T m ->
  front_buffer_cursor (I2C_QUEUE m) < buf_length (front (I2C_QUEUE m)) ->
  wp (process_command_advance (i2c_queue_process_command fuel)
        (i2c_queue_fetch_commands fuel))
    (fun _ m' => engine_inv T m') capacity_kept m.
Proof.
  intros Hinv Hlt. pose proof (engine_inv_tasks_ok _ Hinv) as Hok.
  destruct Hinv as (Hb & Hn & Hq & HT). unfold process_command_advance.
  wp_run. wp_step; [wp_step|].
  - (* the front buffer is consumed and the back buffer is ready *)
    wp_step. eapply wp_conseq.
    { apply switch_buffers_producing; try reflexivity; simpl_fields;
        apply Hb. }
    simpl_fields. intros [] m1 H1. wp_run.
    eapply wp_conseq with (Q := fun _ m' => engine_inv T m').
    { wp_step.
      - eapply wp_conseq; [apply start_transmitter_producing; exact H1|].
        intros [] m2 H2. apply (producing_engine_inv _ _ _ _ _ H2 Hok).
      - wp_step. apply (producing_engine_inv _ _ _ _ _ H1 Hok). }
    intros [] m2 H2. now apply fetch_if_tasks_inv.
  - (* the front buffer is consumed and nothing is ready *)
    wp_step.
    revert Hb. unfold engine_inv, buffers_wf, within_capacity. simpl_fields.
    intros (Hne & Hcap & Hcur & Hpend).
    repeat split; try apply Hcap; auto; apply u8_range.
  - (* the next command of the front buffer *)
    wp_step. bool_to_prop.
    destruct_machine m; unfold_inv;
      destruct Hb as (Hne & Hcap & Hcur & Hpend); try congruence.
    all: apply wp_read_command; simpl_fields; [solve_inv|intros c Hc].
    all: wp_steps; solve_inv.
Qed.

Lemma process_command_inv fuel (m : machine ctx) :
  engine_inv T m ->
  wp (i2c_queue_process_command fuel) (fun _ m' => engine_inv T m')
    capacity_kept m.
Proof.
  intros H. destruct fuel as [|fuel]; [exact I|].
  rewrite process_command_S. unfold process_command_body.
  wp_run; try solve [simpl; eauto using engine_inv_capacity].
  bool_to_prop.
  assert (Hadv : forall (m' : machine ctx),
    I2C_QUEUE m' = I2C_QUEUE m \/
    I2C_QUEUE m' = set_transmitter_active false (I2C_QUEUE m) ->
    calls m' = calls m -> memory m' = memory m ->
    cmd_code (current_command (I2C_QUEUE m)) <> I2C_COMMAND_PENDING ->
    wp (process_command_advance (i2c_queue_process_command fuel)
          (i2c_queue_fetch_commands fuel))
      (fun _ m' => engine_inv T m') capacity_kept m').
  { intros m' Hq Hc Hmem Hcode. apply process_command_advance_inv.
    - destruct H as (Hb & Hok). unfold engine_inv, buffers_wf, within_capacity.
      rewrite Hc, Hmem.
      destruct Hq as [-> | ->]; rewrite ?front_set_transmitter_active;
        simpl_fields; auto.
    - destruct H as ((_ & _ & _ & Hp) & _).
      assert (front_buffer_cursor (I2C_QUEUE m) <>
              buf_length (front (I2C_QUEUE m))) by tauto.
      destruct Hq as [-> | ->]; rewrite ?front_set_transmitter_active;
        simpl_fields; lia. }
  wp_step; [|wp_step; [|wp_step; [|wp_step]]]; bool_to_prop.
  - wp_run. apply Hadv; simpl_fields; auto. arith.
  - wp_run. apply Hadv; simpl_fields; auto. arith.
  - wp_run. apply Hadv; simpl_fields; auto. arith.
  - wp_step.
    + wp_step. pose proof (engine_inv_tasks_ok _ H) as Hok.
      destruct H as (Hb & _). eapply wp_conseq.
      { apply switch_buffers_producing; try reflexivity; apply Hb. }
      intros [] m1 Hm1. wp_step. eapply wp_conseq.
      { apply process_command_producing. exact Hm1. }
      intros [] m2 Hm2. apply fetch_if_tasks_inv.
      apply (producing_engine_inv _ _ _ _ _ Hm2 Hok).
    + wp_run. revert H. unfold engine_inv, buffers_wf, within_capacity.
      simpl_fields. auto.
  - wp_step. simpl. now apply engine_inv_capacity.
Qed.

Lemma TWI_vect_inv fuel twsr (m : machine ctx) :
  engine_inv T m ->
  wp (TWI_vect fuel twsr) (fun _ m' => engine_inv T m') capacity_kept m.
Proof.
  intros H. unfold TWI_vect, TWI_vect_body. wp_step. wp_step.
  - wp_step. simpl. now apply engine_inv_capacity.
  - wp_step. now apply process_command_inv.
Qed.

Lemma interrupt_inv fuel twsr (m : machine ctx) :
  engine_inv T m ->
  wp (interrupt (TWI_vect fuel) twsr) (fun _ m' => engine_inv T m')
    capacity_kept m.
Proof.
  apply interrupt_keeps.
  - exact engine_inv_frame.
  - intros twsr' m0. apply TWI_vect_inv.
Qed.

Lemma wait_inv fuel polls : forall (m : machine ctx),
  engine_inv T m ->
  wp (i2c_wait fuel polls) (fun _ m' => engine_inv T m') capacity_kept m.
Proof.
  induction polls as [|polls IH]; intros m H; [exact I|]. simpl.
  wp_step. apply is_idle_spec. wp_step; [wp_step; exact H|].
  wp_step. eapply wp_conseq.
  { apply preempt_keeps with (I := engine_inv T); auto.
    - exact engine_inv_frame.
    - intros twsr m0. apply TWI_vect_inv. }
  intros [] m1 H1. now apply IH.
Qed.

Lemma transmit_async_inv fuel address callback data (m : machine ctx) :
  engine_inv T m ->
  T (tasks (I2C_QUEUE m) ++ [mk_task callback data address])
    (calls m ++ [task_enqueued (mk_task callback data address)])
    (memory m) ->
  wp (i2c_transmit_async fuel address callback data)
    (fun _ m' => engine_inv T m') capacity_kept m.
Proof.
  intros H HT. unfold i2c_transmit_async.
  wp_run; try solve [simpl; eauto using engine_inv_capacity].
  apply is_idle_spec. wp_run. bool_to_prop.
  eapply wp_conseq with (Q := fun _ m' => engine_inv T m').
  2: { intros [] m1 H1. wp_steps. revert H1. now apply engine_inv_frame. }
  assert (Hinv : engine_inv T
    (set_I2C_QUEUE
       (set_tasks_n (u8 (tasks_n (I2C_QUEUE m) + 1))
          (set_tasks (tasks (I2C_QUEUE m)
                      ++ [mk_task callback data address]) (I2C_QUEUE m)))
       (set_calls (calls m
                   ++ [task_enqueued (mk_task callback data address)])
          (set_SREG_I false m)))).
  { destruct H as (Hb & Hn & Hq & Hf).
    unfold engine_inv, buffers_wf, within_capacity in *.
    simpl_fields. rewrite length_app. simpl length.
    repeat split; try apply Hb; auto; arith. }
  wp_step; [now apply fetch_commands_inv|wp_step; exact Hinv].
Qed.

Lemma init_inv (m : machine ctx) :
  power_on m -> 0 <= I2C_QUEUE_SIZE -> T [] [] (memory m) ->
  wp i2c_init
    (fun _ m' => engine_inv T m' /\ bus m' = [hw_init] /\
                 tasks (I2C_QUEUE m') = [] /\
                 transmitter_active (I2C_QUEUE m') = false)
    never m.
Proof.
  intros (Ha & Hb & Hbus & Hcalls) Hq HT. unfold i2c_init.
  destruct m as [q sreg armed mem0 sch bs cl0].
  destruct q as [ts0 [la ca] [lb cb] fr bk act pend tn cur [cc cd]].
  simpl_fields in *. subst bs cl0. wp_steps. unfold_inv.
  repeat split; auto; try congruence; lia.
Qed.

End Engine.

End InvariantsKept.
(** ** The buffer swap *)

Section Swap.
Context {cfg : config} {ctx : Type}.

(** C2.  A buffer swap completes only from a state in which the back
    buffer is non-empty and the front buffer is consumed to its end
    (otherwise the assertions of lines 73 and 74 fault), and whenever it
    completes the new front buffer is the buffer that was the back one,
    length and content, read from position 0 with the current command
    loaded from there, and the new back buffer is the old front one with
    length 0.  The two buffer pointers are distinct, as [i2c_init] leaves
    them and every swap keeps them. *)
Theorem switch_buffers_contract (m m' : machine ctx) :
  front_buffer (I2C_QUEUE m) <> back_buffer (I2C_QUEUE m) ->
  i2c_queue_switch_buffers m = Done tt m' ->
  let q := I2C_QUEUE m in
  let q' := I2C_QUEUE m' in
  (0 < buf_length (back q) /\ front_buffer_cursor q = buf_length (front q)) /\
  (front_buffer q' = back_buffer q /\ back_buffer q' = front_buffer q) /\
  front q' = back q /\
  front_buffer_cursor q' = 0 /\
  buf_commands (back q) !! 0%nat = Some (current_command q') /\
  buf_length (back q') = 0 /\
  buf_commands (back q') = buf_commands (front q) /\
  pending_buffer_switch q' = false.
Proof.
  destruct m as [q s a mem sch b cl].
  destruct q as [ts [la ca] [lb cb] fr bk act pend n cur cc].
  cbv zeta. simpl. intros Hne.
  unfold i2c_queue_switch_buffers, read_command. simpl_state.
  destruct fr, bk; try congruence; simpl_state;
    match goal with |- context [0 <? ?x] => destruct (Z.ltb_spec 0 x) end;
    try discriminate;
    match goal with |- context [?x =? ?y] => destruct (Z.eqb_spec x y) end;
    try discriminate;
    change (Z.to_nat 0) with 0%nat; change (0 <? 0) with false; cbv iota;
    match goal with |- context [?l !! 0%nat] =>
      destruct (l !! 0%nat) as [c|] eqn:Hc end;
    try discriminate;
    intros [= Hm]; subst m'; simpl_state; repeat split; auto; try lia.
Qed.

(** The swap does complete from every state that meets its precondition. *)
Lemma switch_buffers_completes (m : machine ctx) (c : i2c_command_t)
    (cs : list i2c_command_t) :
  0 < buf_length (back (I2C_QUEUE m)) ->
  front_buffer_cursor (I2C_QUEUE m) = buf_length (front (I2C_QUEUE m)) ->
  buf_commands (back (I2C_QUEUE m)) = c :: cs ->
  exists m', i2c_queue_switch_buffers m = Done tt m'.
Proof.
  intros Hlen Hcur Hcs. revert Hlen Hcur Hcs.
  destruct m as [q s a mem sch b cl].
  destruct q as [ts [la ca] [lb cb] fr bk act pend n cur cc].
  unfold i2c_queue_switch_buffers, read_command. simpl_state.
  intros Hlen Hcur Hcs.
  apply Z.ltb_lt in Hlen. apply Z.eqb_eq in Hcur.
  destruct fr, bk; simpl_state; rewrite Hlen, Hcur; cbv iota;
    change (Z.to_nat 0) with 0%nat; change (0 <? 0) with false; cbv iota;
    rewrite Hcs; simpl; eauto.
Qed.

End Swap.


(** ** The invariants hold in every reachable state *)

Section Reachable.
Context {cfg : config} {ctx : Type}.

(** The first-in first-out service of the queue, as a property that a
    step of the task queue keeps. *)
Definition fifo_service (ts : list (i2c_task_t ctx))
    (cl : list (task_event ctx)) (mem : ptr -> ctx) : Prop :=
  fifo cl ts.

Lemma fifo_service_kept : kept_by_service fifo_service.
Proof.
  intros t rest cl mem cs c' keep_task H _. unfold fifo_service in *.
  destruct keep_task; [now apply fifo_kept | now apply fifo_completed].
Qed.

Lemma reachable_inv (m : machine ctx) :
  0 <= I2C_QUEUE_SIZE <= 255 -> reachable m -> engine_inv fifo_service m.
Proof.
  intros [Hq0 Hq] Hr. induction Hr as
    [m0 m Hon Hrun | m fuel a cb d m' Hr IH Hrun | m fuel twsr m' Hr IH Hrun
    | m fuel polls m' Hr IH Hrun | m mem sch i Hr IH].
  - pose proof (init_inv fifo_service m0 Hon Hq0) as H.
    specialize (H ltac:(apply fifo_start)).
    apply (wp_Done _ _ _ _ _ _ H Hrun).
  - assert (H : wp (i2c_transmit_async fuel a cb d)
                  (fun _ m' => engine_inv fifo_service m') capacity_kept m).
    { apply transmit_async_inv; auto using fifo_service_kept.
      apply fifo_enqueued, IH. }
    apply (wp_Done _ _ _ _ _ _ H Hrun).
  - pose proof (interrupt_inv fifo_service fifo_service_kept Hq fuel twsr m IH)
      as H.
    apply (wp_Done _ _ _ _ _ _ H Hrun).
  - pose proof (wait_inv fifo_service fifo_service_kept Hq fuel polls m IH)
      as H.
    apply (wp_Done _ _ _ _ _ _ H Hrun).
  - revert IH. unfold engine_inv, buffers_wf, within_capacity, fifo_service.
    simpl_fields. auto.
Qed.

Lemma enqueued_app (evs evs' : list (task_event ctx)) :
  enqueued (evs ++ evs') = enqueued evs ++ enqueued evs'.
Proof.
  induction evs as [|[t|t cs k] evs IH]; simpl; auto. now rewrite IH.
Qed.

Lemma completed_app (evs evs' : list (task_event ctx)) :
  completed (evs ++ evs') = completed evs ++ completed evs'.
Proof.
  induction evs as [|[t|t cs [|]] evs IH]; simpl; auto. now rewrite IH.
Qed.

(** The tasks completed, followed by the tasks still queued, are the
    tasks enqueued: tasks complete in the order they were enqueued. *)
Lemma fifo_order (evs : list (task_event ctx)) (ts : list (i2c_task_t ctx)) :
  fifo evs ts -> completed evs ++ ts = enqueued evs.
Proof.
  induction 1 as [|evs ts t H IH|evs ts t cs H IH|evs ts t cs H IH];
    rewrite ?enqueued_app, ?completed_app; simpl; rewrite ?app_nil_r; auto.
  - now rewrite app_assoc, IH.
  - now rewrite <- IH, <- app_assoc.
Qed.

(** C9.  In every reachable state [tasks_n] is the number of tasks that
    the task ring buffer holds, and these fit the ring buffer: [i2c_init]
    leaves both at 0, [i2c_transmit_async] appends one task and adds one,
    [i2c_queue_switch_tasks] discards one task and subtracts one.  The
    capacity of the queue is one that [tasks_n], a [uint8_t], can count. *)
Theorem tasks_n_counts_tasks (m : machine ctx) :
  0 <= I2C_QUEUE_SIZE <= 255 ->
  reachable m ->
  tasks_n (I2C_QUEUE m) = Z.of_nat (length (tasks (I2C_QUEUE m))) /\
  Z.of_nat (length (tasks (I2C_QUEUE m))) <= I2C_QUEUE_SIZE.
Proof.
  intros Hq Hr. destruct (reachable_inv m Hq Hr) as (_ & Hn & Hfit & _).
  split; assumption.
Qed.

(** C3.  In every reachable state [i2c_is_idle] returns, leaves the
    machine as it is, and its result is true exactly when no task is
    queued ([tasks_n] is 0, and the task ring buffer is empty) and the
    transmitter is not active. *)
Theorem is_idle_correct (m : machine ctx) :
  0 <= I2C_QUEUE_SIZE <= 255 ->
  reachable m ->
  exists idle,
    i2c_is_idle m = Done idle m /\
    (idle = true <->
     tasks_n (I2C_QUEUE m) = 0 /\ transmitter_active (I2C_QUEUE m) = false) /\
    (idle = true <->
     tasks (I2C_QUEUE m) = [] /\ transmitter_active (I2C_QUEUE m) = false).
Proof.
  intros Hq Hr. destruct (reachable_inv m Hq Hr) as (_ & Hn & _).
  exists (negb (transmitter_active (I2C_QUEUE m)) && (tasks_n (I2C_QUEUE m) =? 0)).
  split; [destruct m as [q s a mem sch b cl]; reflexivity|].
  rewrite andb_true_iff, negb_true_iff, Z.eqb_eq. split; [tauto|].
  rewrite Hn. destruct (tasks (I2C_QUEUE m)); simpl; split; intros [H1 H2];
    split; auto; try discriminate; lia.
Qed.

(** C4.  In every reachable state the task events so far are a
    first-in first-out service of the task queue that leaves it holding
    the tasks now queued: every callback invoked was that of the task at
    the head of the queue at that time, the head was removed when, and
    only when, its callback returned false, and so the tasks completed,
    followed by those still queued, are the tasks enqueued, in the order
    they were enqueued. *)
Theorem tasks_served_in_order (m : machine ctx) :
  0 <= I2C_QUEUE_SIZE <= 255 ->
  reachable m ->
  fifo (calls m) (tasks (I2C_QUEUE m)) /\
  completed (calls m) ++ tasks (I2C_QUEUE m) = enqueued (calls m).
Proof.
  intros Hq Hr. destruct (reachable_inv m Hq Hr) as (_ & _ & _ & Hf).
  split; [exact Hf | now apply fifo_order].
Qed.

End Reachable.

(** ** The capacity of the command buffers *)

Section Capacity.
Context {cfg : config} {ctx : Type}.

Lemma within_capacity_back (m : machine ctx) :
  within_capacity m ->
  0 <= buf_length (back (I2C_QUEUE m)) <= I2C_BUFFER_SIZE.
Proof.
  unfold within_capacity, buffer_within_capacity, back, deref.
  destruct (back_buffer (I2C_QUEUE m)); tauto.
Qed.

(** C8.  From a state in which a callback may run (the buffers are
    well-formed and no buffer switch is pending), the calls of a producer
    invocation, interleaved with the interrupt handler in whatever way
    the bus chooses, never access a command array outside its bounds and
    leave both buffers within capacity, the length of the back buffer at
    most [I2C_BUFFER_SIZE], also when the run ends in a fault.  An append
    for which the back buffer has no room is caught by the assertion that
    precedes it: it faults and writes nothing. *)
Theorem back_buffer_within_capacity (fuel : nat) (cs : list producer_call)
    (m : machine ctx) :
  buffers_wf m ->
  pending_buffer_switch (I2C_QUEUE m) = false ->
  match run_calls (TWI_vect fuel) cs m with
  | Done _ m' =>
      within_capacity m' /\
      0 <= buf_length (back (I2C_QUEUE m')) <= I2C_BUFFER_SIZE
  | Faulted _ _ m' =>
      within_capacity m' /\
      0 <= buf_length (back (I2C_QUEUE m')) <= I2C_BUFFER_SIZE
  | OutOfBounds _ => False
  | OutOfFuel => True
  end /\
  (forall b,
     I2C_BUFFER_SIZE < buf_length (back (I2C_QUEUE m)) + 1 ->
     i2c_async_send_byte b m = Faulted FAULT_ASSERTION 309 m) /\
  (forall data n,
     0 < n -> I2C_BUFFER_SIZE < buf_length (back (I2C_QUEUE m)) + n ->
     i2c_async_send_bytes data n m = Faulted FAULT_ASSERTION 331 m).
Proof.
  intros Hwf Hpend. split; [|split].
  - assert (Hp : producing (tasks (I2C_QUEUE m)) (calls m)
                   (tasks_n (I2C_QUEUE m)) (memory m) m)
      by (repeat split; auto; apply Hwf).
    pose proof (run_calls_producing (TWI_vect fuel) _ _ _
                  (fun twsr mem m0 => TWI_vect_producing fuel twsr _ _ _ mem m0)
                  _ cs m Hp) as H.
    unfold wp in H. destruct (run_calls (TWI_vect fuel) cs m); simpl in H; auto.
    + apply producing_capacity in H. auto using within_capacity_back.
    + auto using within_capacity_back.
  - intros b Hfull. unfold i2c_async_send_byte, i2c_produce_command.
    unfold bind, get_queue, assert.
    destruct (Z.leb_spec 1 (I2C_BUFFER_SIZE - buf_length (back (I2C_QUEUE m))));
      [lia | reflexivity].
  - intros data n Hn Hfull. unfold i2c_async_send_bytes.
    unfold bind, get_queue, assert.
    destruct (Z.ltb_spec 0 n); [|lia]. simpl.
    destruct (Z.leb_spec n (I2C_BUFFER_SIZE - buf_length (back (I2C_QUEUE m))));
      [lia | reflexivity].
Qed.

End Capacity.

(** ** The state machine *)

Section StateMachine.
Context {cfg : config} {ctx : Type}.

(** The branch of [i2c_queue_process_command] for the pending sentinel. *)
Lemma process_command_pending_branch (fuel : nat) (m : machine ctx) :
  let q := I2C_QUEUE m in
  SREG_I m = false ->
  transmitter_active q = true ->
  0 < buf_length (front q) ->
  front_buffer_cursor q <= buf_length (front q) ->
  cmd_code (current_command q) = I2C_COMMAND_PENDING ->
  i2c_queue_process_command (S fuel) m =
  (if pending_buffer_switch q then
     i2c_queue_switch_buffers ;;
     i2c_queue_process_command fuel ;;
     q' <- get_queue ;;
     if 0 <? tasks_n q' then i2c_queue_fetch_commands fuel else ret tt
   else
     i2c_hw_disable_int ;;
     modify_queue (set_transmitter_active false)) m.
Proof.
  intros q Hi Hact Hlen Hcur Hcode. subst q.
  rewrite process_command_S. unfold process_command_body.
  unfold bind at 1. unfold assert_interrupts_disabled, bind at 1, get at 1.
  rewrite Hi. simpl negb. unfold assert at 1, ret at 1.
  unfold bind at 1, get_queue at 1. unfold bind at 1.
  rewrite Hact. unfold assert at 1, ret at 1. unfold bind at 1.
  apply Z.ltb_lt in Hlen. rewrite Hlen. unfold assert at 1, ret at 1.
  unfold bind at 1. apply Z.leb_le in Hcur. rewrite Hcur.
  unfold assert at 1, ret at 1. cbv zeta. rewrite Hcode.
  reflexivity.
Qed.

(** C5.  A step of the state machine that finds the pending sentinel as
    current command (and passes the assertions at its entry: interrupts
    disabled, transmitter active, front buffer non-empty and cursor within
    it).  With a buffer switch pending it switches the buffers, which
    reloads the current command, processes that command at once, and
    then fetches commands if tasks are queued.  With none pending it
    disables the interrupt source of the bus and clears the
    transmitter-active flag, and changes nothing else. *)
Theorem process_command_pending (fuel : nat) (m : machine ctx) :
  let q := I2C_QUEUE m in
  SREG_I m = false ->
  transmitter_active q = true ->
  0 < buf_length (front q) ->
  front_buffer_cursor q <= buf_length (front q) ->
  cmd_code (current_command q) = I2C_COMMAND_PENDING ->
  (pending_buffer_switch q = true ->
   i2c_queue_process_command (S fuel) m =
   (i2c_queue_switch_buffers ;;
    i2c_queue_process_command fuel ;;
    q' <- get_queue ;;
    if 0 <? tasks_n q' then i2c_queue_fetch_commands fuel else ret tt) m) /\
  (pending_buffer_switch q = false ->
   i2c_queue_process_command (S fuel) m =
   Done tt
     (set_I2C_QUEUE (set_transmitter_active false q)
        (set_TWI_armed false (set_bus (bus m ++ [hw_disable_int]) m)))).
Proof.
  intros q Hi Hact Hlen Hcur Hcode.
  rewrite (process_command_pending_branch fuel m Hi Hact Hlen Hcur Hcode).
  subst q. split; intros ->; reflexivity.
Qed.

(** The interrupt handler faults on a status above [TW_MT_DATA_ACK] and
    on [TW_MT_SLA_NACK], with the status as the code of the fault and the
    machine as it found it. *)
Lemma TWI_vect_faults (fuel : nat) (twsr : Z) (m : machine ctx) :
  let i2c_status := Z.land twsr TW_STATUS_MASK in
  TW_MT_DATA_ACK < i2c_status \/ i2c_status = TW_MT_SLA_NACK ->
  TWI_vect fuel twsr m = Faulted FAULT_I2C i2c_status m.
Proof.
  intros st H. subst st. unfold TWI_vect, TWI_vect_body. unfold bind at 1.
  replace ((TW_MT_DATA_ACK <? Z.land twsr TW_STATUS_MASK)
           || (Z.land twsr TW_STATUS_MASK =? TW_MT_SLA_NACK)) with true.
  - reflexivity.
  - symmetry. apply orb_true_iff. rewrite Z.ltb_lt, Z.eqb_eq. exact H.
Qed.

(** On every other status it goes on to process the next command. *)
Lemma TWI_vect_proceeds (fuel : nat) (twsr : Z) (m : machine ctx) :
  let i2c_status := Z.land twsr TW_STATUS_MASK in
  i2c_status <= TW_MT_DATA_ACK -> i2c_status <> TW_MT_SLA_NACK ->
  TWI_vect fuel twsr m = i2c_queue_process_command fuel m.
Proof.
  intros st H1 H2. subst st. unfold TWI_vect, TWI_vect_body. unfold bind at 1.
  replace ((TW_MT_DATA_ACK <? Z.land twsr TW_STATUS_MASK)
           || (Z.land twsr TW_STATUS_MASK =? TW_MT_SLA_NACK)) with false.
  - reflexivity.
  - symmetry. apply orb_false_iff. rewrite Z.ltb_ge, Z.eqb_neq. auto.
Qed.

End StateMachine.

(** * Further properties of the engine *)

(** ** Memory safety *)

Section Safety.
Context {cfg : config} {ctx : Type}.

(** A run that accesses no array outside its bounds, and that leaves the
    buffers within capacity if it faults. *)
Definition safe {A} (c : M ctx A) (m : machine ctx) : Prop :=
  (forall m', c m <> OutOfBounds m') /\
  (forall category code m',
     c m = Faulted category code m' -> within_capacity m').

Lemma wp_safe {A} (c : M ctx A) Q (m : machine ctx) :
  wp c Q capacity_kept m -> safe c m.
Proof.
  unfold wp, safe. intros H. split.
  - intros m' E. rewrite E in H. exact H.
  - intros category code m' E. rewrite E in H. exact H.
Qed.

(** X1.  From every reachable state, whatever the callbacks queued do
    and whenever the interrupts arrive, enqueuing a task, serving a TWI
    interrupt and waiting for the engine access no command array and no
    task slot outside its bounds; if one of them faults, the command
    buffers are within their capacity still. *)
Theorem engine_memory_safe (m : machine ctx) (fuel polls : nat)
    (address twsr : Z) (callback : i2c_callback_t ctx) (data : ptr) :
  0 <= I2C_QUEUE_SIZE <= 255 ->
  reachable m ->
  safe (i2c_transmit_async fuel address callback data) m /\
  safe (interrupt (TWI_vect fuel) twsr) m /\
  safe (i2c_wait fuel polls) m.
Proof.
  intros Hq Hr. pose proof (reachable_inv m Hq Hr) as Hinv.
  destruct Hq as [Hq0 Hq]. split; [|split].
  - eapply wp_safe, transmit_async_inv; eauto using fifo_service_kept.
    apply fifo_enqueued, Hinv.
  - eapply wp_safe, interrupt_inv; eauto using fifo_service_kept.
  - eapply wp_safe, wait_inv; eauto using fifo_service_kept.
Qed.

End Safety.

(** ** The bus gets what the callbacks produce *)

(** A [uint8_t] that does not wrap around. *)
Ltac no_wrap :=
  repeat match goal with
  | |- context [u8 ?x] => replace (u8 x) with x in * by arith
  | H : context [u8 ?x] |- _ => replace (u8 x) with x in * by arith
  end.

Section Wire.
Context {cfg : config} {ctx : Type}.

(** [loaded P m]: the commands [P] are those handed to the state
    machine so far; it has sent some of them, in their order, and the
    others are the commands of the front buffer from the cursor on, the
    current command being the one at the cursor. *)
Definition loaded (P : list i2c_command_t) (m : machine ctx) : Prop :=
  let q := I2C_QUEUE m in
  front_buffer q <> back_buffer q /\
  0 <= front_buffer_cursor q <= buf_length (front q) /\
  buf_length (front q) <= 255 /\
  0 <= buf_length (back q) <= 255 /\
  (front_buffer_cursor q < buf_length (front q) ->
   buf_commands (front q) !! Z.to_nat (front_buffer_cursor q)
     = Some (current_command q)) /\
  (front_buffer_cursor q = buf_length (front q) ->
   cmd_code (current_command q) = I2C_COMMAND_PENDING) /\
  Forall producible P /\
  exists S, P = S ++ unsent q /\ map hw_of S = wire (bus m).

(** [handed P m]: moreover, the transmitter is active for as long as
    commands are left in the front buffer or a buffer switch is
    pending. *)
Definition handed (P : list i2c_command_t) (m : machine ctx) : Prop :=
  let q := I2C_QUEUE m in
  loaded P m /\
  (front_buffer_cursor q < buf_length (front q) ->
   transmitter_active q = true) /\
  (pending_buffer_switch q = true -> transmitter_active q = true).

(** [queued P m]: the same without the current command, as it is while
    the state machine moves from one command to the next. *)
Definition queued (P : list i2c_command_t) (m : machine ctx) : Prop :=
  let q := I2C_QUEUE m in
  front_buffer q <> back_buffer q /\
  0 <= front_buffer_cursor q <= buf_length (front q) /\
  buf_length (front q) <= 255 /\
  0 <= buf_length (back q) <= 255 /\
  Forall producible P /\
  exists S, P = S ++ unsent q /\ map hw_of S = wire (bus m).

(** What the interrupt handler leaves as it is while no buffer switch is
    pending: the two buffers and which of them is in front, the task
    queue, the task events and the memory of the callbacks. *)
Definition handler_frame (m m' : machine ctx) : Prop :=
  let q := I2C_QUEUE m in
  let q' := I2C_QUEUE m' in
  tasks q' = tasks q /\ tasks_n q' = tasks_n q /\
  buffer_a q' = buffer_a q /\ buffer_b q' = buffer_b q /\
  front_buffer q' = front_buffer q /\ back_buffer q' = back_buffer q /\
  pending_buffer_switch q' = false /\
  calls m' = calls m /\ memory m' = memory m /\ schedule m' = schedule m.

(** Any failure is allowed: the property is one of the runs that
    complete. *)
Definition any : failure ctx -> Prop := fun _ => True.

Lemma wire_app bs h :
  wire (bs ++ [h]) = wire bs ++ (if on_wire h then [h] else []).
Proof. unfold wire. rewrite List.filter_app. simpl. now destruct (on_wire h). Qed.

Lemma unsent_next (cmds : list i2c_command_t) (len cur : Z) c :
  0 <= cur < len -> cmds !! Z.to_nat cur = Some c ->
  drop (Z.to_nat cur) (take (Z.to_nat len) cmds)
  = c :: drop (Z.to_nat (cur + 1)) (take (Z.to_nat len) cmds).
Proof.
  intros Hc Hl. replace (Z.to_nat (cur + 1)) with (S (Z.to_nat cur)) by lia.
  apply drop_S. rewrite lookup_take_lt by lia. exact Hl.
Qed.

Lemma unsent_end (cmds : list i2c_command_t) (len : Z) :
  drop (Z.to_nat len) (take (Z.to_nat len) cmds) = [].
Proof. apply drop_ge. rewrite length_take. lia. Qed.

Lemma sent_next (P S U : list i2c_command_t) c W h :
  P = S ++ c :: U -> map hw_of S = W -> hw_of c = h ->
  exists S', P = S' ++ U /\ map hw_of S' = W ++ [h].
Proof.
  intros -> <- <-. exists (S ++ [c]). rewrite <- app_assoc, map_app. auto.
Qed.

Lemma producible_next (P S U : list i2c_command_t) c :
  Forall producible P -> P = S ++ c :: U -> producible c.
Proof.
  intros H ->. apply Forall_app in H as [_ H]. now inversion H.
Qed.

Lemma wp_any_read_command (b : i2c_command_buffer_t) i Q (m : machine ctx) :
  (forall c, 0 <= i -> buf_commands b !! Z.to_nat i = Some c -> Q c m) ->
  wp (read_command b i) Q any m.
Proof.
  intros HQ. unfold read_command.
  destruct (Z.ltb_spec i 0); [exact I|].
  destruct (buf_commands b !! Z.to_nat i) as [c|] eqn:E; [|exact I].
  apply wp_ret. auto.
Qed.

Ltac cursor_inside :=
  match goal with
  | Hend : ?cur = ?la -> ?cc = I2C_COMMAND_PENDING,
    Hat : ?cur < ?la -> _ !! _ = _ |- _ =>
      assert (cur < la)
        by (destruct (Z.eq_dec cur la) as [E|E];
            [specialize (Hend E); arith | lia]);
      specialize (Hat ltac:(assumption))
  end.

Ltac cursor_at_end :=
  match goal with
  | Hcode : ?cc = I2C_COMMAND_PENDING,
    Hat : ?cur < ?len -> ?cmds !! _ = Some ?c,
    HP : ?P = _ ++ _, Hprod : Forall producible ?P |- _ =>
      assert (cur = len)
        by (destruct (Z.eq_dec cur len) as [E|E]; [exact E|];
            specialize (Hat ltac:(lia));
            rewrite (unsent_next cmds len cur c ltac:(lia) Hat) in HP;
            destruct (producible_next _ _ _ _ Hprod HP) as [Hc|[Hc|Hc]];
            simpl in Hc; rewrite Hc in Hcode; discriminate);
      clear Hat
  end.

(** While no buffer switch is pending the state machine sends the
    command at the cursor and moves the cursor: it neither switches
    buffers nor fetches commands. *)
Lemma process_command_handed fuel P (m : machine ctx) :
  handed P m -> pending_buffer_switch (I2C_QUEUE m) = false ->
  wp (i2c_queue_process_command fuel)
    (fun _ m' => handed P m' /\ handler_frame m m') any m.
Proof.
  intros H Hp. destruct fuel as [|fuel]; [exact I|].
  rewrite process_command_S.
  unfold process_command_body, process_command_advance.
  unfold handed, loaded, handler_frame, unsent, filled in *.
  destruct_machine m; simpl_fields in *;
    destruct H as ((Hne & Hcur & Hlen & Hback & Hat & Hend & Hprod & S & HP & HS)
                   & Hact & Hpa);
    try congruence; subst pend.
  all: wp_steps; try exact I.
  all: try (apply wp_any_read_command; intros c Hi Hc; wp_steps; try exact I).
  all: bool_to_prop.
  all: try cursor_at_end.
  all: try cursor_inside.
  all: no_wrap.
  all: try match goal with
       | Hat : ?cmds !! Z.to_nat ?cur = Some ?c,
         HP : _ = _ ++ drop (Z.to_nat ?cur) (take (Z.to_nat ?len) ?cmds),
         HS : map hw_of _ = _ |- _ =>
           rewrite (unsent_next cmds len cur c ltac:(lia) Hat) in HP;
           pose proof (producible_next _ _ _ _ Hprod HP) as Hcode;
           destruct (sent_next _ _ _ _ _ _ HP HS eq_refl) as (S' & HP' & HS')
       end.
  all: rewrite ?wire_app; simpl on_wire; rewrite ?app_nil_r.
  all: repeat split; auto; try lia; try congruence; try arith.
  all: try (exists S'; split; [exact HP'|]; rewrite HS'; subst; reflexivity).
  all: try (exists S; split; [|assumption]; subst; auto).
Qed.



Lemma TWI_vect_handed fuel twsr P (m : machine ctx) :
  handed P m -> pending_buffer_switch (I2C_QUEUE m) = false ->
  wp (TWI_vect_body (i2c_queue_process_command fuel) twsr)
    (fun _ m' => handed P m' /\ handler_frame m m') any m.
Proof.
  intros H Hp. unfold TWI_vect_body. wp_step. wp_step.
  - wp_step. exact I.
  - wp_step. now apply process_command_handed.
Qed.

(** Raising interrupts keeps what the handler keeps, when that depends
    on the queue, the task events and the bus only. *)
Section Raised.
Variable handler : Z -> M ctx unit.
Variable J : machine ctx -> Prop.
Hypothesis J_frame : forall m m',
  I2C_QUEUE m' = I2C_QUEUE m -> calls m' = calls m -> bus m' = bus m ->
  J m -> J m'.
Hypothesis handler_keeps : forall twsr m,
  J m -> wp (handler twsr) (fun _ m' => J m') any m.

Lemma interrupt_raised twsr (m : machine ctx) :
  J m -> wp (interrupt handler twsr) (fun _ m' => J m') any m.
Proof.
  intros H. unfold interrupt. wp_step. wp_step. wp_step; [|wp_step; exact H].
  wp_step. wp_step. wp_step.
  eapply wp_conseq.
  - apply handler_keeps. revert H. now apply J_frame.
  - intros [] m' H'. wp_step. revert H'. now apply J_frame.
Qed.

Lemma interrupts_raised twsrs (m : machine ctx) :
  J m -> wp (interrupts handler twsrs) (fun _ m' => J m') any m.
Proof.
  revert m. induction twsrs as [|twsr rest IH]; intros m H; simpl.
  - wp_step. exact H.
  - wp_step. eapply wp_conseq; [now apply interrupt_raised|].
    intros [] m' H'. now apply IH.
Qed.

Lemma preempt_raised (m : machine ctx) :
  J m -> wp (preempt handler) (fun _ m' => J m') any m.
Proof.
  intros H. unfold preempt. wp_step. wp_step.
  destruct (schedule m) as [|twsrs rest] eqn:E.
  - wp_step. exact H.
  - wp_step. wp_step. apply interrupts_raised.
    revert H. now apply J_frame.
Qed.

End Raised.

(** *** While a callback fills the back buffer *)

(** [filling P t rest cl k done m]: while the callback of the task [t]
    at the head of the queue runs, the first [length + k] commands of the
    back buffer are [done]. *)
Definition filling (P : list i2c_command_t) (ts : list (i2c_task_t ctx))
    (cl : list (task_event ctx)) (k : Z) (done : list i2c_command_t)
    (m : machine ctx) : Prop :=
  let q := I2C_QUEUE m in
  handed P m /\
  pending_buffer_switch q = false /\
  tasks q = ts /\ calls m = cl /\
  take (Z.to_nat (buf_length (back q) + k)) (buf_commands (back q)) = done.

Lemma filled_write (cmds : list i2c_command_t) (i : Z) c c' :
  0 <= i -> cmds !! Z.to_nat i = Some c' ->
  take (Z.to_nat (i + 1)) (<[Z.to_nat i := c]> cmds)
  = take (Z.to_nat i) cmds ++ [c].
Proof.
  intros Hi Hl. replace (Z.to_nat (i + 1)) with (S (Z.to_nat i)) by lia.
  apply lookup_lt_Some in Hl.
  rewrite (take_S_r _ _ c) by now apply list_lookup_insert_eq.
  now rewrite take_insert_ge by lia.
Qed.

Lemma wp_any_write_back_command i c Q (m : machine ctx) :
  (forall c', 0 <= i ->
     buf_commands (back (I2C_QUEUE m)) !! Z.to_nat i = Some c' ->
     Q tt (set_I2C_QUEUE
             (assign (back_buffer (I2C_QUEUE m))
                (mk_buffer (buf_length (back (I2C_QUEUE m)))
                   (<[Z.to_nat i := c]> (buf_commands (back (I2C_QUEUE m)))))
                (I2C_QUEUE m)) m)) ->
  wp (write_back_command i c) Q any m.
Proof.
  intros HQ. unfold write_back_command. wp_step. wp_step.
  destruct (Z.ltb_spec i 0); [exact I|].
  destruct (buf_commands (back (I2C_QUEUE m)) !! Z.to_nat i) as [c'|] eqn:E;
    [|exact I].
  wp_step. eauto.
Qed.

Section Filling.
Hypothesis buffer_fits : I2C_BUFFER_SIZE <= 255.

Lemma produce_command_filling code data P ts cl done (m : machine ctx) :
  filling P ts cl 0 done m ->
  wp (i2c_produce_command code data)
    (fun _ m' => filling P ts cl 0 (done ++ [mk_command code data]) m')
    any m.
Proof.
  intros H. unfold i2c_produce_command.
  unfold filling, handed, loaded, unsent, filled in *.
  destruct_machine m; simpl_fields in *;
    destruct H as
      (((Hne & Hcur & Hlen & Hback & Hat & Hend & Hprod & S & HP & HS)
        & Hact & Hpa) & Hp & Hts & Hcl & Hdone);
    try congruence.
  all: wp_steps; try exact I.
  all: apply wp_any_write_back_command; simpl_fields; intros c' Hi Hc'.
  all: wp_steps; bool_to_prop.
  all: no_wrap.
  all: rewrite ?Z.add_0_r in *.
  all: rewrite (filled_write _ _ _ _ Hi Hc'), Hdone.
  all: repeat split; auto; try lia; eauto.
Qed.

Lemma send_bytes_loop_filling data base P ts cl count :
  forall i done (m : machine ctx),
  filling P ts cl i done m -> 0 <= i ->
  base = buf_length (back (I2C_QUEUE m)) ->
  wp (send_bytes_loop base data i count)
    (fun _ m' =>
       filling P ts cl (i + Z.of_nat count)
         (done ++ map (fun j => mk_command I2C_COMMAND_SEND_DATA (nth j data 0))
                    (seq (Z.to_nat i) count)) m' /\
       buf_length (back (I2C_QUEUE m')) = base)
    any m.
Proof.
  induction count as [|count IH]; intros i done m H Hi Hbase; simpl.
  - wp_step. rewrite Z.add_0_r, app_nil_r. auto.
  - wp_step. subst base. apply wp_any_write_back_command. intros c' Hb Hc'.
    eapply wp_conseq.
    + apply (IH (i + 1) (done ++ [mk_command I2C_COMMAND_SEND_DATA
                                    (nth (Z.to_nat i) data 0)])); [|lia|].
      * unfold filling, handed, loaded, unsent, filled in *.
        destruct_machine m; simpl_fields in *;
          destruct H as
            (((Hne & Hcur & Hlen & Hback & Hat & Hend & Hprod & S & HP & HS)
              & Hact & Hpa) & Hp & Hts & Hcl & Hdone);
          try congruence.
        all: rewrite (Z.add_assoc _ i 1), (filled_write _ _ _ _ Hb Hc'), Hdone.
        all: repeat split; auto; try lia; eauto.
      * destruct_machine m; reflexivity.
    + simpl_fields. intros [] m' [H' Hlen'].
      replace (Z.to_nat (i + 1)) with (S (Z.to_nat i)) in H' by lia.
      rewrite <- app_assoc in H'. simpl in H'.
      replace (i + 1 + Z.of_nat count) with (i + Z.pos (Pos.of_succ_nat count))
        in H' by lia.
      split; [exact H'|exact Hlen'].
Qed.

Lemma send_bytes_filling data n address P ts cl done (m : machine ctx) :
  filling P ts cl 0 done m ->
  wp (i2c_async_send_bytes data n)
    (fun _ m' =>
       filling P ts cl 0 (done ++ commands_of address (call_send_bytes data n)) m')
    any m.
Proof.
  intros H. unfold i2c_async_send_bytes. wp_run; try exact I. bool_to_prop.
  eapply wp_conseq.
  { apply (send_bytes_loop_filling data _ P ts cl (Z.to_nat n) 0 done m H);
      [lia|reflexivity]. }
  intros [] m1 [Hm1 Hlen1]. simpl. rewrite Z2Nat.id in Hm1 by lia.
  rewrite <- Hlen1 in *. clear H Hlen1.
  unfold filling, handed, loaded, unsent, filled in *.
  destruct_machine m1; simpl_fields in *;
    destruct Hm1 as
      (((Hne & Hcur & Hlen & Hback & Hat & Hend & Hprod & S & HP & HS)
        & Hact & Hpa) & Hp & Hts & Hcl & Hdone);
    try congruence.
  all: wp_steps; try exact I; no_wrap.
  all: rewrite Z.add_0_l in Hdone; rewrite Z.add_0_r, Hdone.
  all: repeat split; auto; try lia; eauto.
Qed.

Lemma send_start_filling P t rest cl done (m : machine ctx) :
  filling P (t :: rest) cl 0 done m ->
  wp i2c_async_send_start
    (fun _ m' =>
       filling P (t :: rest) cl 0
         (done ++ commands_of (address t) call_send_start) m')
    any m.
Proof.
  intros H. unfold i2c_async_send_start. wp_run; try exact I.
  unfold ring_buffer_get_first. wp_run.
  assert (Ht : tasks (I2C_QUEUE m) = t :: rest) by apply H. rewrite Ht.
  wp_run.
  eapply wp_conseq; [exact (produce_command_filling _ _ _ _ _ _ m H)|].
  intros [] m1 Hm1. wp_run; try exact I.
  eapply wp_conseq; [exact (produce_command_filling _ _ _ _ _ _ m1 Hm1)|].
  intros [] m2 Hm2. simpl. now rewrite <- app_assoc in Hm2.
Qed.

Lemma producer_filling c P t rest cl done (m : machine ctx) :
  filling P (t :: rest) cl 0 done m ->
  wp (producer c)
    (fun _ m' =>
       filling P (t :: rest) cl 0 (done ++ commands_of (address t) c) m')
    any m.
Proof.
  intros H. destruct c; simpl producer.
  - now apply produce_command_filling.
  - now apply send_bytes_filling.
  - now apply send_start_filling.
  - now apply produce_command_filling.
Qed.

Lemma filling_frame P ts cl k done (m m' : machine ctx) :
  I2C_QUEUE m' = I2C_QUEUE m -> calls m' = calls m -> bus m' = bus m ->
  filling P ts cl k done m -> filling P ts cl k done m'.
Proof. unfold filling, handed, loaded. intros -> -> ->. auto. Qed.

Lemma handler_frame_back (m m' : machine ctx) :
  handler_frame m m' -> back (I2C_QUEUE m') = back (I2C_QUEUE m).
Proof.
  intros (_ & _ & Ha & Hb & _ & Hbk & _). unfold back, deref.
  now rewrite Ha, Hb, Hbk.
Qed.

Lemma handler_filling fuel twsr P ts cl done (m : machine ctx) :
  filling P ts cl 0 done m ->
  wp (TWI_vect_body (i2c_queue_process_command fuel) twsr)
    (fun _ m' => filling P ts cl 0 done m') any m.
Proof.
  intros (H & Hp & Hts & Hcl & Hdone).
  eapply wp_conseq; [apply TWI_vect_handed; eauto|].
  intros [] m' (H' & Hf). pose proof (handler_frame_back _ _ Hf) as Hbk.
  destruct Hf as (Ht' & _ & _ & _ & _ & _ & Hp' & Hc' & _).
  unfold filling. rewrite Hbk, Ht', Hc'. auto.
Qed.

Lemma preempt_filling fuel P ts cl done (m : machine ctx) :
  filling P ts cl 0 done m ->
  wp (preempt (TWI_vect_body (i2c_queue_process_command fuel)))
    (fun _ m' => filling P ts cl 0 done m') any m.
Proof.
  apply preempt_raised.
  - intros m1 m2. apply filling_frame.
  - intros twsr m1. apply handler_filling.
Qed.

Lemma run_calls_filling fuel cs P t rest cl : forall done (m : machine ctx),
  filling P (t :: rest) cl 0 done m ->
  wp (run_calls (TWI_vect_body (i2c_queue_process_command fuel)) cs)
    (fun _ m' =>
       filling P (t :: rest) cl 0
         (done ++ concat (map (commands_of (address t)) cs)) m')
    any m.
Proof.
  induction cs as [|c cs IH]; intros done m H; simpl.
  - wp_step. now rewrite app_nil_r.
  - wp_step. eapply wp_conseq; [exact (preempt_filling _ _ _ _ _ m H)|].
    intros [] m1 Hm1. wp_step.
    eapply wp_conseq; [exact (producer_filling c _ _ _ _ _ m1 Hm1)|].
    intros [] m2 Hm2. rewrite app_assoc. now apply IH.
Qed.

(** After a callback: the back buffer holds what it produced. *)
Definition filled_by (P : list i2c_command_t) (cl : list (task_event ctx))
    (done : list i2c_command_t) (m : machine ctx) : Prop :=
  handed P m /\
  pending_buffer_switch (I2C_QUEUE m) = false /\
  calls m = cl /\
  filled (back (I2C_QUEUE m)) = done.

Lemma call_task_filling fuel P t rest cl (m : machine ctx) :
  filling P (t :: rest) cl 0 [] m ->
  wp (call_task (TWI_vect_body (i2c_queue_process_command fuel)) t)
    (fun keep_task m' =>
       exists cs,
         filled_by P (cl ++ [task_called t cs keep_task])
           (concat (map (commands_of (address t)) cs)) m')
    any m.
Proof.
  intros H. unfold call_task. wp_steps.
  destruct (callback t (memory m (task_data t))) as [[cs c'] keep_task].
  wp_step. eapply wp_conseq.
  { apply (run_calls_filling fuel cs P t rest cl [] (set_SREG_I true m)).
    revert H. now apply filling_frame. }
  intros [] m1 Hm1. wp_steps.
  eapply wp_conseq.
  { apply (preempt_filling fuel P (t :: rest) cl
             (concat (map (commands_of (address t)) cs))).
    revert Hm1. now apply filling_frame. }
  intros [] m2 Hm2. wp_steps. exists cs.
  destruct Hm2 as (Hh & Hp & Ht & Hc & Hd).
  unfold filled_by, filled, handed, loaded in *. simpl_fields.
  rewrite Z.add_0_r in Hd. rewrite Hc. auto.
Qed.

(** *** The buffer switch *)

Lemma producible_commands_of address c :
  Forall producible (commands_of address c).
Proof.
  unfold producible. destruct c; simpl.
  - constructor; simpl; auto.
  - apply Forall_map, Forall_forall. intros; simpl; auto.
  - constructor; [|constructor]; simpl; auto.
  - constructor; simpl; auto.
Qed.

Lemma producible_calls address cs :
  Forall producible (concat (map (commands_of address) cs)).
Proof.
  induction cs; simpl; [constructor|].
  apply Forall_app; auto using producible_commands_of.
Qed.

Lemma producible_produced (evs : list (task_event ctx)) :
  Forall producible (produced evs).
Proof.
  induction evs as [|[t|t cs k] evs IH]; simpl; auto.
  apply Forall_app; auto using producible_calls.
Qed.

Lemma produced_app (evs evs' : list (task_event ctx)) :
  produced (evs ++ evs') = produced evs ++ produced evs'.
Proof.
  induction evs as [|[t|t cs k] evs IH]; simpl; auto.
  now rewrite IH, app_assoc.
Qed.

(** The switch hands the commands of the back buffer to the state
    machine. *)
Lemma loaded_queued P (m : machine ctx) : loaded P m -> queued P m.
Proof. unfold loaded, queued. tauto. Qed.

Lemma switch_buffers_loaded P (m : machine ctx) :
  queued P m -> Forall producible (filled (back (I2C_QUEUE m))) ->
  wp i2c_queue_switch_buffers
    (fun _ m' =>
       loaded (P ++ filled (back (I2C_QUEUE m))) m' /\
       pending_buffer_switch (I2C_QUEUE m') = false /\
       buf_length (back (I2C_QUEUE m')) = 0 /\
       front_buffer_cursor (I2C_QUEUE m') < buf_length (front (I2C_QUEUE m')) /\
       tasks (I2C_QUEUE m') = tasks (I2C_QUEUE m) /\
       tasks_n (I2C_QUEUE m') = tasks_n (I2C_QUEUE m) /\
       transmitter_active (I2C_QUEUE m') = transmitter_active (I2C_QUEUE m) /\
       calls m' = calls m)
    any m.
Proof.
  intros H Hback. unfold i2c_queue_switch_buffers.
  unfold loaded, queued, unsent, filled in *.
  destruct_machine m; simpl_fields in *;
    destruct H as (Hne & Hcur & Hlen & Hb & Hprod & S & HP & HS);
    try congruence.
  all: wp_steps; try exact I.
  all: apply wp_any_read_command; simpl_fields; intros c _ Hc.
  all: wp_steps; bool_to_prop; subst cur.
  all: rewrite unsent_end, app_nil_r in HP; subst P.
  all: repeat split; auto; try lia; try congruence.
  all: try (apply Forall_app; auto).
  all: exists S; auto.
Qed.

Lemma start_transmitter_handed fuel P (m : machine ctx) :
  loaded P m -> pending_buffer_switch (I2C_QUEUE m) = false ->
  wp (i2c_queue_start_transmitter (i2c_queue_process_command fuel))
    (fun _ m' => handed P m' /\ handler_frame m m') any m.
Proof.
  intros H Hp. unfold i2c_queue_start_transmitter. wp_run; try exact I.
  eapply wp_conseq.
  { apply (process_command_handed fuel P).
    - revert H. unfold handed, loaded, unsent, filled.
      destruct_machine m; simpl_fields; tauto.
    - destruct_machine m; exact Hp. }
  intros [] m' [H' Hf]. split; [exact H'|].
  revert Hf. unfold handler_frame. destruct_machine m; simpl_fields; tauto.
Qed.

Lemma switch_tasks_filled_by P cl done (m : machine ctx) :
  filled_by P cl done m ->
  wp i2c_queue_switch_tasks (fun _ m' => filled_by P cl done m') any m.
Proof.
  intros H. unfold i2c_queue_switch_tasks. wp_steps; try exact I.
  revert H. unfold filled_by, handed, loaded, unsent, filled.
  destruct_machine m; simpl_fields; tauto.
Qed.

(** *** Between two operations *)

(** [wired m]: what the callbacks have produced so far is what the state
    machine was handed, followed by the commands of the back buffer,
    which is empty unless a buffer switch is pending. *)
Definition wired (m : machine ctx) : Prop :=
  exists P,
    handed P m /\
    P ++ filled (back (I2C_QUEUE m)) = produced (calls m) /\
    (pending_buffer_switch (I2C_QUEUE m) = false ->
     buf_length (back (I2C_QUEUE m)) = 0).

Lemma wired_frame (m m' : machine ctx) :
  I2C_QUEUE m' = I2C_QUEUE m -> calls m' = calls m -> bus m' = bus m ->
  wired m -> wired m'.
Proof. unfold wired, handed, loaded. intros -> -> ->. auto. Qed.

Lemma filled_empty (b : i2c_command_buffer_t) :
  buf_length b = 0 -> filled b = [].
Proof. unfold filled. now intros ->. Qed.

Lemma fetch_commands_loop_wired fuel : forall (m : machine ctx),
  handed (produced (calls m)) m ->
  pending_buffer_switch (I2C_QUEUE m) = false ->
  buf_length (back (I2C_QUEUE m)) = 0 ->
  wp (i2c_queue_fetch_commands_loop fuel) (fun _ m' => wired m') any m.
Proof.
  induction fuel as [|fuel IH]; intros m H Hp Hb; [exact I|].
  rewrite fetch_commands_loop_S. unfold fetch_commands_turn.
  wp_step. wp_step. wp_step.
  { wp_step. exists (produced (calls m)).
    rewrite (filled_empty _ Hb), app_nil_r. auto. }
  wp_step. unfold ring_buffer_get_first. wp_step. wp_step.
  destruct (tasks (I2C_QUEUE m)) as [|t rest] eqn:Ets; [exact I|].
  wp_run; try exact I.
  eapply wp_conseq.
  { apply (call_task_filling fuel (produced (calls m)) t rest (calls m)).
    unfold filling. rewrite Hb. auto. }
  intros keep_task m1 (cs & Hm1). wp_run; try exact I.
  eapply wp_conseq with
    (Q := fun _ m' =>
            filled_by (produced (calls m))
              (calls m ++ [task_called t cs keep_task])
              (concat (map (commands_of (address t)) cs)) m').
  { destruct keep_task; cbn [negb].
    - wp_step. exact Hm1.
    - now apply switch_tasks_filled_by. }
  intros [] m2 (Hh2 & Hp2 & Hc2 & Hd2). wp_run. wp_step.
  - (* the transmitter is not active: switch and start it again *)
    wp_step. eapply wp_conseq.
    { apply (switch_buffers_loaded (produced (calls m)));
        [apply loaded_queued, Hh2|].
      rewrite Hd2. apply producible_calls. }
    intros [] m3 (Hl3 & Hp3 & Hb3 & _ & _ & _ & _ & Hc3). wp_step.
    eapply wp_conseq; [now apply (start_transmitter_handed fuel _ m3 Hl3)|].
    intros [] m4 (Hh4 & Hf4). pose proof (handler_frame_back _ _ Hf4) as Hbk.
    destruct Hf4 as (_ & _ & _ & _ & _ & _ & Hp4 & Hc4 & _).
    apply IH; [|exact Hp4|now rewrite Hbk].
    rewrite Hc4, Hc3, Hc2, produced_app. simpl. rewrite app_nil_r.
    now rewrite Hd2 in Hh4.
  - (* the transmitter is active: it will switch *)
    wp_step. exists (produced (calls m)). bool_to_prop.
    revert Hh2 Hp2 Hc2 Hd2 Heqb0. unfold handed, loaded, unsent, filled.
    destruct_machine m2; simpl_fields; intros Hh2 Hp2 Hc2 Hd2 Hact.
    all: rewrite Hc2, Hd2, produced_app; simpl; rewrite app_nil_r.
    all: repeat split; try tauto; try congruence.
Qed.

Lemma fetch_commands_wired fuel (m : machine ctx) :
  handed (produced (calls m)) m ->
  buf_length (back (I2C_QUEUE m)) = 0 ->
  wp (i2c_queue_fetch_commands fuel) (fun _ m' => wired m') any m.
Proof.
  intros H Hb. destruct fuel as [|fuel]; [exact I|].
  rewrite fetch_commands_S. unfold fetch_commands_body.
  wp_run; try exact I. bool_to_prop. now apply fetch_commands_loop_wired.
Qed.

(** After a buffer switch made by the state machine. *)
Lemma fetch_if_tasks_wired fuel (m : machine ctx) :
  handed (produced (calls m)) m ->
  buf_length (back (I2C_QUEUE m)) = 0 ->
  wp (q <- get_queue ;;
      if 0 <? tasks_n q then i2c_queue_fetch_commands fuel else ret tt)
    (fun _ m' => wired m') any m.
Proof.
  intros H Hb. wp_run. wp_step.
  - now apply fetch_commands_wired.
  - wp_step. exists (produced (calls m)).
    rewrite (filled_empty _ Hb), app_nil_r. auto.
Qed.

(** The state machine after it has sent the command at the cursor, and
    before it moves the cursor. *)
Definition advancing (P : list i2c_command_t) (m : machine ctx) : Prop :=
  let q := I2C_QUEUE m in
  front_buffer q <> back_buffer q /\
  0 <= front_buffer_cursor q < buf_length (front q) /\
  buf_length (front q) <= 255 /\
  0 <= buf_length (back q) <= 255 /\
  Forall producible P /\
  exists S,
    P = S ++ drop (Z.to_nat (front_buffer_cursor q + 1)) (filled (front q)) /\
    map hw_of S = wire (bus m).

Lemma process_command_advance_wired fuel P (m : machine ctx) :
  advancing P m ->
  pending_buffer_switch (I2C_QUEUE m) = true ->
  P ++ filled (back (I2C_QUEUE m)) = produced (calls m) ->
  wp (process_command_advance (i2c_queue_process_command fuel)
        (i2c_queue_fetch_commands fuel))
    (fun _ m' => wired m') any m.
Proof.
  intros H Hp HPB. unfold process_command_advance.
  wp_run. simpl_fields. rewrite Hp. wp_step.
  - (* the front buffer is consumed and the back buffer is ready *)
    wp_step. eapply wp_conseq.
    { apply (switch_buffers_loaded P).
      - revert H Heqb. unfold advancing, queued, unsent, filled.
        destruct_machine m; simpl_fields; intros H Hc; bool_to_prop;
          destruct H as (Hne & Hcur & Hlen & Hb & Hprod & S & HP & HS);
          try congruence; no_wrap.
        all: repeat split; auto; try lia; eauto.
      - assert (Hall : Forall producible (P ++ filled (back (I2C_QUEUE m))))
          by (rewrite HPB; apply producible_produced).
        apply Forall_app in Hall as [_ Hall].
        revert Hall. destruct_machine m; simpl_fields; auto. }
    simpl_fields.
    intros [] m2 (Hl2 & Hp2 & Hb2 & Hcur2 & _ & _ & Hact2 & Hc2).
    assert (HP2 : P ++ filled (back (I2C_QUEUE m)) = produced (calls m2)).
    { rewrite HPB, Hc2. destruct_machine m; reflexivity. }
    replace (filled (back (set_front_buffer_cursor
                             (u8 (front_buffer_cursor (I2C_QUEUE m) + 1))
                             (I2C_QUEUE m))))
      with (filled (back (I2C_QUEUE m))) in *
      by (destruct_machine m; reflexivity).
    rewrite HP2 in Hl2. wp_run.
    eapply wp_conseq with
      (Q := fun _ m' => handed (produced (calls m')) m' /\
                        buf_length (back (I2C_QUEUE m')) = 0).
    { wp_step.
      - eapply wp_conseq;
          [now apply (start_transmitter_handed fuel _ m2 Hl2)|].
        intros [] m3 (Hh3 & Hf3).
        pose proof (handler_frame_back _ _ Hf3) as Hbk.
        destruct Hf3 as (_ & _ & _ & _ & _ & _ & _ & Hc3 & _).
        rewrite Hc3, Hbk. auto.
      - wp_step. bool_to_prop. split; [|exact Hb2].
        split; [exact Hl2|]. split; [auto|congruence]. }
    intros [] m3 (Hh3 & Hb3). now apply fetch_if_tasks_wired.
  - (* the next command of the front buffer *)
    wp_step. apply wp_any_read_command. intros c Hi Hc. wp_run; try exact I.
    exists P. revert H Hp HPB Hc Heqb H0.
    unfold advancing, handed, loaded, unsent, filled.
    destruct_machine m; simpl_fields; intros H Hp HPB Hc Hne' Hact;
      bool_to_prop;
      destruct H as (Hne & Hcur & Hlen & Hb & Hprod & S & HP & HS);
      try congruence; no_wrap.
    all: repeat split; auto; try lia; try congruence; eauto.
Qed.

Lemma handler_frame_wired P (m m' : machine ctx) :
  handed P m' -> handler_frame m m' ->
  P ++ filled (back (I2C_QUEUE m)) = produced (calls m) ->
  buf_length (back (I2C_QUEUE m)) = 0 ->
  wired m'.
Proof.
  intros H Hf HPB Hb. pose proof (handler_frame_back _ _ Hf) as Hbk.
  destruct Hf as (_ & _ & _ & _ & _ & _ & _ & Hc & _).
  exists P. rewrite Hbk, Hc. auto.
Qed.

Lemma process_command_wired fuel (m : machine ctx) :
  wired m ->
  wp (i2c_queue_process_command fuel) (fun _ m' => wired m') any m.
Proof.
  intros (P & H & HPB & Hb).
  destruct (pending_buffer_switch (I2C_QUEUE m)) eqn:Hp.
  2: { eapply wp_conseq; [now apply (process_command_handed fuel P)|].
       intros [] m' [H' Hf]. eapply handler_frame_wired; eauto. }
  clear Hb. destruct fuel as [|fuel]; [exact I|].
  rewrite process_command_S. unfold process_command_body.
  wp_run; try exact I. rewrite Hp.
  assert (Hadv : forall h (m' : machine ctx),
    I2C_QUEUE m' = I2C_QUEUE m \/
    I2C_QUEUE m' = set_transmitter_active false (I2C_QUEUE m) ->
    calls m' = calls m -> bus m' = bus m ++ [h] -> on_wire h = true ->
    hw_of (current_command (I2C_QUEUE m)) = h ->
    cmd_code (current_command (I2C_QUEUE m)) <> I2C_COMMAND_PENDING ->
    wp (process_command_advance (i2c_queue_process_command fuel)
          (i2c_queue_fetch_commands fuel))
      (fun _ m' => wired m') any m').
  { intros h m' Hq Hc Hbus Hw Hh Hcode.
    assert (Hq' : pending_buffer_switch (I2C_QUEUE m') = true /\
                  back (I2C_QUEUE m') = back (I2C_QUEUE m) /\
                  front (I2C_QUEUE m') = front (I2C_QUEUE m) /\
                  front_buffer (I2C_QUEUE m') = front_buffer (I2C_QUEUE m) /\
                  back_buffer (I2C_QUEUE m') = back_buffer (I2C_QUEUE m) /\
                  front_buffer_cursor (I2C_QUEUE m')
                    = front_buffer_cursor (I2C_QUEUE m)).
    { destruct Hq as [-> | ->]; destruct_machine m; simpl_fields in *;
        repeat split; auto. }
    destruct Hq' as (Hp' & Hbk' & Hfr' & Hfb' & Hbb' & Hcur').
    apply (process_command_advance_wired fuel P); [|exact Hp'|].
    2: now rewrite Hbk', Hc.
    unfold advancing. rewrite Hfr', Hfb', Hbb', Hbk', Hcur', Hbus.
    clear Hq Hc Hbus Hp' Hbk' Hfr' Hfb' Hbb' Hcur' m'.
    revert H Hh Hcode. unfold handed, loaded, unsent, filled.
    destruct_machine m; simpl_fields;
      intros ((Hne & Hcur & Hlen & Hback & Hat & Hend & Hprod & S & HP & HS)
              & Hact & Hpa) Hh Hcode;
      try congruence.
    all: cursor_inside.
    all: match goal with
         | Hat : ?cmds !! Z.to_nat ?cur = Some ?c,
           HP : _ = _ ++ drop (Z.to_nat ?cur) (take (Z.to_nat ?len) ?cmds) |- _ =>
             rewrite (unsent_next cmds len cur c ltac:(lia) Hat) in HP;
             destruct (sent_next _ _ _ _ _ _ HP HS Hh) as (S' & HP' & HS')
         end.
    all: rewrite wire_app, Hw.
    all: repeat split; auto; try lia; eauto. }
  wp_step; [|wp_step; [|wp_step; [|wp_step]]]; bool_to_prop.
  - wp_run. apply (Hadv (hw_send_byte (cmd_data (current_command (I2C_QUEUE m)))));
      simpl_fields; auto.
    + unfold hw_of. rewrite Heqb. reflexivity.
    + rewrite Heqb. discriminate.
  - wp_run. apply (Hadv hw_send_start_condition); simpl_fields; auto.
    + unfold hw_of. rewrite Heqb0. reflexivity.
    + rewrite Heqb0. discriminate.
  - wp_run. apply (Hadv hw_send_stop_condition); simpl_fields; auto.
    + unfold hw_of. rewrite Heqb1. reflexivity.
    + rewrite Heqb1. discriminate.
  - (* the pending sentinel: switch and go on *)
    wp_step. eapply wp_conseq.
    { apply (switch_buffers_loaded P); [apply loaded_queued, H|].
      assert (Hall : Forall producible (P ++ filled (back (I2C_QUEUE m))))
        by (rewrite HPB; apply producible_produced).
      now apply Forall_app in Hall as [_ Hall]. }
    intros [] m2 (Hl2 & Hp2 & Hb2 & Hcur2 & _ & _ & Hact2 & Hc2).
    rewrite HPB, <- Hc2 in Hl2. wp_step. eapply wp_conseq.
    { apply (process_command_handed fuel (produced (calls m2)) m2);
        [|exact Hp2].
      split; [exact Hl2|]. split; congruence. }
    intros [] m3 (Hh3 & Hf3).
    pose proof (handler_frame_back _ _ Hf3) as Hbk.
    destruct Hf3 as (_ & _ & _ & _ & _ & _ & _ & Hc3 & _).
    apply fetch_if_tasks_wired; rewrite ?Hc3, ?Hbk; auto.
  - wp_step. exact I.
Qed.

Lemma TWI_vect_wired fuel twsr (m : machine ctx) :
  wired m -> wp (TWI_vect fuel twsr) (fun _ m' => wired m') any m.
Proof.
  intros H. unfold TWI_vect, TWI_vect_body. wp_step. wp_step.
  - wp_step. exact I.
  - wp_step. now apply process_command_wired.
Qed.

Lemma interrupt_wired fuel twsr (m : machine ctx) :
  wired m ->
  wp (interrupt (TWI_vect fuel) twsr) (fun _ m' => wired m') any m.
Proof.
  apply interrupt_raised.
  - exact wired_frame.
  - intros twsr' m0. apply TWI_vect_wired.
Qed.

Lemma wait_wired fuel polls : forall (m : machine ctx),
  wired m -> wp (i2c_wait fuel polls) (fun _ m' => wired m') any m.
Proof.
  induction polls as [|polls IH]; intros m H; [exact I|]. simpl.
  wp_step. apply is_idle_spec. wp_step; [wp_step; exact H|].
  wp_step. eapply wp_conseq.
  { apply preempt_raised with (J := wired); auto.
    - exact wired_frame.
    - intros twsr m0. apply TWI_vect_wired. }
  intros [] m1 Hm1. now apply IH.
Qed.

Lemma transmit_async_wired fuel address callback data (m : machine ctx) :
  wired m ->
  wp (i2c_transmit_async fuel address callback data)
    (fun _ m' => wired m') any m.
Proof.
  intros H. unfold i2c_transmit_async. wp_run; try exact I.
  apply is_idle_spec. wp_run.
  eapply wp_conseq with (Q := fun _ m' => wired m').
  2: { intros [] m1 Hm1. wp_steps. revert Hm1. now apply wired_frame. }
  assert (Hw : wired
    (set_I2C_QUEUE
       (set_tasks_n (u8 (tasks_n (I2C_QUEUE m) + 1))
          (set_tasks (tasks (I2C_QUEUE m)
                      ++ [mk_task callback data address]) (I2C_QUEUE m)))
       (set_calls (calls m
                   ++ [task_enqueued (mk_task callback data address)])
          (set_SREG_I false m)))).
  { destruct H as (P & H & HPB & Hb). exists P.
    revert H HPB Hb. unfold handed, loaded, unsent, filled.
    destruct_machine m; simpl_fields; rewrite produced_app; simpl;
      rewrite app_nil_r; tauto. }
  wp_step; [|wp_step; exact Hw].
  bool_to_prop.
  destruct Hw as (P & Hh & HPB & Hb).
  destruct fuel as [|fuel]; [exact I|].
  rewrite fetch_commands_S. unfold fetch_commands_body.
  wp_run; try exact I. bool_to_prop.
  specialize (Hb ltac:(assumption)).
  rewrite (filled_empty _ Hb), app_nil_r in HPB. subst P.
  now apply fetch_commands_loop_wired.
Qed.

Lemma init_wired (m : machine ctx) :
  bus m = [] -> calls m = [] ->
  wp i2c_init (fun _ m' => wired m') any m.
Proof.
  intros Hbus Hcalls. unfold i2c_init.
  destruct m as [q sreg armed mem0 sch bs cl0].
  destruct q as [ts0 [la ca] [lb cb] fr bk act pend tn cur [cc cd]].
  simpl_fields in *. subst bs cl0. wp_steps. exists [].
  unfold handed, loaded, unsent, filled. simpl_fields.
  repeat split; auto; try congruence; try lia.
  exists []. auto.
Qed.

Lemma reachable_wired (m : machine ctx) : reachable m -> wired m.
Proof.
  intros Hr. induction Hr as
    [m0 m Hon Hrun | m fuel a cb d m' Hr IH Hrun | m fuel twsr m' Hr IH Hrun
    | m fuel polls m' Hr IH Hrun | m mem sch i Hr IH].
  - destruct Hon as (_ & _ & Hbus & Hcalls).
    apply (wp_Done _ _ _ _ _ _ (init_wired m0 Hbus Hcalls) Hrun).
  - apply (wp_Done _ _ _ _ _ _ (transmit_async_wired fuel a cb d m IH) Hrun).
  - apply (wp_Done _ _ _ _ _ _ (interrupt_wired fuel twsr m IH) Hrun).
  - apply (wp_Done _ _ _ _ _ _ (wait_wired fuel polls m IH) Hrun).
  - revert IH. now apply wired_frame.
Qed.

Lemma wired_inactive (m : machine ctx) :
  wired m -> transmitter_active (I2C_QUEUE m) = false ->
  map hw_of (produced (calls m)) = wire (bus m).
Proof.
  intros (P & ((Hne & Hcur & Hlen & Hb & Hat & Hend & Hprod & S & HP & HS)
                & Hact & Hpa) & HPB & Hempty) Hidle.
  assert (Hc : front_buffer_cursor (I2C_QUEUE m)
               = buf_length (front (I2C_QUEUE m))).
  { destruct (Z.eq_dec (front_buffer_cursor (I2C_QUEUE m))
                (buf_length (front (I2C_QUEUE m)))) as [E|E]; [exact E|].
    rewrite Hact in Hidle by lia. discriminate. }
  assert (Hp : pending_buffer_switch (I2C_QUEUE m) = false).
  { destruct (pending_buffer_switch (I2C_QUEUE m)); [|reflexivity].
    rewrite Hpa in Hidle by reflexivity. discriminate. }
  rewrite <- HPB, (filled_empty _ (Hempty Hp)), app_nil_r, HP.
  unfold unsent, filled. rewrite Hc, unsent_end, app_nil_r. exact HS.
Qed.

End Filling.

(** X2.  At any time, the start conditions, bytes and stop conditions
    that the engine has asked the bus for are, in their order, the
    commands that the callbacks invoked so far have produced, less those
    still waiting in the front buffer from the cursor on and in the back
    buffer: nothing is sent twice, skipped, reordered or made up. *)
Theorem wire_follows_producers (m : machine ctx) :
  I2C_BUFFER_SIZE <= 255 ->
  reachable m ->
  map hw_of (produced (calls m))
  = wire (bus m)
    ++ map hw_of (unsent (I2C_QUEUE m) ++ filled (back (I2C_QUEUE m))).
Proof.
  intros Hfit Hr.
  destruct (reachable_wired Hfit m Hr)
    as (P & ((_ & _ & _ & _ & _ & _ & _ & S & HP & HS) & _) & HPB & _).
  now rewrite <- HPB, HP, <- app_assoc, map_app, HS.
Qed.

(** X3.  Whenever the transmitter is not active, all that the callbacks
    have produced has been sent. *)
Theorem inactive_means_all_sent (m : machine ctx) :
  I2C_BUFFER_SIZE <= 255 ->
  reachable m ->
  transmitter_active (I2C_QUEUE m) = false ->
  wire (bus m) = map hw_of (produced (calls m)).
Proof.
  intros Hfit Hr Hidle. symmetry.
  apply wired_inactive; auto using reachable_wired.
Qed.

End Wire.

(** ** One task, from enqueue to idle *)

Section OneTask.
Context {cfg : config} {ctx : Type}.

(** The first [n] invocations of the callback of [t], the first in the
    context [c], or as many as it takes until it returns false: the task
    events, the context left, and whether the callback has more to
    produce. *)
Fixpoint invocations (n : nat) (t : i2c_task_t ctx) (c : ctx)
    : list (task_event ctx) * ctx * bool :=
  match n with
  | O => ([], c, true)
  | S n' =>
      let '(evs, c', more) := invocations n' t c in
      if more then
        let '(cs, c'', keep_task) := callback t c' in
        (evs ++ [task_called t cs keep_task], c'', keep_task)
      else (evs, c', false)
  end.

(** The service of a single task [t] enqueued after the task events
    [cl], its context being [c]: it is invoked a number of times, stays
    alone in the queue while it has more to produce, and has left it when
    it has not. *)
Definition single_service (t : i2c_task_t ctx) (c : ctx)
    (cl0 : list (task_event ctx))
    (ts : list (i2c_task_t ctx)) (cl : list (task_event ctx))
    (mem : ptr -> ctx) : Prop :=
  exists n evs c' more,
    invocations n t c = (evs, c', more) /\
    cl = cl0 ++ task_enqueued t :: evs /\
    mem (task_data t) = c' /\
    ts = (if more then [t] else []).

Lemma single_service_kept t c cl0 : kept_by_service (single_service t c cl0).
Proof.
  intros t' rest cl mem cs c' keep_task (n & evs & c1 & more & Hn & Hcl & Hm & Hts)
    Hcb.
  destruct more; [|discriminate]. injection Hts as -> ->.
  exists (S n), (evs ++ [task_called t cs keep_task]), c', keep_task.
  simpl. rewrite Hn, <- Hm, Hcb. repeat split.
  - rewrite Hcl, <- app_assoc. reflexivity.
  - apply fn_lookup_insert.
Qed.

Lemma bind_Done {A B} (c : M ctx A) (k : A -> M ctx B) (m m' : machine ctx) b :
  (a <- c ;; k a) m = Done b m' ->
  exists a m1, c m = Done a m1 /\ k a m1 = Done b m'.
Proof. unfold bind. destruct (c m); try discriminate. eauto. Qed.

Lemma engine_inv_change T T' (m : machine ctx) :
  engine_inv T m ->
  T' (tasks (I2C_QUEUE m)) (calls m) (memory m) ->
  engine_inv T' m.
Proof. unfold engine_inv. tauto. Qed.

(** Enqueuing starts a service of its own. *)
Lemma transmit_async_starts T T' fuel address callback data (m : machine ctx) :
  kept_by_service T' -> I2C_QUEUE_SIZE <= 255 ->
  engine_inv T m ->
  T' (tasks (I2C_QUEUE m) ++ [mk_task callback data address])
     (calls m ++ [task_enqueued (mk_task callback data address)])
     (memory m) ->
  wp (i2c_transmit_async fuel address callback data)
    (fun _ m' => engine_inv T' m') capacity_kept m.
Proof.
  intros HT' Hq H HT. unfold i2c_transmit_async.
  wp_run; try solve [simpl; eauto using engine_inv_capacity].
  apply is_idle_spec. wp_run. bool_to_prop.
  eapply wp_conseq with (Q := fun _ m' => engine_inv T' m').
  2: { intros [] m1 Hm1. wp_steps. revert Hm1. now apply engine_inv_frame. }
  assert (Hinv : engine_inv T'
    (set_I2C_QUEUE
       (set_tasks_n (u8 (tasks_n (I2C_QUEUE m) + 1))
          (set_tasks (tasks (I2C_QUEUE m)
                      ++ [mk_task callback data address]) (I2C_QUEUE m)))
       (set_calls (calls m
                   ++ [task_enqueued (mk_task callback data address)])
          (set_SREG_I false m)))).
  { destruct H as (Hb & Hn & Hfit & Hf).
    unfold engine_inv, buffers_wf, within_capacity in *.
    simpl_fields. rewrite length_app. simpl length.
    repeat split; try apply Hb; auto; arith. }
  wp_step; [now apply fetch_commands_inv|wp_step; exact Hinv].
Qed.

Lemma is_idle_Done (m : machine ctx) :
  i2c_is_idle m
  = Done (negb (transmitter_active (I2C_QUEUE m))
          && (tasks_n (I2C_QUEUE m) =? 0)) m.
Proof. destruct m as [q s a mem sch b cl]. reflexivity. Qed.

Lemma wait_returns_idle fuel polls : forall (m m' : machine ctx),
  i2c_wait fuel polls m = Done tt m' ->
  transmitter_active (I2C_QUEUE m') = false /\ tasks_n (I2C_QUEUE m') = 0.
Proof.
  induction polls as [|polls IH]; intros m m' Hrun; [discriminate|].
  simpl in Hrun. apply bind_Done in Hrun as (idle & m1 & Hidle & Hrun).
  rewrite is_idle_Done in Hidle. injection Hidle as <- <-.
  destruct (negb (transmitter_active (I2C_QUEUE m))
            && (tasks_n (I2C_QUEUE m) =? 0)) eqn:E.
  - injection Hrun as <-. bool_to_prop. auto.
  - apply bind_Done in Hrun as ([] & m2 & _ & Hrun). eauto.
Qed.

Lemma produced_enqueued (cl evs : list (task_event ctx)) t :
  produced (cl ++ task_enqueued t :: evs) = produced cl ++ produced evs.
Proof. now rewrite produced_app. Qed.

(** A task enqueued while the engine is idle, and waited for. *)
Lemma single_task_served fuel polls address callback data (m m' : machine ctx) :
  let t := mk_task callback data address in
  0 <= I2C_QUEUE_SIZE <= 255 ->
  I2C_BUFFER_SIZE <= 255 ->
  reachable m ->
  tasks (I2C_QUEUE m) = [] ->
  transmitter_active (I2C_QUEUE m) = false ->
  (i2c_transmit_async fuel address callback data ;; i2c_wait fuel polls) m
    = Done tt m' ->
  exists n evs c',
    invocations n t (memory m data) = (evs, c', false) /\
    calls m' = calls m ++ task_enqueued t :: evs /\
    memory m' data = c' /\
    wire (bus m') = wire (bus m) ++ map hw_of (produced evs) /\
    i2c_is_idle m' = Done true m'.
Proof.
  intros t Hq Hfit Hr Hts Hact Hrun.
  apply bind_Done in Hrun as ([] & m1 & Hrun1 & Hrun2).
  pose proof (reach_transmit _ _ _ _ _ _ Hr Hrun1) as Hr1.
  pose proof (reach_wait _ _ _ _ Hr1 Hrun2) as Hr'.
  pose proof (reachable_inv m Hq Hr) as Hinv.
  assert (Hinv1 : engine_inv (single_service t (memory m data) (calls m)) m1).
  { apply (wp_Done (i2c_transmit_async fuel address callback data)
             (fun _ m' =>
                engine_inv (single_service t (memory m data) (calls m)) m')
             capacity_kept m tt m1); [|exact Hrun1].
    apply (transmit_async_starts fifo_service); auto using single_service_kept;
      [lia|].
    rewrite Hts. exists 0%nat, [], (memory m data), true. auto. }
  assert (Hinv' : engine_inv (single_service t (memory m data) (calls m)) m').
  { apply (wp_Done (i2c_wait fuel polls)
             (fun _ m' =>
                engine_inv (single_service t (memory m data) (calls m)) m')
             capacity_kept m1 tt m'); [|exact Hrun2].
    apply wait_inv; auto using single_service_kept. lia. }
  destruct (wait_returns_idle _ _ _ _ Hrun2) as [Hact' Hn'].
  destruct Hinv' as (_ & Hcount & _ & n & evs & c' & more & Hn & Hcl & Hmem & Hts').
  assert (more = false) as ->.
  { destruct more; [|reflexivity]. rewrite Hts', Hn' in Hcount. discriminate. }
  exists n, evs, c'. repeat split; auto.
  - rewrite <- (wired_inactive m' (reachable_wired Hfit m' Hr') Hact').
    rewrite <- (wired_inactive m (reachable_wired Hfit m Hr) Hact).
    now rewrite Hcl, produced_enqueued, map_app.
  - rewrite is_idle_Done, Hact', Hn'. reflexivity.
Qed.

(** X4.  A task enqueued while the engine is idle and nothing is
    queued, and then waited for: when [i2c_wait] returns, the callback of
    the task has been invoked again and again, each time in the context
    the time before left, until it returned false, and no other callback
    has; the bus has been asked for exactly what these invocations
    produced, in that order, and for nothing else; and the engine is
    idle. *)
Theorem single_task_service (fuel polls : nat) (address : Z)
    (callback : i2c_callback_t ctx) (data : ptr) (m m' : machine ctx) :
  0 <= I2C_QUEUE_SIZE <= 255 ->
  I2C_BUFFER_SIZE <= 255 ->
  reachable m ->
  tasks (I2C_QUEUE m) = [] ->
  transmitter_active (I2C_QUEUE m) = false ->
  (i2c_transmit_async fuel address callback data ;; i2c_wait fuel polls) m
    = Done tt m' ->
  exists n evs c',
    invocations n (mk_task callback data address) (memory m data)
      = (evs, c', false) /\
    calls m' = calls m ++ task_enqueued (mk_task callback data address) :: evs /\
    memory m' data = c' /\
    wire (bus m') = wire (bus m) ++ map hw_of (produced evs) /\
    i2c_is_idle m' = Done true m'.
Proof. apply single_task_served. Qed.

End OneTask.

(** ** The program-storage transfer *)

Section Progmem.

#[local] Arguments Nat.min : simpl never.
#[local] Arguments Z.of_nat : simpl never.
#[local] Arguments Z.mul : simpl never.

(** The [n] bytes of program storage from the offset [from] on. *)
Definition progmem_bytes (data : list Z) (from : Z) (n : nat) : list Z :=
  map (fun i => pgm_read_byte data (from + Z.of_nat i)) (seq 0 n).

(** The task events of a transfer of [length] bytes: the invocations
    that produce up to 16 bytes each, the first of them after the start
    condition and the address, and one more that produces the stop
    condition. *)
Definition progmem_chunk (t : i2c_task_t transmit_progmem_t) (length : Z)
    (data : list Z) (k : nat) : task_event transmit_progmem_t :=
  task_called t
    ((if (k =? 0)%nat then [call_send_start] else [])
     ++ map call_send_byte
          (progmem_bytes data (16 * Z.of_nat k)
             (Nat.min 16 (Z.to_nat (length - 16 * Z.of_nat k)))))
    true.

Definition progmem_chunks (length : Z) : nat := Z.to_nat ((length + 15) / 16).

Definition progmem_events (t : i2c_task_t transmit_progmem_t) (length : Z)
    (data : list Z) : list (task_event transmit_progmem_t) :=
  map (progmem_chunk t length data) (seq 0 (progmem_chunks length))
  ++ [task_called t
        ((if (progmem_chunks length =? 0)%nat then [call_send_start] else [])
         ++ [call_end_transmission])
        false].

Lemma progmem_bytes_S data from n :
  progmem_bytes data from (S n)
  = pgm_read_byte data from :: progmem_bytes data (from + 1) n.
Proof.
  unfold progmem_bytes. simpl. rewrite Z.add_0_r. f_equal.
  rewrite <- seq_shift, map_map. apply map_ext. intros i. f_equal. lia.
Qed.

Lemma progmem_bytes_app data from n n' :
  progmem_bytes data from (n + n')
  = progmem_bytes data from n ++ progmem_bytes data (from + Z.of_nat n) n'.
Proof.
  revert from. induction n as [|n IH]; intros from.
  - simpl. now rewrite Z.add_0_r.
  - change (S n + n')%nat with (S (n + n')). rewrite !progmem_bytes_S, IH.
    simpl. do 3 f_equal. lia.
Qed.

Lemma progmem_loop_spec turns : forall ctrl,
  0 <= pm_counter ctrl <= pm_length ctrl -> pm_length ctrl <= 65535 ->
  progmem_loop turns ctrl
  = (map call_send_byte
       (progmem_bytes (pm_data ctrl) (pm_counter ctrl)
          (Nat.min turns (Z.to_nat (pm_length ctrl - pm_counter ctrl)))),
     mk_progmem (pm_length ctrl)
       (pm_counter ctrl
        + Z.of_nat (Nat.min turns (Z.to_nat (pm_length ctrl - pm_counter ctrl))))
       (pm_data ctrl)).
Proof.
  induction turns as [|turns IH]; intros [L c data] Hc HL;
    cbn [progmem_loop pm_counter pm_length pm_data] in *.
  - simpl. now rewrite Z.add_0_r.
  - destruct (Z.ltb_spec c L).
    + replace (u16 (c + 1)) with (c + 1)
        by (unfold u16; rewrite Z.mod_small; lia).
      rewrite IH by (simpl; lia). cbn [pm_counter pm_length pm_data].
      replace (Z.to_nat (L - c)) with (S (Z.to_nat (L - (c + 1)))) by lia.
      rewrite <- Nat.succ_min_distr, progmem_bytes_S. simpl map.
      do 2 f_equal. lia.
    + replace (Z.to_nat (L - c)) with 0%nat by lia.
      rewrite Nat.min_0_r. simpl. now rewrite Z.add_0_r.
Qed.

Lemma progmem_cb_spec L c data :
  0 <= c <= L -> L <= 65535 ->
  i2c_transmit_progmem_cb (mk_progmem L c data)
  = if c <? L then
      ((if c =? 0 then [call_send_start] else [])
       ++ map call_send_byte
            (progmem_bytes data c (Nat.min 16 (Z.to_nat (L - c)))),
       mk_progmem L (c + Z.of_nat (Nat.min 16 (Z.to_nat (L - c)))) data,
       true)
    else
      ((if c =? 0 then [call_send_start] else []) ++ [call_end_transmission],
       mk_progmem L 0 data, false).
Proof.
  intros Hc HL. unfold i2c_transmit_progmem_cb.
  cbn [pm_counter pm_length pm_data].
  destruct (c <? L); [|reflexivity].
  now rewrite progmem_loop_spec by (simpl; lia).
Qed.

Variable t : i2c_task_t transmit_progmem_t.
Hypothesis t_callback : callback t = i2c_transmit_progmem_cb.
Variables (L : Z) (data : list Z).
Hypothesis L_range : 0 <= L <= 65535.

Lemma progmem_chunks_spec :
  16 * Z.of_nat (progmem_chunks L) - 15 <= L <= 16 * Z.of_nat (progmem_chunks L).
Proof.
  unfold progmem_chunks. rewrite Z2Nat.id by (apply Z.div_pos; lia).
  pose proof (Z.div_mod (L + 15) 16 ltac:(lia)).
  pose proof (Z.mod_pos_bound (L + 15) 16 ltac:(lia)). lia.
Qed.

Lemma invocations_chunks n :
  (n <= progmem_chunks L)%nat ->
  invocations n t (mk_progmem L 0 data)
  = (map (progmem_chunk t L data) (seq 0 n),
     mk_progmem L (Z.min (16 * Z.of_nat n) L) data, true).
Proof.
  pose proof progmem_chunks_spec as HK.
  induction n as [|n IH]; intros Hn.
  - simpl. now rewrite Z.min_l by lia.
  - cbn [invocations]. rewrite IH by lia. rewrite t_callback.
    rewrite Z.min_l by lia. rewrite progmem_cb_spec by lia.
    destruct (Z.ltb_spec (16 * Z.of_nat n) L); [|lia].
    rewrite seq_S, map_app, Nat.add_0_l. cbn [map]. unfold progmem_chunk at 2.
    repeat f_equal.
    + unfold progmem_chunk. do 2 f_equal. destruct n; reflexivity.
    + lia.
Qed.

Lemma invocations_progmem :
  invocations (S (progmem_chunks L)) t (mk_progmem L 0 data)
  = (progmem_events t L data, mk_progmem L 0 data, false).
Proof.
  pose proof progmem_chunks_spec as HK.
  cbn [invocations]. rewrite invocations_chunks by lia. rewrite t_callback.
  rewrite Z.min_r by lia. rewrite progmem_cb_spec by lia.
  rewrite Z.ltb_irrefl. unfold progmem_events. repeat f_equal.
  destruct (progmem_chunks L) eqn:E.
  - simpl in HK. replace L with 0 by lia. reflexivity.
  - destruct (Z.eqb_spec L 0); [lia|reflexivity].
Qed.

Lemma produced_send_bytes address bs :
  concat (map (commands_of address) (map call_send_byte bs))
  = map (mk_command I2C_COMMAND_SEND_DATA) bs.
Proof. induction bs as [|b bs IH]; simpl; [|rewrite IH]; reflexivity. Qed.

Lemma produced_chunks n :
  (n < progmem_chunks L)%nat ->
  produced (map (progmem_chunk t L data) (seq 0 (S n)))
  = mk_command I2C_COMMAND_START 0
    :: mk_command I2C_COMMAND_SEND_DATA (address t)
    :: map (mk_command I2C_COMMAND_SEND_DATA)
         (progmem_bytes data 0 (Z.to_nat (Z.min (16 * Z.of_nat (S n)) L))).
Proof.
  pose proof progmem_chunks_spec as HK.
  induction n as [|n IH]; intros Hn.
  - cbn [seq map produced progmem_chunk Nat.eqb].
    rewrite app_nil_r, map_app, concat_app, produced_send_bytes.
    simpl. do 4 f_equal. lia.
  - rewrite seq_S, map_app, produced_app, IH by lia.
    rewrite Nat.add_0_l. cbn [map produced progmem_chunk Nat.eqb app].
    rewrite app_nil_r, produced_send_bytes. simpl. do 2 f_equal.
    rewrite <- map_app. f_equal.
    replace (Z.to_nat (Z.min (16 * Z.of_nat (S (S n))) L))
      with (Z.to_nat (Z.min (16 * Z.of_nat (S n)) L)
            + Nat.min 16 (Z.to_nat (L - 16 * Z.of_nat (S n))))%nat by lia.
    rewrite progmem_bytes_app. do 2 f_equal. lia.
Qed.

Lemma produced_progmem_events :
  produced (progmem_events t L data)
  = mk_command I2C_COMMAND_START 0
    :: mk_command I2C_COMMAND_SEND_DATA (address t)
    :: map (mk_command I2C_COMMAND_SEND_DATA)
         (progmem_bytes data 0 (Z.to_nat L))
    ++ [mk_command I2C_COMMAND_STOP 0].
Proof.
  pose proof progmem_chunks_spec as HK.
  unfold progmem_events. rewrite produced_app.
  destruct (progmem_chunks L) as [|n] eqn:E.
  - simpl in HK. replace L with 0 by lia. reflexivity.
  - rewrite produced_chunks by lia. rewrite Z.min_r by lia. reflexivity.
Qed.

End Progmem.

(** X5.  The callback of the program-storage helper, invoked again and
    again from the counter at 0, streams the [L] bytes in chunks of 16:
    it returns true [ceil (L / 16)] times, having produced the start
    condition and the address before the first chunk, and false the next
    time, when it produces the stop condition alone and resets the
    counter.  Together the invocations produce the start condition, the
    address, the [L] bytes in their order and the stop condition. *)
Theorem progmem_callback_streams (t : i2c_task_t transmit_progmem_t)
    (L : Z) (data : list Z) :
  callback t = i2c_transmit_progmem_cb ->
  0 <= L <= 65535 ->
  invocations (S (progmem_chunks L)) t (mk_progmem L 0 data)
    = (progmem_events t L data, mk_progmem L 0 data, false) /\
  length (progmem_events t L data) = S (progmem_chunks L) /\
  produced (progmem_events t L data)
    = mk_command I2C_COMMAND_START 0
      :: mk_command I2C_COMMAND_SEND_DATA (address t)
      :: map (mk_command I2C_COMMAND_SEND_DATA)
           (progmem_bytes data 0 (Z.to_nat L))
      ++ [mk_command I2C_COMMAND_STOP 0].
Proof.
  intros Ht HL. split; [|split].
  - now apply invocations_progmem.
  - unfold progmem_events. rewrite length_app, length_map, length_seq.
    simpl. lia.
  - now apply produced_progmem_events.
Qed.

Section Transfer.
Context {cfg : config}.

Lemma invocations_finished {ctx} n (t : i2c_task_t ctx) c evs c' :
  invocations n t c = (evs, c', false) ->
  forall n', (n <= n')%nat -> invocations n' t c = (evs, c', false).
Proof.
  intros H n' Hn. induction Hn as [|n' Hn IH]; [exact H|].
  simpl. now rewrite IH.
Qed.

Lemma progmem_served fuel polls ctrl address data L
    (m m' : machine transmit_progmem_t) :
  let t := mk_task i2c_transmit_progmem_cb ctrl address in
  0 <= I2C_QUEUE_SIZE <= 255 ->
  I2C_BUFFER_SIZE <= 255 ->
  0 <= L <= 65535 ->
  reachable m ->
  tasks (I2C_QUEUE m) = [] ->
  transmitter_active (I2C_QUEUE m) = false ->
  i2c_transmit_progmem fuel polls ctrl address data L m = Done tt m' ->
  calls m' = calls m ++ task_enqueued t :: progmem_events t L data /\
  wire (bus m')
  = wire (bus m)
    ++ hw_send_start_condition :: hw_send_byte address
       :: map hw_send_byte (progmem_bytes data 0 (Z.to_nat L))
       ++ [hw_send_stop_condition] /\
  memory m' ctrl = mk_progmem L 0 data /\
  i2c_is_idle m' = Done true m'.
Proof.
  intros t Hq Hfit HL Hr Hts Hact Hrun. unfold i2c_transmit_progmem in Hrun.
  apply bind_Done in Hrun as ([] & m0 & Hm0 & Hrun).
  injection Hm0 as <-.
  set (m0 := set_memory (<[ctrl:=mk_progmem L 0 data]> (memory m)) m) in *.
  assert (Hr0 : reachable m0).
  { replace m0 with
      (set_memory (<[ctrl:=mk_progmem L 0 data]> (memory m))
         (set_schedule (schedule m) (set_SREG_I (SREG_I m) m)))
      by (destruct m; reflexivity).
    now apply reach_program. }
  destruct (single_task_served fuel polls address i2c_transmit_progmem_cb ctrl
              m0 m' Hq Hfit Hr0) as (n & evs & c' & Hn & Hcl & Hmem & Hw & Hidle);
    try (destruct m; assumption).
  assert (Hc0 : memory m0 ctrl = mk_progmem L 0 data)
    by (unfold m0; destruct m; simpl; apply fn_lookup_insert).
  rewrite Hc0 in Hn. fold t in Hn, Hcl.
  pose proof (invocations_progmem t eq_refl L data HL) as Hall.
  pose proof (invocations_finished _ _ _ _ _ Hn
                (Nat.max n (S (progmem_chunks L))) (Nat.le_max_l _ _)) as H1.
  pose proof (invocations_finished _ _ _ _ _ Hall
                (Nat.max n (S (progmem_chunks L))) (Nat.le_max_r _ _)) as H2.
  rewrite H1 in H2. injection H2 as -> ->.
  replace (calls m0) with (calls m) in Hcl by (destruct m; reflexivity).
  replace (bus m0) with (bus m) in Hw by (destruct m; reflexivity).
  repeat split; auto.
  rewrite Hw, (produced_progmem_events t L data HL). f_equal.
  simpl. do 2 f_equal. rewrite map_app, map_map. reflexivity.
Qed.

(** X6.  [i2c_transmit_progmem] called while the engine is idle, when
    it returns: the callback was invoked as above and no other; the bus
    was asked for the start condition, the address, the [L] bytes of
    program storage in their order and the stop condition, and for
    nothing else; the counter is back at 0 and the engine is idle. *)
Theorem progmem_transfer (fuel polls : nat) (ctrl : ptr) (address : Z)
    (data : list Z) (L : Z) (m m' : machine transmit_progmem_t) :
  0 <= I2C_QUEUE_SIZE <= 255 ->
  I2C_BUFFER_SIZE <= 255 ->
  0 <= L <= 65535 ->
  reachable m ->
  tasks (I2C_QUEUE m) = [] ->
  transmitter_active (I2C_QUEUE m) = false ->
  i2c_transmit_progmem fuel polls ctrl address data L m = Done tt m' ->
  calls m'
  = calls m
    ++ task_enqueued (mk_task i2c_transmit_progmem_cb ctrl address)
       :: progmem_events (mk_task i2c_transmit_progmem_cb ctrl address) L data /\
  wire (bus m')
  = wire (bus m)
    ++ hw_send_start_condition :: hw_send_byte address
       :: map hw_send_byte (progmem_bytes data 0 (Z.to_nat L))
       ++ [hw_send_stop_condition] /\
  memory m' ctrl = mk_progmem L 0 data /\
  i2c_is_idle m' = Done true m'.
Proof. apply progmem_served. Qed.

End Transfer.

(** ** Who writes what *)

Section Ownership.
Context {cfg : config} {ctx : Type}.

(** A failure that leaves the machine in a state that [R] allows. *)
Definition failing (R : machine ctx -> Prop) (f : failure ctx) : Prop :=
  match f with
  | fail_fault _ _ m => R m
  | fail_bounds m => R m
  | fail_fuel => True
  end.

Lemma wp_failing_read_command (b : i2c_command_buffer_t) i Q R (m : machine ctx) :
  R m ->
  (forall c, Q c m) ->
  wp (read_command b i) Q (failing R) m.
Proof.
  intros HR HQ. unfold read_command.
  destruct (i <? 0); [exact HR|].
  destruct (buf_commands b !! Z.to_nat i); [apply wp_ret; auto|exact HR].
Qed.

Lemma process_command_frame fuel (m : machine ctx) :
  pending_buffer_switch (I2C_QUEUE m) = false ->
  wp (i2c_queue_process_command fuel) (fun _ m' => handler_frame m m')
    (failing (handler_frame m)) m.
Proof.
  intros Hp. destruct fuel as [|fuel]; [exact I|].
  rewrite process_command_S.
  unfold process_command_body, process_command_advance, handler_frame.
  destruct_machine m; simpl_fields in *; subst pend.
  all: wp_steps; try (simpl; repeat split; reflexivity).
  all: apply wp_failing_read_command; simpl_fields;
         [repeat split; reflexivity|intros c].
  all: wp_steps; simpl; repeat split; reflexivity.
Qed.

(** X7.  While no buffer switch is pending, the interrupt handler
    writes neither command buffer and does not exchange them, and it
    leaves the task queue, [tasks_n], the task events and the memory of
    the callbacks as they are, whether it completes or faults: all it
    changes is the cursor, the current command, [transmitter_active] and
    the bus. *)
Theorem handler_leaves_buffers (fuel : nat) (twsr : Z) (m : machine ctx) :
  pending_buffer_switch (I2C_QUEUE m) = false ->
  match TWI_vect fuel twsr m with
  | Done _ m' => handler_frame m m'
  | Faulted _ _ m' => handler_frame m m'
  | OutOfBounds m' => handler_frame m m'
  | OutOfFuel => True
  end.
Proof.
  intros Hp.
  assert (H : wp (TWI_vect fuel twsr) (fun _ m' => handler_frame m m')
                (failing (handler_frame m)) m).
  { unfold TWI_vect, TWI_vect_body. wp_step. wp_step.
    - wp_step. simpl. unfold handler_frame. rewrite Hp. repeat split.
    - wp_step. now apply process_command_frame. }
  unfold wp in H. destruct (TWI_vect fuel twsr m); exact H.
Qed.

(** *** The producer API *)

(** [appended cs m m']: [m'] is [m] with the commands [cs] appended to
    the back buffer, and nothing else changed. *)
Definition appended (cs : list i2c_command_t) (m m' : machine ctx) : Prop :=
  exists b',
    m' = set_I2C_QUEUE (assign (back_buffer (I2C_QUEUE m)) b' (I2C_QUEUE m)) m /\
    filled b' = filled (back (I2C_QUEUE m)) ++ cs /\
    buf_length b' = buf_length (back (I2C_QUEUE m)) + Z.of_nat (length cs) /\
    length (buf_commands b') = length (buf_commands (back (I2C_QUEUE m))).

(** The back buffer before a producer call: its array has
    [I2C_BUFFER_SIZE] elements, which its length can count. *)
Definition back_ready (m : machine ctx) : Prop :=
  I2C_BUFFER_SIZE <= 255 /\
  Z.of_nat (length (buf_commands (back (I2C_QUEUE m)))) = I2C_BUFFER_SIZE /\
  0 <= buf_length (back (I2C_QUEUE m)) <= I2C_BUFFER_SIZE.

Lemma appended_nil (m : machine ctx) : appended [] m m.
Proof.
  exists (back (I2C_QUEUE m)). rewrite app_nil_r. simpl length.
  split; [destruct_machine m; reflexivity|]. repeat split; auto.
  simpl. now rewrite Z.add_0_r.
Qed.

Lemma appended_trans cs cs' (m m1 m2 : machine ctx) :
  appended cs m m1 -> appended cs' m1 m2 -> appended (cs ++ cs') m m2.
Proof.
  intros (b1 & -> & Hf1 & Hl1 & Hn1) (b2 & -> & Hf2 & Hl2 & Hn2).
  exists b2. destruct_machine m; simpl_fields in *.
  all: split; [reflexivity|].
  all: rewrite Hf2, Hl2, Hn2, Hf1, Hl1, Hn1, length_app, app_assoc.
  all: repeat split; auto; lia.
Qed.

Lemma appended_ready cs (m m' : machine ctx) :
  appended cs m m' -> back_ready m ->
  buf_length (back (I2C_QUEUE m)) + Z.of_nat (length cs) <= I2C_BUFFER_SIZE ->
  back_ready m'.
Proof.
  intros (b' & -> & Hf & Hl & Hn) (Hfit & Hsize & Hlen) Hroom.
  unfold back_ready. destruct_machine m; simpl_fields in *.
  all: rewrite Hl, Hn. all: repeat split; auto; lia.
Qed.

Lemma produce_command_appends code data (m : machine ctx) :
  back_ready m ->
  wp (i2c_produce_command code data)
    (fun _ m' => appended [mk_command code data] m m') any m.
Proof.
  intros (Hfit & Hsize & Hlen). unfold i2c_produce_command, appended, filled.
  destruct_machine m; simpl_fields in *.
  all: wp_steps; try exact I.
  all: apply wp_any_write_back_command; simpl_fields; intros c' Hi Hc'.
  all: wp_steps; bool_to_prop; no_wrap.
  all: eexists; split; [reflexivity|]; simpl_fields.
  all: rewrite (filled_write _ _ _ _ Hi Hc'), length_insert.
  all: repeat split; auto.
Qed.

(** The loop of [i2c_async_send_bytes] writes behind the commands of the
    back buffer, whose length it leaves as it is. *)
Definition written (cs : list i2c_command_t) (m m' : machine ctx) : Prop :=
  exists cmds',
    m' = set_I2C_QUEUE
           (assign (back_buffer (I2C_QUEUE m))
              (mk_buffer (buf_length (back (I2C_QUEUE m))) cmds')
              (I2C_QUEUE m)) m /\
    take (Z.to_nat (buf_length (back (I2C_QUEUE m)) + Z.of_nat (length cs)))
      cmds'
    = filled (back (I2C_QUEUE m)) ++ cs /\
    length cmds' = length (buf_commands (back (I2C_QUEUE m))).

Lemma send_bytes_loop_writes data count : forall i cs (m m1 : machine ctx),
  written cs m m1 -> i = Z.of_nat (length cs) ->
  0 <= buf_length (back (I2C_QUEUE m)) ->
  wp (send_bytes_loop (buf_length (back (I2C_QUEUE m))) data i count)
    (fun _ m' =>
       written
         (cs ++ map (fun j => mk_command I2C_COMMAND_SEND_DATA (nth j data 0))
                  (seq (Z.to_nat i) count)) m m')
    any m1.
Proof.
  induction count as [|count IH]; intros i cs m m1 H Hi Hlen; simpl.
  - wp_step. now rewrite app_nil_r.
  - wp_step. apply wp_any_write_back_command. intros c' Hb Hc'.
    eapply wp_conseq.
    + apply (IH (i + 1)
               (cs ++ [mk_command I2C_COMMAND_SEND_DATA (nth (Z.to_nat i) data 0)]));
        [|rewrite length_app; simpl; lia|exact Hlen].
      destruct H as (cmds' & -> & Htake & Hsize). unfold written, filled in *.
      destruct_machine m; simpl_fields in *.
      all: eexists; split; [reflexivity|].
      all: rewrite length_app, length_insert; simpl length.
      all: match goal with
           | Hi : ?i = _ |- context [Z.to_nat (?l + Z.of_nat (length ?cs + 1))] =>
               replace (l + Z.of_nat (length cs + 1)) with (l + i + 1) by lia;
               rewrite (filled_write _ _ _ _ Hb Hc'); subst i
           end.
      all: rewrite Htake, app_assoc; auto.
    + simpl_fields. intros [] m' Hm'.
      replace (Z.to_nat (i + 1)) with (S (Z.to_nat i)) in Hm' by lia.
      now rewrite <- app_assoc in Hm'.
Qed.

Lemma send_bytes_appends data n address (m : machine ctx) :
  back_ready m ->
  wp (i2c_async_send_bytes data n)
    (fun _ m' => appended (commands_of address (call_send_bytes data n)) m m')
    any m.
Proof.
  intros (Hfit & Hsize & Hlen). unfold i2c_async_send_bytes.
  wp_run; try exact I. bool_to_prop.
  eapply wp_conseq.
  { apply (send_bytes_loop_writes data (Z.to_nat n) 0 [] m m); [|reflexivity|lia].
    exists (buf_commands (back (I2C_QUEUE m))). simpl.
    rewrite Z.add_0_r, app_nil_r. repeat split.
    destruct_machine m; reflexivity. }
  simpl. intros [] m1 (cmds' & -> & Htake & Hsize').
  rewrite length_map, length_seq, Z2Nat.id in Htake by lia.
  unfold appended, filled in *. simpl commands_of.
  rewrite length_map, length_seq, Z2Nat.id by lia.
  destruct_machine m; simpl_fields in *.
  all: wp_steps; try exact I; no_wrap.
  all: eexists; split; [reflexivity|]; simpl_fields.
  all: repeat split; auto.
Qed.

Lemma send_start_appends t rest (m : machine ctx) :
  back_ready m -> tasks (I2C_QUEUE m) = t :: rest ->
  wp i2c_async_send_start
    (fun _ m' => appended (commands_of (address t) call_send_start) m m')
    any m.
Proof.
  intros Hr Ht. unfold i2c_async_send_start. wp_run; try exact I.
  unfold ring_buffer_get_first. wp_run. rewrite Ht. wp_run.
  eapply wp_conseq; [now apply produce_command_appends|].
  intros [] m1 Hm1. wp_run; try exact I.
  destruct (Z.leb_spec 1 (I2C_BUFFER_SIZE - buf_length (back (I2C_QUEUE m1))))
    as [Hroom|Hroom].
  2: { unfold i2c_produce_command. wp_run; try exact I. bool_to_prop. lia. }
  eapply wp_conseq.
  { apply produce_command_appends.
    apply (appended_ready _ _ _ Hm1 Hr).
    destruct Hm1 as (b' & -> & _ & Hl & _).
    destruct_machine m; simpl_fields in *; simpl in *; lia. }
  intros [] m2 Hm2. simpl. apply (appended_trans [_] [_] _ _ _ Hm1 Hm2).
Qed.

Lemma producer_appends_wp c t rest (m : machine ctx) :
  back_ready m -> tasks (I2C_QUEUE m) = t :: rest ->
  wp (producer c) (fun _ m' => appended (commands_of (address t) c) m m')
    any m.
Proof.
  intros Hr Ht. destruct c; simpl producer.
  - now apply produce_command_appends.
  - now apply send_bytes_appends.
  - now apply (send_start_appends t rest).
  - now apply produce_command_appends.
Qed.

(** X8.  A call of the producer API that completes has appended its
    commands to the back buffer, behind those that were there, and has
    changed nothing else: not the front buffer, the cursor or the current
    command, not the task queue, not the bus.  [i2c_async_send_start]
    takes the address from the task at the head of the queue. *)
Theorem producer_appends (c : producer_call) (t : i2c_task_t ctx)
    (rest : list (i2c_task_t ctx)) (m m' : machine ctx) :
  back_ready m ->
  tasks (I2C_QUEUE m) = t :: rest ->
  producer c m = Done tt m' ->
  appended (commands_of (address t) c) m m'.
Proof.
  intros Hr Ht Hrun.
  apply (wp_Done (producer c) _ any m tt m'
           (producer_appends_wp c t rest m Hr Ht) Hrun).
Qed.

(** Runs that end in a given fault. *)
Definition faults_with (category : fault_category) (code : Z)
    (R : machine ctx -> Prop) (f : failure ctx) : Prop :=
  match f with
  | fail_fault category' code' m =>
      category' = category /\ code' = code /\ R m
  | _ => False
  end.

Lemma wp_faults {A} (c : M ctx A) category code R (m : machine ctx) :
  wp c (fun _ _ => False) (faults_with category code R) m ->
  exists m', c m = Faulted category code m' /\ R m'.
Proof.
  unfold wp. destruct (c m) as [a m'|cat' code' m'|m'|]; simpl; try tauto.
  intros (-> & -> & HR). eauto.
Qed.

(** X9.  [i2c_async_send_start] for a task whose address has its lowest
    bit set faults at the assertion that checks it, after it has appended
    the start condition: the address byte is not appended. *)
Theorem send_start_odd_address (t : i2c_task_t ctx)
    (rest : list (i2c_task_t ctx)) (m : machine ctx) :
  back_ready m ->
  buf_length (back (I2C_QUEUE m)) < I2C_BUFFER_SIZE ->
  tasks (I2C_QUEUE m) = t :: rest ->
  Z.land (address t) 1 <> 0 ->
  exists m',
    i2c_async_send_start m = Faulted FAULT_ASSERTION 353 m' /\
    appended [mk_command I2C_COMMAND_START 0] m m'.
Proof.
  intros Hr Hroom Ht Hodd. apply wp_faults.
  unfold i2c_async_send_start. wp_run.
  2: { bool_to_prop. rewrite Ht in *. simpl length in *. lia. }
  unfold ring_buffer_get_first. wp_run. rewrite Ht. wp_run.
  destruct Hr as (Hfit & Hsize & Hlen). unfold i2c_produce_command.
  wp_run; [|bool_to_prop; lia].
  unfold write_back_command. wp_run.
  destruct (Z.ltb_spec (buf_length (back (I2C_QUEUE m))) 0); [lia|].
  destruct (lookup_lt_is_Some_2 (buf_commands (back (I2C_QUEUE m)))
              (Z.to_nat (buf_length (back (I2C_QUEUE m))))) as [c' Hc'];
    [lia|].
  rewrite Hc'. wp_run.
  all: bool_to_prop; try contradiction.
  simpl. repeat split; auto.
  unfold appended, filled. revert Hc' Hsize Hlen Hroom.
  destruct_machine m; simpl_fields; intros Hc' Hsize Hlen Hroom.
  all: eexists; split; [reflexivity|]; simpl_fields; no_wrap.
  all: match goal with
       | Hc' : ?cmds !! Z.to_nat ?i = Some _ |- _ =>
           rewrite (filled_write cmds i _ _ ltac:(lia) Hc'), length_insert
       end.
  all: repeat split; auto.
Qed.

(** X10.  A stop condition that is not the last command of the front
    buffer: the state machine sends it, marks the transmitter inactive,
    loads the next command and faults at the assertion that the
    transmitter is active.  A callback must end its invocation with
    [i2c_async_end_transmission] if it calls it. *)
Theorem stop_must_end_buffer (fuel : nat) (m : machine ctx) :
  SREG_I m = false ->
  transmitter_active (I2C_QUEUE m) = true ->
  cmd_code (current_command (I2C_QUEUE m)) = I2C_COMMAND_STOP ->
  0 <= front_buffer_cursor (I2C_QUEUE m) ->
  front_buffer_cursor (I2C_QUEUE m) + 1 < buf_length (front (I2C_QUEUE m)) ->
  buf_length (front (I2C_QUEUE m))
    <= Z.of_nat (length (buf_commands (front (I2C_QUEUE m)))) ->
  buf_length (front (I2C_QUEUE m)) <= 255 ->
  exists m',
    i2c_queue_process_command (S fuel) m = Faulted FAULT_ASSERTION 222 m' /\
    bus m' = bus m ++ [hw_send_stop_condition] /\
    transmitter_active (I2C_QUEUE m') = false.
Proof.
  intros Hi Hact Hcode Hcur Hnext Hsize Hlen. apply wp_faults.
  rewrite process_command_S.
  unfold process_command_body, process_command_advance.
  destruct_machine m; simpl_fields in *; subst sreg act cc.
  all: wp_steps; bool_to_prop; try discriminate; try solve [arith].
  all: try solve [simpl; auto].
  all: apply wp_read_command; simpl_fields; [arith|intros c Hc].
  all: wp_steps; bool_to_prop; try discriminate; simpl; auto.
Qed.

End Ownership.

(** ** Initialisation and waiting *)

Section InitWait.
Context {cfg : config} {ctx : Type}.

(** X11.  [i2c_init] completes from any state and resets the engine:
    whatever was queued or in flight is dropped without a stop condition
    or a fault, both buffers are empty with [buffer_a] in front, the
    current command is the pending sentinel, the bus is initialised, and
    [i2c_is_idle] answers true.  The command arrays and the task events
    are left as they were. *)
Theorem init_resets (m : machine ctx) :
  exists m',
    i2c_init m = Done tt m' /\
    i2c_is_idle m' = Done true m' /\
    tasks (I2C_QUEUE m') = [] /\
    tasks_n (I2C_QUEUE m') = 0 /\
    front_buffer (I2C_QUEUE m') = ref_buffer_a /\
    back_buffer (I2C_QUEUE m') = ref_buffer_b /\
    buf_length (buffer_a (I2C_QUEUE m')) = 0 /\
    buf_length (buffer_b (I2C_QUEUE m')) = 0 /\
    front_buffer_cursor (I2C_QUEUE m') = 0 /\
    cmd_code (current_command (I2C_QUEUE m')) = I2C_COMMAND_PENDING /\
    pending_buffer_switch (I2C_QUEUE m') = false /\
    transmitter_active (I2C_QUEUE m') = false /\
    buf_commands (buffer_a (I2C_QUEUE m'))
      = buf_commands (buffer_a (I2C_QUEUE m)) /\
    buf_commands (buffer_b (I2C_QUEUE m'))
      = buf_commands (buffer_b (I2C_QUEUE m)) /\
    bus m' = bus m ++ [hw_init] /\
    calls m' = calls m.
Proof.
  destruct m as [q sreg armed mem0 sch bs cl0].
  destruct q as [ts0 [la ca] [lb cb] fr bk act pend tn cur [cc cd]].
  eexists. split; [reflexivity|]. repeat split.
Qed.

(** X12.  When [i2c_wait] returns, the engine is idle: no task is
    queued, the transmitter is not active and all that was produced has
    been sent.  If the engine is idle already, [i2c_wait] returns at
    once and changes nothing. *)
Theorem wait_ends_idle (fuel polls : nat) (m : machine ctx) :
  0 <= I2C_QUEUE_SIZE <= 255 ->
  I2C_BUFFER_SIZE <= 255 ->
  reachable m ->
  (forall m',
     i2c_wait fuel polls m = Done tt m' ->
     i2c_is_idle m' = Done true m' /\
     tasks (I2C_QUEUE m') = [] /\
     transmitter_active (I2C_QUEUE m') = false /\
     wire (bus m') = map hw_of (produced (calls m'))) /\
  (i2c_is_idle m = Done true m -> i2c_wait fuel (S polls) m = Done tt m).
Proof.
  intros Hq Hfit Hr. split.
  - intros m' Hrun. pose proof (reach_wait _ _ _ _ Hr Hrun) as Hr'.
    destruct (wait_returns_idle _ _ _ _ Hrun) as [Hact Hn].
    destruct (reachable_inv m' Hq Hr') as (_ & Hcount & _).
    repeat split; auto.
    + rewrite is_idle_Done, Hact, Hn. reflexivity.
    + rewrite Hn in Hcount. destruct (tasks (I2C_QUEUE m')); [auto|].
      discriminate.
    + symmetry. exact (wired_inactive m' (reachable_wired Hfit m' Hr') Hact).
  - intros Hidle. simpl. unfold bind. now rewrite Hidle.
Qed.

End InitWait.

(** * display.c: the order of the update regions *)

(** [display.h] is not part of the sources at hand: [region_t] has the
    fields through which [display.c] accesses it. *)
Record region_t := mk_region {
  page : Z;
  start_column : Z;
  end_column : Z
}.

(** [cmp_regions_by_page], the comparison that [update_extents_optimize]
    hands to [qsort]. *)
Definition cmp_regions_by_page (a b : region_t) : Z :=
  Z.b2z (page b <? page a) - Z.b2z (page a <? page b).

(** X13.  [cmp_regions_by_page] is a three-way comparison of the pages
    of two regions, as [qsort] requires: it returns -1, 0 or 1 as the
    page of the first is less than, equal to or greater than that of the
    second, it is antisymmetric, and the order it induces is
    transitive.  The columns do not matter, so regions of the same page
    compare equal. *)
Theorem cmp_regions_by_page_order (a b c : region_t) :
  (cmp_regions_by_page a b = -1 <-> page a < page b) /\
  (cmp_regions_by_page a b = 0 <-> page a = page b) /\
  (cmp_regions_by_page a b = 1 <-> page a > page b) /\
  cmp_regions_by_page b a = - cmp_regions_by_page a b /\
  (cmp_regions_by_page a b <= 0 -> cmp_regions_by_page b c <= 0 ->
   cmp_regions_by_page a c <= 0).
Proof.
  unfold cmp_regions_by_page.
  destruct (Z.ltb_spec (page b) (page a)), (Z.ltb_spec (page a) (page b)),
    (Z.ltb_spec (page c) (page b)), (Z.ltb_spec (page b) (page c)),
    (Z.ltb_spec (page c) (page a)), (Z.ltb_spec (page a) (page c));
    simpl; lia.
Qed.

(** ** Tasks that are never served *)

Section Stalled.
Context {cfg : config} {ctx : Type}.

(** The engine is stalled: tasks are queued, and neither is the
    transmitter active nor an interrupt on its way. *)
Definition stalled (m : machine ctx) : Prop :=
  transmitter_active (I2C_QUEUE m) = false /\
  TWI_armed m = false /\
  0 < tasks_n (I2C_QUEUE m) /\
  tasks_n (I2C_QUEUE m) = Z.of_nat (length (tasks (I2C_QUEUE m))).

Lemma interrupt_not_armed handler twsr (m : machine ctx) :
  TWI_armed m = false -> interrupt handler twsr m = Done tt m.
Proof.
  intros H. unfold interrupt, bind, get. rewrite H, andb_false_r. reflexivity.
Qed.

Lemma interrupts_not_armed handler twsrs (m : machine ctx) :
  TWI_armed m = false -> interrupts handler twsrs m = Done tt m.
Proof.
  intros H. induction twsrs as [|twsr rest IH]; [reflexivity|].
  simpl. unfold bind. now rewrite interrupt_not_armed.
Qed.

Lemma preempt_not_armed handler (m : machine ctx) :
  TWI_armed m = false ->
  preempt handler m = Done tt (set_schedule (tail (schedule m)) m).
Proof.
  intros H. unfold preempt, bind, get.
  destruct m as [q s a mem [|twsrs sch] b cl]; [reflexivity|].
  simpl in *. now rewrite interrupts_not_armed.
Qed.

Lemma wait_stalled fuel polls : forall (m : machine ctx),
  stalled m -> i2c_wait fuel polls m = OutOfFuel.
Proof.
  induction polls as [|polls IH]; intros m (Hact & Harmed & Hn & Hcount);
    [reflexivity|].
  simpl. unfold bind. rewrite is_idle_Done, Hact.
  destruct (Z.eqb_spec (tasks_n (I2C_QUEUE m)) 0); [lia|]. simpl.
  rewrite preempt_not_armed by exact Harmed. apply IH.
  destruct m; repeat split; assumption.
Qed.

(** X14.  Once the engine is stalled it stays so: [i2c_wait] does not
    return however long it polls, the bus raises no interrupt, and
    enqueuing another task invokes no callback and sends nothing, since
    [i2c_transmit_async] fetches commands only when no task was
    queued. *)
Theorem stalled_engine_stays_stalled (m : machine ctx) :
  stalled m ->
  (forall fuel polls, i2c_wait fuel polls m = OutOfFuel) /\
  (forall fuel twsr, interrupt (TWI_vect fuel) twsr m = Done tt m) /\
  (forall fuel address callback data m',
     i2c_transmit_async fuel address callback data m = Done tt m' ->
     I2C_QUEUE_SIZE <= 255 ->
     stalled m' /\
     calls m' = calls m ++ [task_enqueued (mk_task callback data address)] /\
     bus m' = bus m).
Proof.
  intros Hs. split; [|split].
  - intros fuel polls. now apply wait_stalled.
  - intros fuel twsr. apply interrupt_not_armed, Hs.
  - intros fuel address callback data m' Hrun Hq.
    destruct Hs as (Hact & Harmed & Hn & Hcount). revert Hrun.
    unfold i2c_transmit_async, ATOMIC_RESTORESTATE,
      ring_buffer_assert_can_write_n_elements, ring_buffer_append.
    destruct m as [q sreg armed mem0 sch bs cl0].
    destruct q as [ts0 ba bb fr bk act pend tn cur cc].
    simpl in Hact, Harmed, Hn, Hcount. subst act armed.
    unfold i2c_is_idle, ATOMIC_RESTORESTATE. simpl_state.
    destruct (Z.leb_spec (Z.of_nat (length ts0) + 1) I2C_QUEUE_SIZE) as [Hroom|];
      [|discriminate].
    simpl. destruct (Z.eqb_spec tn 0); [lia|]. simpl.
    intros [= <-]. unfold stalled. simpl. rewrite length_app. simpl length.
    replace (u8 (tn + 1)) with (tn + 1) by arith.
    repeat split; lia.
Qed.

(** X15.  How the engine gets there: a task is queued, no buffer
    switch is pending, and the current command is a stop condition that
    ends the front buffer.  The interrupt that sends this stop condition
    marks the transmitter inactive and returns; it fetches no commands,
    because it does so only after a buffer switch.  So a task enqueued
    while the last buffer of its predecessor is on the bus is never
    served. *)
Theorem last_stop_strands_queued_tasks (fuel : nat) (twsr : Z) (m : machine ctx) :
  SREG_I m = true ->
  TWI_armed m = true ->
  transmitter_active (I2C_QUEUE m) = true ->
  pending_buffer_switch (I2C_QUEUE m) = false ->
  cmd_code (current_command (I2C_QUEUE m)) = I2C_COMMAND_STOP ->
  0 <= front_buffer_cursor (I2C_QUEUE m) ->
  front_buffer_cursor (I2C_QUEUE m) + 1 = buf_length (front (I2C_QUEUE m)) ->
  buf_length (front (I2C_QUEUE m)) <= 255 ->
  0 < tasks_n (I2C_QUEUE m) ->
  tasks_n (I2C_QUEUE m) = Z.of_nat (length (tasks (I2C_QUEUE m))) ->
  Z.land twsr TW_STATUS_MASK <= TW_MT_DATA_ACK ->
  Z.land twsr TW_STATUS_MASK <> TW_MT_SLA_NACK ->
  exists m',
    interrupt (TWI_vect (S fuel)) twsr m = Done tt m' /\
    stalled m' /\
    bus m' = bus m ++ [hw_send_stop_condition] /\
    calls m' = calls m /\
    tasks (I2C_QUEUE m') = tasks (I2C_QUEUE m).
Proof.
  intros Hi Harmed Hact Hp Hcode Hcur Hlast Hlen Hn Hcount Hack Hnack.
  assert (H : wp (interrupt (TWI_vect (S fuel)) twsr)
                (fun _ m' =>
                   stalled m' /\ bus m' = bus m ++ [hw_send_stop_condition] /\
                   calls m' = calls m /\
                   tasks (I2C_QUEUE m') = tasks (I2C_QUEUE m))
                never m).
  { unfold interrupt, TWI_vect, TWI_vect_body. rewrite process_command_S.
    unfold process_command_body, process_command_advance, stalled.
    destruct_machine m; simpl_fields in *; subst sreg armed act pend cc.
    all: wp_steps; bool_to_prop; try discriminate; try solve [arith].
    all: try solve [simpl; repeat split; auto]. }
  destruct (wp_never_Done _ _ _ H) as ([] & m' & Hrun & Hm'). eauto.
Qed.

End Stalled.
(** ** The faults of the engine *)

Section Faults.
Context {cfg : config} {ctx : Type}.

(** The codes of the commands that the state machine knows. *)
Definition is_command (code : Z) : Prop :=
  code = I2C_COMMAND_START \/ code = I2C_COMMAND_SEND_DATA \/
  code = I2C_COMMAND_STOP \/ code = I2C_COMMAND_PENDING.

(** The failures that the engine does not cause by itself: an error
    status of the bus that the interrupt handler reports, the current
    command being one that the state machine knows; an assertion that
    fails because of what a callback or the program does (a callback that
    produces nothing, line 131; commands behind a stop condition, 222; a
    full task queue, 289; a full command buffer, 309 and 331; no bytes to
    send, 330; an address with its lowest bit set, 353); and a run that
    is cut short. *)
Definition external (f : failure ctx) : Prop :=
  match f with
  | fail_fault FAULT_I2C code m =>
      (TW_MT_DATA_ACK < code \/ code = TW_MT_SLA_NACK) /\
      is_command (cmd_code (current_command (I2C_QUEUE m)))
  | fail_fault FAULT_ASSERTION line _ =>
      line = 131 \/ line = 222 \/ line = 289 \/ line = 309 \/ line = 330 \/
      line = 331 \/ line = 353
  | fail_bounds _ => False
  | fail_fuel => True
  end.

(** What holds besides [handed] whenever an interrupt may arrive. *)
Definition extras (m : machine ctx) : Prop :=
  let q := I2C_QUEUE m in
  within_capacity m /\
  (TWI_armed m = true -> transmitter_active q = true) /\
  (transmitter_active q = true -> 0 < buf_length (front q)) /\
  tasks_n q = Z.of_nat (length (tasks q)) /\
  Z.of_nat (length (tasks q)) <= I2C_QUEUE_SIZE.

Lemma wp_both {A} (c : M ctx A) (Q Q' : A -> machine ctx -> Prop) X
    (m : machine ctx) :
  wp c Q any m -> wp c Q' X m -> wp c (fun a m' => Q a m' /\ Q' a m') X m.
Proof. unfold wp. destruct (c m); auto. Qed.

Ltac unfold_extras :=
  unfold extras, within_capacity, buffer_within_capacity in *;
  simpl_fields in *.

Ltac cursor_in :=
  match goal with
  | Hend : ?cur = ?la -> ?cc = I2C_COMMAND_PENDING,
    Hat : ?cur < ?la -> _ !! _ = _ |- _ =>
      assert (cur < la)
        by (destruct (Z.eq_dec cur la) as [E|E];
            [specialize (Hend E); arith | lia]);
      specialize (Hat ltac:(assumption))
  end.

(** The code of the current command is one of the four. *)
Lemma handed_code P (m : machine ctx) :
  handed P m -> is_command (cmd_code (current_command (I2C_QUEUE m))).
Proof.
  intros ((Hne & Hcur & Hlen & Hback & Hat & Hend & Hprod & S & HP & HS) & _).
  unfold is_command.
  destruct (Z.eq_dec (front_buffer_cursor (I2C_QUEUE m))
              (buf_length (front (I2C_QUEUE m)))) as [E|E]; [tauto|].
  assert (Hlt : front_buffer_cursor (I2C_QUEUE m)
                < buf_length (front (I2C_QUEUE m))) by lia.
  specialize (Hat Hlt). unfold unsent, filled in HP.
  rewrite (unsent_next _ _ _ _ (conj (proj1 Hcur) Hlt) Hat) in HP.
  destruct (producible_next _ _ _ _ Hprod HP); tauto.
Qed.

Lemma process_command_extras fuel P (m : machine ctx) :
  handed P m -> extras m ->
  pending_buffer_switch (I2C_QUEUE m) = false ->
  SREG_I m = false ->
  transmitter_active (I2C_QUEUE m) = true ->
  wp (i2c_queue_process_command fuel)
    (fun _ m' => extras m' /\ SREG_I m' = false) external m.
Proof.
  intros H He Hp Hi Hact. destruct fuel as [|fuel]; [exact I|].
  pose proof (handed_code P m H) as Hcodes. unfold is_command in Hcodes.
  rewrite process_command_S.
  unfold process_command_body, process_command_advance.
  unfold handed, loaded, unsent, filled in *.
  destruct_machine m; unfold_extras;
    destruct H as ((Hne & Hcur & Hlen & Hback & Hat & Hend & Hprod & S & HP & HS)
                   & Hact' & Hpa);
    destruct He as (((Hsa & Hla & Hla') & (Hsb & Hlb & Hlb')) & Harm & Hfront
                    & Hn & Hq);
    try congruence; subst pend sreg act.
  all: wp_steps; bool_to_prop; try discriminate; try solve [arith].
  all: try solve [exfalso; simpl_fields in *; lia].
  all: try solve [simpl; repeat split; auto; try lia; try congruence; arith].
  all: try (apply wp_read_command; simpl_fields; [arith|intros c Hc]).
  all: try (wp_steps; bool_to_prop; try discriminate; try solve [arith]).
  all: try solve [simpl; repeat split; auto; try lia; try congruence; arith].
Qed.

(** [steady P m]: what holds whenever an interrupt may arrive. *)
Definition steady (P : list i2c_command_t) (m : machine ctx) : Prop :=
  handed P m /\ extras m.

Lemma process_command_steady fuel P (m : machine ctx) :
  steady P m ->
  pending_buffer_switch (I2C_QUEUE m) = false ->
  SREG_I m = false ->
  transmitter_active (I2C_QUEUE m) = true ->
  wp (i2c_queue_process_command fuel)
    (fun _ m' => (handed P m' /\ handler_frame m m') /\
                 (extras m' /\ SREG_I m' = false))
    external m.
Proof.
  intros [H He] Hp Hi Hact. apply wp_both.
  - now apply process_command_handed.
  - now apply (process_command_extras fuel P).
Qed.

Lemma TWI_vect_steady fuel twsr P (m : machine ctx) :
  steady P m ->
  pending_buffer_switch (I2C_QUEUE m) = false ->
  SREG_I m = false ->
  transmitter_active (I2C_QUEUE m) = true ->
  wp (TWI_vect_body (i2c_queue_process_command fuel) twsr)
    (fun _ m' => (handed P m' /\ handler_frame m m') /\
                 (extras m' /\ SREG_I m' = false))
    external m.
Proof.
  intros H Hp Hi Hact. unfold TWI_vect_body. wp_step. wp_step.
  - wp_step. simpl. bool_to_prop. split; [lia|].
    apply (handed_code P), H.
  - wp_step. now apply process_command_steady.
Qed.

(** Raising interrupts keeps what the handler keeps, when that depends
    on the queue, the task events and the bus, and implies that the
    transmitter is active when an interrupt is on its way. *)
Section Served.
Variable handler : Z -> M ctx unit.
Variable J : machine ctx -> Prop.
Hypothesis J_frame : forall m m',
  I2C_QUEUE m' = I2C_QUEUE m -> calls m' = calls m -> bus m' = bus m ->
  (TWI_armed m' = true -> TWI_armed m = true) ->
  J m -> J m'.
Hypothesis J_active : forall m,
  J m -> TWI_armed m = true -> transmitter_active (I2C_QUEUE m) = true.
Hypothesis handler_keeps : forall twsr m,
  J m -> SREG_I m = false -> transmitter_active (I2C_QUEUE m) = true ->
  wp (handler twsr) (fun _ m' => J m') external m.

Lemma interrupt_served twsr (m : machine ctx) :
  J m -> wp (interrupt handler twsr) (fun _ m' => J m') external m.
Proof.
  intros H. unfold interrupt. wp_step. wp_step. wp_step; [|wp_step; exact H].
  bool_to_prop. wp_step. wp_step. wp_step.
  eapply wp_conseq.
  - apply handler_keeps; simpl_fields; auto.
    revert H. apply J_frame; auto.
  - intros [] m' H'. wp_step. revert H'. now apply J_frame.
Qed.

Lemma interrupts_served twsrs (m : machine ctx) :
  J m -> wp (interrupts handler twsrs) (fun _ m' => J m') external m.
Proof.
  revert m. induction twsrs as [|twsr rest IH]; intros m H; simpl.
  - wp_step. exact H.
  - wp_step. eapply wp_conseq; [now apply interrupt_served|].
    intros [] m' H'. now apply IH.
Qed.

Lemma preempt_served (m : machine ctx) :
  J m -> wp (preempt handler) (fun _ m' => J m') external m.
Proof.
  intros H. unfold preempt. wp_step. wp_step.
  destruct (schedule m) as [|twsrs rest] eqn:E.
  - wp_step. exact H.
  - wp_step. wp_step. apply interrupts_served.
    revert H. now apply J_frame.
Qed.

End Served.

(** *** While a callback fills the back buffer *)

Definition filling_steady (P : list i2c_command_t) (ts : list (i2c_task_t ctx))
    (cl : list (task_event ctx)) (k : Z) (done : list i2c_command_t)
    (m : machine ctx) : Prop :=
  filling P ts cl k done m /\ extras m.

Section Producing.
Hypothesis buffer_fits : I2C_BUFFER_SIZE <= 255.
Hypothesis queue_fits : I2C_QUEUE_SIZE <= 255.

Lemma wp_write_back_command_Some i c Q X (m : machine ctx) :
  0 <= i < Z.of_nat (length (buf_commands (back (I2C_QUEUE m)))) ->
  (forall c',
     buf_commands (back (I2C_QUEUE m)) !! Z.to_nat i = Some c' ->
     Q tt (set_I2C_QUEUE
             (assign (back_buffer (I2C_QUEUE m))
                (mk_buffer (buf_length (back (I2C_QUEUE m)))
                   (<[Z.to_nat i := c]> (buf_commands (back (I2C_QUEUE m)))))
                (I2C_QUEUE m)) m)) ->
  wp (write_back_command i c) Q X m.
Proof.
  intros Hi HQ. unfold write_back_command. wp_step. wp_step.
  destruct (Z.ltb_spec i 0); [lia|].
  destruct (lookup_lt_is_Some_2 (buf_commands (back (I2C_QUEUE m))) (Z.to_nat i))
    as [c' Hc']; [lia|].
  simpl_fields in *. rewrite Hc'. wp_step. eauto.
Qed.

Lemma produce_command_extras code data (m : machine ctx) :
  front_buffer (I2C_QUEUE m) <> back_buffer (I2C_QUEUE m) ->
  extras m ->
  wp (i2c_produce_command code data) (fun _ m' => extras m') external m.
Proof.
  intros Hne He. unfold i2c_produce_command.
  destruct_machine m; unfold_extras;
    destruct He as (((Hsa & Hla & Hla') & (Hsb & Hlb & Hlb')) & Harm & Hfront
                    & Hn & Hq);
    try congruence.
  all: wp_steps; bool_to_prop; try solve [simpl; auto 10].
  all: apply wp_write_back_command; simpl_fields; [lia|].
  all: wp_steps; no_wrap; rewrite ?length_insert.
  all: repeat split; auto; lia.
Qed.

Lemma filling_ne P ts cl k done (m : machine ctx) :
  filling P ts cl k done m ->
  front_buffer (I2C_QUEUE m) <> back_buffer (I2C_QUEUE m).
Proof. intros (((Hne & _) & _) & _). exact Hne. Qed.

Lemma produce_command_steady code data P ts cl done (m : machine ctx) :
  filling_steady P ts cl 0 done m ->
  wp (i2c_produce_command code data)
    (fun _ m' => filling_steady P ts cl 0 (done ++ [mk_command code data]) m')
    external m.
Proof.
  intros [H He]. apply wp_both.
  - now apply produce_command_filling.
  - apply produce_command_extras; eauto using filling_ne.
Qed.

Lemma send_bytes_loop_extras base data count : forall i (m : machine ctx),
  front_buffer (I2C_QUEUE m) <> back_buffer (I2C_QUEUE m) ->
  extras m ->
  base = buf_length (back (I2C_QUEUE m)) ->
  0 <= i -> base + i + Z.of_nat count <= I2C_BUFFER_SIZE ->
  wp (send_bytes_loop base data i count)
    (fun _ m' => extras m' /\
                 front_buffer (I2C_QUEUE m') <> back_buffer (I2C_QUEUE m') /\
                 buf_length (back (I2C_QUEUE m')) = base)
    external m.
Proof.
  induction count as [|count IH]; intros i m Hne He Hbase Hi Hc; simpl.
  - wp_step. auto.
  - wp_step.
    destruct_machine m; unfold_extras;
      destruct He as (((Hsa & Hla & Hla') & (Hsb & Hlb & Hlb')) & Harm & Hfront
                      & Hn & Hq);
      try congruence.
    all: apply wp_write_back_command; simpl_fields; [lia|].
    all: apply IH; simpl_fields; rewrite ?length_insert; try lia; auto.
    all: repeat split; auto; lia.
Qed.

Lemma send_bytes_extras data n (m : machine ctx) :
  front_buffer (I2C_QUEUE m) <> back_buffer (I2C_QUEUE m) ->
  extras m ->
  wp (i2c_async_send_bytes data n) (fun _ m' => extras m') external m.
Proof.
  intros Hne He. unfold i2c_async_send_bytes.
  wp_run; try solve [simpl; auto 10]. bool_to_prop.
  eapply wp_conseq.
  { apply send_bytes_loop_extras; eauto; lia. }
  intros [] m1 (He1 & Hne1 & Hlen1). rewrite <- Hlen1 in *.
  clear Hlen1 He Hne.
  destruct_machine m1; unfold_extras;
    destruct He1 as (((Hsa & Hla & Hla') & (Hsb & Hlb & Hlb')) & Harm & Hfront
                     & Hn & Hq);
    try congruence.
  all: wp_steps; bool_to_prop; no_wrap; try lia.
  all: repeat split; auto; lia.
Qed.

Lemma send_bytes_steady data n address P ts cl done (m : machine ctx) :
  filling_steady P ts cl 0 done m ->
  wp (i2c_async_send_bytes data n)
    (fun _ m' =>
       filling_steady P ts cl 0
         (done ++ commands_of address (call_send_bytes data n)) m')
    external m.
Proof.
  intros [H He]. apply wp_both.
  - now apply send_bytes_filling.
  - apply send_bytes_extras; eauto using filling_ne.
Qed.

Lemma send_start_steady P t rest cl done (m : machine ctx) :
  filling_steady P (t :: rest) cl 0 done m ->
  wp i2c_async_send_start
    (fun _ m' =>
       filling_steady P (t :: rest) cl 0
         (done ++ commands_of (address t) call_send_start) m')
    external m.
Proof.
  intros H. unfold i2c_async_send_start.
  assert (Ht : tasks (I2C_QUEUE m) = t :: rest) by apply H.
  wp_run.
  2: { bool_to_prop. rewrite Ht in *. simpl length in *. lia. }
  unfold ring_buffer_get_first. wp_run. rewrite Ht. wp_run.
  eapply wp_conseq; [exact (produce_command_steady _ _ _ _ _ _ m H)|].
  intros [] m1 Hm1. wp_run; [|simpl; auto 10].
  eapply wp_conseq; [exact (produce_command_steady _ _ _ _ _ _ m1 Hm1)|].
  intros [] m2 Hm2. simpl. now rewrite <- app_assoc in Hm2.
Qed.

Lemma producer_steady c P t rest cl done (m : machine ctx) :
  filling_steady P (t :: rest) cl 0 done m ->
  wp (producer c)
    (fun _ m' =>
       filling_steady P (t :: rest) cl 0 (done ++ commands_of (address t) c) m')
    external m.
Proof.
  intros H. destruct c; simpl producer.
  - now apply produce_command_steady.
  - now apply send_bytes_steady.
  - now apply send_start_steady.
  - now apply produce_command_steady.
Qed.

Lemma extras_frame (m m' : machine ctx) :
  I2C_QUEUE m' = I2C_QUEUE m ->
  (TWI_armed m' = true -> TWI_armed m = true) ->
  extras m -> extras m'.
Proof.
  unfold extras, within_capacity. intros -> Harm (Hcap & Ha & Hrest).
  repeat split; try apply Hcap; try apply Hrest. auto.
Qed.

Lemma filling_steady_frame P ts cl k done (m m' : machine ctx) :
  I2C_QUEUE m' = I2C_QUEUE m -> calls m' = calls m -> bus m' = bus m ->
  (TWI_armed m' = true -> TWI_armed m = true) ->
  filling_steady P ts cl k done m -> filling_steady P ts cl k done m'.
Proof.
  intros Hq Hc Hb Ha [H He]. split.
  - revert H. now apply filling_frame.
  - revert He. now apply extras_frame.
Qed.

Lemma handler_steady fuel twsr P ts cl done (m : machine ctx) :
  filling_steady P ts cl 0 done m ->
  SREG_I m = false -> transmitter_active (I2C_QUEUE m) = true ->
  wp (TWI_vect_body (i2c_queue_process_command fuel) twsr)
    (fun _ m' => filling_steady P ts cl 0 done m') external m.
Proof.
  intros [(H & Hp & Hts & Hcl & Hdone) He] Hi Hact.
  eapply wp_conseq; [apply (TWI_vect_steady fuel twsr P); auto; now split|].
  intros [] m' ((H' & Hf) & He' & Hi').
  pose proof (handler_frame_back _ _ Hf) as Hbk.
  destruct Hf as (Ht' & _ & _ & _ & _ & _ & Hp' & Hc' & _).
  split; [|exact He']. unfold filling. rewrite Hbk, Ht', Hc'. auto.
Qed.

Lemma preempt_steady fuel P ts cl done (m : machine ctx) :
  filling_steady P ts cl 0 done m ->
  wp (preempt (TWI_vect_body (i2c_queue_process_command fuel)))
    (fun _ m' => filling_steady P ts cl 0 done m') external m.
Proof.
  apply preempt_served.
  - intros m1 m2. apply filling_steady_frame.
  - intros m1 [_ (_ & Harm & _)]. exact Harm.
  - intros twsr m1. apply handler_steady.
Qed.

Lemma run_calls_steady fuel cs P t rest cl : forall done (m : machine ctx),
  filling_steady P (t :: rest) cl 0 done m ->
  wp (run_calls (TWI_vect_body (i2c_queue_process_command fuel)) cs)
    (fun _ m' =>
       filling_steady P (t :: rest) cl 0
         (done ++ concat (map (commands_of (address t)) cs)) m')
    external m.
Proof.
  induction cs as [|c cs IH]; intros done m H; simpl.
  - wp_step. now rewrite app_nil_r.
  - wp_step. eapply wp_conseq; [exact (preempt_steady _ _ _ _ _ m H)|].
    intros [] m1 Hm1. wp_step.
    eapply wp_conseq; [exact (producer_steady c _ _ _ _ _ m1 Hm1)|].
    intros [] m2 Hm2. rewrite app_assoc. now apply IH.
Qed.

Lemma call_task_steady fuel P t rest cl (m : machine ctx) :
  filling_steady P (t :: rest) cl 0 [] m ->
  wp (call_task (TWI_vect_body (i2c_queue_process_command fuel)) t)
    (fun keep_task m' =>
       exists cs,
         filled_by P (cl ++ [task_called t cs keep_task])
           (concat (map (commands_of (address t)) cs)) m' /\
         tasks (I2C_QUEUE m') = t :: rest /\
         extras m' /\ SREG_I m' = false)
    external m.
Proof.
  intros H. unfold call_task. wp_steps.
  destruct (callback t (memory m (task_data t))) as [[cs c'] keep_task].
  wp_step. eapply wp_conseq.
  { apply (run_calls_steady fuel cs P t rest cl [] (set_SREG_I true m)).
    revert H. now apply filling_steady_frame. }
  intros [] m1 Hm1. wp_steps.
  eapply wp_conseq.
  { apply (preempt_steady fuel P (t :: rest) cl
             (concat (map (commands_of (address t)) cs))).
    revert Hm1. now apply filling_steady_frame. }
  intros [] m2 [Hm2 He2]. wp_steps. exists cs.
  destruct Hm2 as (Hh & Hp & Ht & Hc & Hd).
  split; [|split; [exact Ht|split; [|reflexivity]]].
  - unfold filled_by, filled, handed, loaded in *. simpl_fields.
    rewrite Z.add_0_r in Hd. rewrite Hc. auto.
  - revert He2. now apply extras_frame.
Qed.

(** *** The buffer switch *)

Lemma switch_buffers_extras (m : machine ctx) :
  front_buffer (I2C_QUEUE m) <> back_buffer (I2C_QUEUE m) ->
  extras m ->
  0 < buf_length (back (I2C_QUEUE m)) ->
  front_buffer_cursor (I2C_QUEUE m) = buf_length (front (I2C_QUEUE m)) ->
  wp i2c_queue_switch_buffers
    (fun _ m' => extras m' /\ SREG_I m' = SREG_I m) external m.
Proof.
  intros Hne He Hb Hc. unfold i2c_queue_switch_buffers.
  destruct_machine m; unfold_extras;
    destruct He as (((Hsa & Hla & Hla') & (Hsb & Hlb & Hlb')) & Harm & Hfront
                    & Hn & Hq);
    try congruence.
  all: wp_steps; bool_to_prop; try lia.
  all: apply wp_read_command; simpl_fields; [lia|intros c Hc'].
  all: wp_steps; repeat split; auto; lia.
Qed.

Lemma switch_buffers_steady P (m : machine ctx) :
  queued P m -> Forall producible (filled (back (I2C_QUEUE m))) ->
  extras m ->
  0 < buf_length (back (I2C_QUEUE m)) ->
  front_buffer_cursor (I2C_QUEUE m) = buf_length (front (I2C_QUEUE m)) ->
  wp i2c_queue_switch_buffers
    (fun _ m' =>
       (loaded (P ++ filled (back (I2C_QUEUE m))) m' /\
        pending_buffer_switch (I2C_QUEUE m') = false /\
        buf_length (back (I2C_QUEUE m')) = 0 /\
        front_buffer_cursor (I2C_QUEUE m') < buf_length (front (I2C_QUEUE m')) /\
        tasks (I2C_QUEUE m') = tasks (I2C_QUEUE m) /\
        tasks_n (I2C_QUEUE m') = tasks_n (I2C_QUEUE m) /\
        transmitter_active (I2C_QUEUE m') = transmitter_active (I2C_QUEUE m) /\
        calls m' = calls m) /\
       (extras m' /\ SREG_I m' = SREG_I m))
    external m.
Proof.
  intros H Hback He Hb Hc. apply wp_both.
  - now apply switch_buffers_loaded.
  - apply switch_buffers_extras; auto. apply H.
Qed.

Lemma loaded_current P (m : machine ctx) :
  loaded P m ->
  front_buffer_cursor (I2C_QUEUE m) < buf_length (front (I2C_QUEUE m)) ->
  cmd_code (current_command (I2C_QUEUE m)) <> I2C_COMMAND_PENDING.
Proof.
  intros (Hne & Hcur & Hlen & Hback & Hat & Hend & Hprod & S & HP & HS) Hlt.
  specialize (Hat Hlt). unfold unsent, filled in HP.
  rewrite (unsent_next _ _ _ _ (conj (proj1 Hcur) Hlt) Hat) in HP.
  destruct (producible_next _ _ _ _ Hprod HP) as [Hc|[Hc|Hc]];
    rewrite Hc; discriminate.
Qed.

Lemma start_transmitter_steady fuel P (m : machine ctx) :
  loaded P m -> extras m ->
  pending_buffer_switch (I2C_QUEUE m) = false ->
  transmitter_active (I2C_QUEUE m) = false ->
  front_buffer_cursor (I2C_QUEUE m) < buf_length (front (I2C_QUEUE m)) ->
  SREG_I m = false ->
  wp (i2c_queue_start_transmitter (i2c_queue_process_command fuel))
    (fun _ m' => (handed P m' /\ handler_frame m m') /\
                 (extras m' /\ SREG_I m' = false))
    external m.
Proof.
  intros H He Hp Hact Hlt Hi. pose proof (loaded_current P m H Hlt) as Hcode.
  unfold i2c_queue_start_transmitter. wp_run.
  2: { bool_to_prop. contradiction. }
  2: { bool_to_prop. congruence. }
  eapply wp_conseq.
  { apply (process_command_steady fuel P).
    - split.
      + revert H. unfold handed, loaded, unsent, filled.
        destruct_machine m; simpl_fields; tauto.
      + assert (Hcur : 0 <= front_buffer_cursor (I2C_QUEUE m)) by apply H.
        revert He Hlt Hcur. unfold_extras.
        destruct_machine m; simpl_fields; intros He Hlt Hcur;
          repeat split; try apply He; auto; lia.
    - destruct_machine m; exact Hp.
    - destruct_machine m; exact Hi.
    - destruct_machine m; reflexivity. }
  intros [] m' ((H' & Hf) & He'). split; [split; [exact H'|]|exact He'].
  revert Hf. unfold handler_frame. destruct_machine m; simpl_fields; tauto.
Qed.

Lemma switch_tasks_steady P cl done t rest (m : machine ctx) :
  filled_by P cl done m ->
  tasks (I2C_QUEUE m) = t :: rest ->
  extras m -> SREG_I m = false ->
  wp i2c_queue_switch_tasks
    (fun _ m' => filled_by P cl done m' /\ extras m' /\ SREG_I m' = false /\
                 back (I2C_QUEUE m') = back (I2C_QUEUE m))
    external m.
Proof.
  intros H Ht He Hi. unfold i2c_queue_switch_tasks. wp_steps.
  - split; [|split; [|split]].
    + revert H. unfold filled_by, handed, loaded, unsent, filled.
      destruct_machine m; simpl_fields; tauto.
    + revert He Ht. unfold_extras.
      destruct_machine m; simpl_fields; intros He ->; simpl length in *;
        destruct He as (Hcap & Harm & Hfront & Hn & Hq);
        repeat split; try apply Hcap; auto; try arith.
    + exact Hi.
    + destruct_machine m; reflexivity.
  - bool_to_prop. rewrite Ht in *. simpl length in *. lia.
  - bool_to_prop. congruence.
Qed.

(** *** Between two operations *)

(** [sound m]: what holds between two operations of the engine. *)
Definition sound (m : machine ctx) : Prop :=
  wired m /\ extras m /\
  (pending_buffer_switch (I2C_QUEUE m) = true ->
   0 < buf_length (back (I2C_QUEUE m))).

Lemma sound_frame (m m' : machine ctx) :
  I2C_QUEUE m' = I2C_QUEUE m -> calls m' = calls m -> bus m' = bus m ->
  (TWI_armed m' = true -> TWI_armed m = true) ->
  sound m -> sound m'.
Proof.
  intros Hq Hc Hb Ha (Hw & He & Hp). split; [|split].
  - revert Hw. now apply wired_frame.
  - revert He. now apply extras_frame.
  - now rewrite Hq.
Qed.

Lemma sound_empty (m : machine ctx) :
  handed (produced (calls m)) m ->
  pending_buffer_switch (I2C_QUEUE m) = false ->
  buf_length (back (I2C_QUEUE m)) = 0 ->
  extras m -> sound m.
Proof.
  intros H Hp Hb He. split; [|split; [exact He|congruence]].
  exists (produced (calls m)).
  rewrite (filled_empty _ Hb), app_nil_r. auto.
Qed.

Lemma handed_at_end P (m : machine ctx) :
  handed P m -> transmitter_active (I2C_QUEUE m) = false ->
  front_buffer_cursor (I2C_QUEUE m) = buf_length (front (I2C_QUEUE m)).
Proof.
  intros ((_ & Hcur & _) & Hact & _) Hidle.
  destruct (Z.eq_dec (front_buffer_cursor (I2C_QUEUE m))
              (buf_length (front (I2C_QUEUE m)))) as [E|E]; [exact E|].
  rewrite Hact in Hidle by lia. discriminate.
Qed.

Lemma fetch_commands_loop_sound fuel : forall (m : machine ctx),
  handed (produced (calls m)) m ->
  pending_buffer_switch (I2C_QUEUE m) = false ->
  buf_length (back (I2C_QUEUE m)) = 0 ->
  extras m -> SREG_I m = false ->
  wp (i2c_queue_fetch_commands_loop fuel)
    (fun _ m' => sound m' /\ SREG_I m' = false) external m.
Proof.
  induction fuel as [|fuel IH]; intros m H Hp Hb He Hi; [exact I|].
  rewrite fetch_commands_loop_S. unfold fetch_commands_turn.
  wp_step. wp_step. wp_step.
  { wp_step. split; [|exact Hi]. now apply sound_empty. }
  wp_step. unfold ring_buffer_get_first. wp_step. wp_step.
  destruct (tasks (I2C_QUEUE m)) as [|t rest] eqn:Ets.
  { bool_to_prop. destruct He as (_ & _ & _ & Hn & _).
    rewrite Ets in Hn. simpl in Hn. lia. }
  wp_run.
  2: { bool_to_prop. congruence. }
  eapply wp_conseq.
  { apply (call_task_steady fuel (produced (calls m)) t rest (calls m)).
    split; [|exact He]. unfold filling. rewrite Hb. auto. }
  intros keep_task m1 (cs & Hm1 & Ht1 & He1 & Hi1). wp_run.
  2: { simpl; auto 10. }
  bool_to_prop.
  eapply wp_conseq with
    (Q := fun _ m' =>
            filled_by (produced (calls m))
              (calls m ++ [task_called t cs keep_task])
              (concat (map (commands_of (address t)) cs)) m' /\
            extras m' /\ SREG_I m' = false /\
            back (I2C_QUEUE m') = back (I2C_QUEUE m1)).
  { destruct keep_task; cbn [negb].
    - wp_step. auto.
    - now apply (switch_tasks_steady _ _ _ t rest). }
  intros [] m2 ((Hh2 & Hp2 & Hc2 & Hd2) & He2 & Hi2 & Hbk2). wp_run. wp_step.
  - (* the transmitter is not active: switch and start it again *)
    bool_to_prop.
    wp_step. eapply wp_conseq.
    { apply (switch_buffers_steady (produced (calls m)));
        [apply loaded_queued, Hh2| |exact He2| |].
      - rewrite Hd2. apply producible_calls.
      - rewrite Hbk2. lia.
      - now apply (handed_at_end _ _ Hh2). }
    intros [] m3 ((Hl3 & Hp3 & Hb3 & Hlt3 & _ & _ & Hact3 & Hc3) & He3 & Hi3).
    wp_step.
    eapply wp_conseq.
    { apply (start_transmitter_steady fuel _ m3 Hl3 He3 Hp3); auto; congruence. }
    intros [] m4 ((Hh4 & Hf4) & He4 & Hi4).
    pose proof (handler_frame_back _ _ Hf4) as Hbk.
    destruct Hf4 as (_ & _ & _ & _ & _ & _ & Hp4 & Hc4 & _).
    apply IH; auto; [|now rewrite Hbk].
    rewrite Hc4, Hc3, Hc2, produced_app. simpl. rewrite app_nil_r.
    now rewrite Hd2 in Hh4.
  - (* the transmitter is active: it will switch *)
    wp_step. bool_to_prop. split; [|exact Hi2]. split; [|split].
    + exists (produced (calls m)).
      match goal with
      | Ha : transmitter_active (I2C_QUEUE m2) = true |- _ =>
          revert Hh2 Hp2 Hc2 Hd2 Ha
      end. unfold handed, loaded, unsent, filled.
      destruct_machine m2; simpl_fields; intros Hh2 Hp2 Hc2 Hd2 Hact.
      all: rewrite Hc2, Hd2, produced_app; simpl; rewrite app_nil_r.
      all: repeat split; try tauto; try congruence.
    + revert He2. unfold_extras. destruct_machine m2; simpl_fields; tauto.
    + intros _. rewrite <- Hbk2 in *.
      destruct_machine m2; simpl_fields in *; lia.
Qed.

Lemma fetch_commands_sound fuel (m : machine ctx) :
  handed (produced (calls m)) m ->
  pending_buffer_switch (I2C_QUEUE m) = false ->
  buf_length (back (I2C_QUEUE m)) = 0 ->
  extras m -> SREG_I m = false ->
  0 < tasks_n (I2C_QUEUE m) ->
  wp (i2c_queue_fetch_commands fuel)
    (fun _ m' => sound m' /\ SREG_I m' = false) external m.
Proof.
  intros H Hp Hb He Hi Hn. destruct fuel as [|fuel]; [exact I|].
  rewrite fetch_commands_S. unfold fetch_commands_body.
  wp_run; bool_to_prop; try congruence; try lia.
  now apply fetch_commands_loop_sound.
Qed.

(** After a buffer switch made by the state machine. *)
Lemma fetch_if_tasks_sound fuel (m : machine ctx) :
  handed (produced (calls m)) m ->
  pending_buffer_switch (I2C_QUEUE m) = false ->
  buf_length (back (I2C_QUEUE m)) = 0 ->
  extras m -> SREG_I m = false ->
  wp (q <- get_queue ;;
      if 0 <? tasks_n q then i2c_queue_fetch_commands fuel else ret tt)
    (fun _ m' => sound m' /\ SREG_I m' = false) external m.
Proof.
  intros H Hp Hb He Hi. wp_run. wp_step.
  - bool_to_prop. now apply fetch_commands_sound.
  - wp_step. split; [|exact Hi]. now apply sound_empty.
Qed.

Lemma process_command_advance_sound fuel P (m : machine ctx) :
  advancing P m ->
  pending_buffer_switch (I2C_QUEUE m) = true ->
  P ++ filled (back (I2C_QUEUE m)) = produced (calls m) ->
  extras m -> 0 < buf_length (back (I2C_QUEUE m)) -> SREG_I m = false ->
  wp (process_command_advance (i2c_queue_process_command fuel)
        (i2c_queue_fetch_commands fuel))
    (fun _ m' => sound m' /\ SREG_I m' = false) external m.
Proof.
  intros H Hp HPB He Hbl Hi. unfold process_command_advance.
  wp_run. simpl_fields. rewrite Hp. wp_step.
  - (* the front buffer is consumed and the back buffer is ready *)
    wp_step. eapply wp_conseq.
    { apply (switch_buffers_steady P).
      - revert H Heqb. unfold advancing, queued, unsent, filled.
        destruct_machine m; simpl_fields; intros H Hc; bool_to_prop;
          destruct H as (Hne & Hcur & Hlen & Hb & Hprod & S & HP & HS);
          try congruence; no_wrap.
        all: repeat split; auto; try lia; eauto.
      - assert (Hall : Forall producible (P ++ filled (back (I2C_QUEUE m))))
          by (rewrite HPB; apply producible_produced).
        apply Forall_app in Hall as [_ Hall].
        revert Hall. destruct_machine m; simpl_fields; auto.
      - revert He. unfold_extras. destruct_machine m; simpl_fields; tauto.
      - revert Hbl. destruct_machine m; simpl_fields; tauto.
      - bool_to_prop. assumption. }
    simpl_fields.
    intros [] m2 ((Hl2 & Hp2 & Hb2 & Hcur2 & _ & _ & Hact2 & Hc2) & He2 & Hi2).
    assert (HP2 : P ++ filled (back (I2C_QUEUE m)) = produced (calls m2)).
    { rewrite HPB, Hc2. destruct_machine m; reflexivity. }
    replace (filled (back (set_front_buffer_cursor
                             (u8 (front_buffer_cursor (I2C_QUEUE m) + 1))
                             (I2C_QUEUE m))))
      with (filled (back (I2C_QUEUE m))) in *
      by (destruct_machine m; reflexivity).
    rewrite HP2 in Hl2. wp_run.
    eapply wp_conseq with
      (Q := fun _ m' => handed (produced (calls m')) m' /\
                        pending_buffer_switch (I2C_QUEUE m') = false /\
                        buf_length (back (I2C_QUEUE m')) = 0 /\
                        extras m' /\ SREG_I m' = false).
    { wp_step.
      - bool_to_prop. eapply wp_conseq.
        { apply (start_transmitter_steady fuel _ m2 Hl2 He2 Hp2); auto.
          rewrite Hi2. destruct_machine m; exact Hi. }
        intros [] m3 ((Hh3 & Hf3) & He3 & Hi3).
        pose proof (handler_frame_back _ _ Hf3) as Hbk.
        destruct Hf3 as (_ & _ & _ & _ & _ & _ & Hp3 & Hc3 & _).
        rewrite Hc3, Hbk. auto.
      - wp_step. bool_to_prop. repeat split; auto; try apply Hl2;
          try apply He2; congruence. }
    intros [] m3 (Hh3 & Hp3 & Hb3 & He3 & Hi3).
    now apply fetch_if_tasks_sound.
  - (* the next command of the front buffer *)
    wp_step.
    assert (Hx : True) by exact I.
    revert H Hp HPB He Hbl Hi Heqb.
    unfold advancing, handed, loaded, unsent, filled.
    destruct_machine m; unfold_extras;
      intros H Hp HPB He Hbl Hi Hne'; bool_to_prop;
      destruct H as (Hne & Hcur & Hlen & Hb & Hprod & S & HP & HS);
      destruct He as (((Hsa & Hla & Hla') & (Hsb & Hlb & Hlb')) & Harm & Hfront
                      & Hn & Hq);
      try congruence; no_wrap.
    all: apply wp_read_command; simpl_fields; [lia|intros c Hc].
    all: wp_run; [|simpl; auto 10].
    all: split; [|exact Hi]; split; [|split].
    all: try (exists P; unfold handed, loaded, unsent, filled; simpl_fields;
              repeat split; auto; try lia; try congruence; eauto).
    all: unfold_extras; repeat split; auto; try lia.
Qed.

Lemma process_command_sound fuel (m : machine ctx) :
  sound m -> SREG_I m = false ->
  transmitter_active (I2C_QUEUE m) = true ->
  wp (i2c_queue_process_command fuel)
    (fun _ m' => sound m' /\ SREG_I m' = false) external m.
Proof.
  intros ((P & H & HPB & Hb) & He & Hbl) Hi Hact.
  destruct (pending_buffer_switch (I2C_QUEUE m)) eqn:Hp.
  2: { eapply wp_conseq;
         [apply (process_command_steady fuel P); auto; now split|].
       intros [] m' ((H' & Hf) & He' & Hi'). split; [|exact Hi'].
       split; [eapply handler_frame_wired; eauto|].
       split; [exact He'|]. destruct Hf as (_ & _ & _ & _ & _ & _ & Hp' & _).
       congruence. }
  clear Hb. specialize (Hbl eq_refl).
  pose proof (handed_code P m H) as Hcodes. unfold is_command in Hcodes.
  destruct fuel as [|fuel]; [exact I|].
  rewrite process_command_S. unfold process_command_body.
  wp_run.
  2-5: bool_to_prop; try congruence;
       destruct H as ((_ & Hcur & _) & _); destruct He as (_ & _ & Hf & _);
       specialize (Hf Hact); lia.
  rewrite Hp.
  assert (Hadv : forall h (m' : machine ctx),
    I2C_QUEUE m' = I2C_QUEUE m \/
    I2C_QUEUE m' = set_transmitter_active false (I2C_QUEUE m) ->
    calls m' = calls m -> bus m' = bus m ++ [h] -> on_wire h = true ->
    hw_of (current_command (I2C_QUEUE m)) = h ->
    cmd_code (current_command (I2C_QUEUE m)) <> I2C_COMMAND_PENDING ->
    (TWI_armed m' = true -> transmitter_active (I2C_QUEUE m') = true) ->
    SREG_I m' = false ->
    wp (process_command_advance (i2c_queue_process_command fuel)
          (i2c_queue_fetch_commands fuel))
      (fun _ m' => sound m' /\ SREG_I m' = false) external m').
  { intros h m' Hq Hc Hbus Hw Hh Hcode Harm' Hi'.
    assert (Hq' : pending_buffer_switch (I2C_QUEUE m') = true /\
                  back (I2C_QUEUE m') = back (I2C_QUEUE m) /\
                  front (I2C_QUEUE m') = front (I2C_QUEUE m) /\
                  front_buffer (I2C_QUEUE m') = front_buffer (I2C_QUEUE m) /\
                  back_buffer (I2C_QUEUE m') = back_buffer (I2C_QUEUE m) /\
                  front_buffer_cursor (I2C_QUEUE m')
                    = front_buffer_cursor (I2C_QUEUE m) /\
                  buffer_a (I2C_QUEUE m') = buffer_a (I2C_QUEUE m) /\
                  buffer_b (I2C_QUEUE m') = buffer_b (I2C_QUEUE m) /\
                  tasks (I2C_QUEUE m') = tasks (I2C_QUEUE m) /\
                  tasks_n (I2C_QUEUE m') = tasks_n (I2C_QUEUE m)).
    { destruct Hq as [-> | ->]; destruct_machine m; simpl_fields in *;
        repeat split; auto. }
    destruct Hq' as (Hp' & Hbk' & Hfr' & Hfb' & Hbb' & Hcur' & Hba' & Hbb2'
                     & Hts' & Htn').
    apply (process_command_advance_sound fuel P); [|exact Hp'| | | |exact Hi'].
    2: now rewrite Hbk', Hc.
    3: now rewrite Hbk'.
    2: { destruct He as (Hcap & _ & Hfront & Hn & Hqs).
         unfold extras, within_capacity.
         rewrite Hfr', Hba', Hbb2', Hts', Htn'.
         repeat split; try apply Hcap; auto. }
    unfold advancing. rewrite Hfr', Hfb', Hbb', Hbk', Hcur', Hbus.
    clear Hq Hc Hbus Hp' Hbk' Hfr' Hfb' Hbb' Hcur' Hba' Hbb2' Hts' Htn'
          Harm' Hi' m'.
    revert H Hh Hcode. unfold handed, loaded, unsent, filled.
    destruct_machine m; simpl_fields;
      intros ((Hne & Hcur & Hlen & Hback & Hat & Hend & Hprod & S & HP & HS)
              & Hact' & Hpa) Hh Hcode;
      try congruence.
    all: cursor_in.
    all: match goal with
         | Hat : ?cmds !! Z.to_nat ?cur = Some ?c,
           HP : _ = _ ++ drop (Z.to_nat ?cur) (take (Z.to_nat ?len) ?cmds) |- _ =>
             rewrite (unsent_next cmds len cur c ltac:(lia) Hat) in HP;
             destruct (sent_next _ _ _ _ _ _ HP HS Hh) as (S' & HP' & HS')
         end.
    all: rewrite wire_app, Hw.
    all: repeat split; auto; try lia; eauto. }
  wp_step; [|wp_step; [|wp_step; [|wp_step]]]; bool_to_prop.
  - wp_run. apply (Hadv (hw_send_byte (cmd_data (current_command (I2C_QUEUE m)))));
      simpl_fields; auto.
    + unfold hw_of. rewrite Heqb. reflexivity.
    + rewrite Heqb. discriminate.
  - wp_run. apply (Hadv hw_send_start_condition); simpl_fields; auto.
    + unfold hw_of. rewrite Heqb0. reflexivity.
    + rewrite Heqb0. discriminate.
  - wp_run. apply (Hadv hw_send_stop_condition); simpl_fields; auto.
    + unfold hw_of. rewrite Heqb1. reflexivity.
    + rewrite Heqb1. discriminate.
  - (* the pending sentinel: switch and go on *)
    wp_step. eapply wp_conseq.
    { apply (switch_buffers_steady P); [apply loaded_queued, H| |exact He| |].
      - assert (Hall : Forall producible (P ++ filled (back (I2C_QUEUE m))))
          by (rewrite HPB; apply producible_produced).
        now apply Forall_app in Hall as [_ Hall].
      - exact Hbl.
      - destruct H as ((_ & Hcur & _ & _ & Hat & _ & Hprod & S & HP & _) & _).
        unfold unsent, filled in HP.
        destruct (Z.eq_dec (front_buffer_cursor (I2C_QUEUE m))
                    (buf_length (front (I2C_QUEUE m)))) as [E|E]; [exact E|].
        assert (Hlt : front_buffer_cursor (I2C_QUEUE m)
                      < buf_length (front (I2C_QUEUE m))) by lia.
        specialize (Hat Hlt).
        rewrite (unsent_next _ _ _ _ (conj (proj1 Hcur) Hlt) Hat) in HP.
        destruct (producible_next _ _ _ _ Hprod HP) as [Hc|[Hc|Hc]];
          rewrite Hc in *; discriminate. }
    intros [] m2 ((Hl2 & Hp2 & Hb2 & Hcur2 & _ & _ & Hact2 & Hc2) & He2 & Hi2).
    rewrite HPB, <- Hc2 in Hl2. wp_step. eapply wp_conseq.
    { apply (process_command_steady fuel (produced (calls m2)) m2);
        [|exact Hp2|congruence|congruence].
      split; [|exact He2]. split; [exact Hl2|]. split; congruence. }
    intros [] m3 ((Hh3 & Hf3) & He3 & Hi3).
    pose proof (handler_frame_back _ _ Hf3) as Hbk.
    destruct Hf3 as (_ & _ & _ & _ & _ & _ & Hp3 & Hc3 & _).
    apply fetch_if_tasks_sound; rewrite ?Hc3, ?Hbk; auto.
  - wp_step. simpl. destruct Hcodes as [Hc|[Hc|[Hc|Hc]]]; congruence.
Qed.

Lemma TWI_vect_sound fuel twsr (m : machine ctx) :
  sound m -> SREG_I m = false ->
  transmitter_active (I2C_QUEUE m) = true ->
  wp (TWI_vect fuel twsr) (fun _ m' => sound m') external m.
Proof.
  intros H Hi Hact. unfold TWI_vect, TWI_vect_body. wp_step. wp_step.
  - wp_step. simpl. bool_to_prop. split; [lia|].
    destruct H as ((P & H & _) & _). apply (handed_code P), H.
  - wp_step. eapply wp_conseq; [now apply process_command_sound|].
    now intros [] m' [H' _].
Qed.

Lemma sound_active (m : machine ctx) :
  sound m -> TWI_armed m = true -> transmitter_active (I2C_QUEUE m) = true.
Proof. intros (_ & (_ & Harm & _) & _). exact Harm. Qed.

Lemma interrupt_sound fuel twsr (m : machine ctx) :
  sound m ->
  wp (interrupt (TWI_vect fuel) twsr) (fun _ m' => sound m') external m.
Proof.
  apply interrupt_served.
  - exact sound_frame.
  - exact sound_active.
  - intros twsr' m0. apply TWI_vect_sound.
Qed.

Lemma wait_sound fuel polls : forall (m : machine ctx),
  sound m -> wp (i2c_wait fuel polls) (fun _ m' => sound m') external m.
Proof.
  induction polls as [|polls IH]; intros m H; [exact I|]. simpl.
  wp_step. apply is_idle_spec. wp_step; [wp_step; exact H|].
  wp_step. eapply wp_conseq.
  { apply preempt_served with (J := sound); auto.
    - exact sound_frame.
    - exact sound_active.
    - intros twsr m0. apply TWI_vect_sound. }
  intros [] m1 Hm1. now apply IH.
Qed.

Lemma transmit_async_sound fuel address callback data (m : machine ctx) :
  sound m ->
  wp (i2c_transmit_async fuel address callback data)
    (fun _ m' => sound m') external m.
Proof.
  intros H. unfold i2c_transmit_async. wp_run; [|simpl; auto 10].
  bool_to_prop. apply is_idle_spec. wp_run.
  eapply wp_conseq with (Q := fun _ m' => sound m' /\ SREG_I m' = false).
  2: { intros [] m1 [Hm1 Hi1]. wp_steps. revert Hm1.
       apply sound_frame; auto. }
  assert (Hs : sound
    (set_I2C_QUEUE
       (set_tasks_n (u8 (tasks_n (I2C_QUEUE m) + 1))
          (set_tasks (tasks (I2C_QUEUE m)
                      ++ [mk_task callback data address]) (I2C_QUEUE m)))
       (set_calls (calls m
                   ++ [task_enqueued (mk_task callback data address)])
          (set_SREG_I false m)))).
  { destruct H as ((P & H & HPB & Hb) & He & Hbl). split; [|split].
    - exists P.
      revert H HPB Hb. unfold handed, loaded, unsent, filled.
      destruct_machine m; simpl_fields; rewrite produced_app; simpl;
        rewrite app_nil_r; tauto.
    - match goal with
      | Hfree : _ + 1 <= I2C_QUEUE_SIZE |- _ => revert He Hfree
      end.
      unfold_extras.
      destruct_machine m; simpl_fields; rewrite length_app; simpl length;
        intros (Hcap & Harm & Hfront & Hn & Hq) Hfree;
        repeat split; try apply Hcap; auto; try arith.
    - revert Hbl. destruct_machine m; simpl_fields; tauto. }
  wp_step; [|wp_step; split; [exact Hs|reflexivity]].
  bool_to_prop.
  match goal with
  | Ha : transmitter_active (I2C_QUEUE m) = false,
    Hn : tasks_n (I2C_QUEUE m) = 0 |- _ => rename Ha into Hidle, Hn into Hnone
  end.
  destruct Hs as ((P & Hh & HPB & Hb) & He & Hbl).
  assert (Hp : pending_buffer_switch (I2C_QUEUE m) = false).
  { destruct H as ((P' & (_ & _ & Hpa) & _) & _).
    destruct (pending_buffer_switch (I2C_QUEUE m)); [|reflexivity].
    rewrite Hpa in Hidle by reflexivity. discriminate. }
  simpl_fields in *. specialize (Hb Hp).
  rewrite (filled_empty _ Hb), app_nil_r in HPB. subst P.
  apply fetch_commands_sound; simpl_fields; auto.
  rewrite Hnone. reflexivity.
Qed.

Lemma init_sound (m : machine ctx) :
  0 <= I2C_QUEUE_SIZE -> power_on m ->
  wp i2c_init (fun _ m' => sound m') external m.
Proof.
  intros Hq0 (Hsa & Hsb & Hbus & Hcalls). unfold i2c_init.
  destruct m as [q sreg armed mem0 sch bs cl0].
  destruct q as [ts0 [la ca] [lb cb] fr bk act pend tn cur [cc cd]].
  simpl_fields in *. subst bs cl0. wp_steps. split; [|split].
  - exists [].
    unfold handed, loaded, unsent, filled. simpl_fields.
    repeat split; auto; try congruence; try lia.
    exists []. auto.
  - unfold_extras. simpl length. repeat split; auto; try lia; discriminate.
  - simpl_fields. discriminate.
Qed.

Lemma reachable_sound (m : machine ctx) :
  0 <= I2C_QUEUE_SIZE -> reachable m -> sound m.
Proof.
  intros Hq0 Hr. induction Hr as
    [m0 m Hon Hrun | m fuel a cb d m' Hr IH Hrun | m fuel twsr m' Hr IH Hrun
    | m fuel polls m' Hr IH Hrun | m mem sch i Hr IH].
  - apply (wp_Done _ _ _ _ _ _ (init_sound m0 Hq0 Hon) Hrun).
  - apply (wp_Done _ _ _ _ _ _ (transmit_async_sound fuel a cb d m IH) Hrun).
  - apply (wp_Done _ _ _ _ _ _ (interrupt_sound fuel twsr m IH) Hrun).
  - apply (wp_Done _ _ _ _ _ _ (wait_sound fuel polls m IH) Hrun).
  - revert IH. now apply sound_frame.
Qed.

End Producing.

(** X16.  From every reachable state, whatever the callbacks queued do
    and whenever the interrupts arrive, enqueuing a task, serving a TWI
    interrupt and waiting for the engine fail in these ways only: with
    [FAULT_I2C] and an error status of the bus (above [TW_MT_DATA_ACK],
    or [TW_MT_SLA_NACK]) while the current command is one that the state
    machine knows, with the assertion of line 131, 222, 289, 309, 330,
    331 or 353, or by a run that is cut short.  The other assertions of
    the engine (lines 73, 74, 91, 92, 101, 102, 112 to 114, 123, 155 to
    159, 341 and 348) hold whenever program flow reaches them, no command
    is invalid, and no array is accessed outside its bounds. *)
Theorem engine_faults_are_external (m : machine ctx) (fuel polls : nat)
    (address twsr : Z) (callback : i2c_callback_t ctx) (data : ptr) :
  0 <= I2C_QUEUE_SIZE <= 255 -> I2C_BUFFER_SIZE <= 255 ->
  reachable m ->
  wp (i2c_transmit_async fuel address callback data) (fun _ _ => True)
    external m /\
  wp (interrupt (TWI_vect fuel) twsr) (fun _ _ => True) external m /\
  wp (i2c_wait fuel polls) (fun _ _ => True) external m.
Proof.
  intros [Hq0 Hq] Hfit Hr.
  pose proof (reachable_sound Hfit Hq m Hq0 Hr) as Hs.
  split; [|split]; eapply wp_conseq; auto.
  - now apply transmit_async_sound.
  - now apply interrupt_sound.
  - now apply wait_sound.
Qed.

(** X17.  Between two operations of the engine: a TWI interrupt is on
    its way only while the transmitter is active; the transmitter is
    active only over a front buffer that holds commands, and it is active
    for as long as the cursor has not reached their end, the current
    command being the one at the cursor; a buffer switch is pending only
    while the transmitter is active and the back buffer holds commands,
    and the back buffer is empty otherwise; and the current command is
    one that the state machine knows. *)
Theorem engine_state_consistent (m : machine ctx) :
  0 <= I2C_QUEUE_SIZE <= 255 -> I2C_BUFFER_SIZE <= 255 ->
  reachable m ->
  let q := I2C_QUEUE m in
  (TWI_armed m = true -> transmitter_active q = true) /\
  (transmitter_active q = true -> 0 < buf_length (front q)) /\
  0 <= front_buffer_cursor q <= buf_length (front q) /\
  (front_buffer_cursor q < buf_length (front q) ->
   transmitter_active q = true /\
   buf_commands (front q) !! Z.to_nat (front_buffer_cursor q)
     = Some (current_command q)) /\
  (pending_buffer_switch q = true ->
   transmitter_active q = true /\ 0 < buf_length (back q)) /\
  (pending_buffer_switch q = false -> buf_length (back q) = 0) /\
  is_command (cmd_code (current_command q)).
Proof.
  intros [Hq0 Hq] Hfit Hr.
  destruct (reachable_sound Hfit Hq m Hq0 Hr)
    as ((P & H & _ & Hempty) & (_ & Harm & Hfront & _) & Hback).
  pose proof (handed_code P m H) as Hcode.
  destruct H as ((_ & Hcur & _ & _ & Hat & _) & Hact & Hpa).
  simpl. repeat split; auto; lia.
Qed.

Lemma wp_preempt_not_armed handler Q X (m : machine ctx) :
  TWI_armed m = false ->
  Q tt (set_schedule (tail (schedule m)) m) ->
  wp (preempt handler) Q X m.
Proof. intros H HQ. unfold wp. now rewrite preempt_not_armed. Qed.

(** X18.  A callback that produces no command makes the engine fault:
    a task enqueued while the engine is idle has its callback invoked at
    once, and when that has called no producer, [i2c_transmit_async]
    faults at the assertion of line 131 that the back buffer holds
    commands, the task enqueued, its callback invoked once and nothing
    sent. *)
Theorem silent_callback_faults (fuel : nat) (address : Z)
    (callback : i2c_callback_t ctx) (data : ptr) (m : machine ctx) :
  0 < I2C_QUEUE_SIZE <= 255 -> I2C_BUFFER_SIZE <= 255 ->
  reachable m ->
  transmitter_active (I2C_QUEUE m) = false ->
  tasks_n (I2C_QUEUE m) = 0 ->
  (callback (memory m data)).1.1 = [] ->
  exists m',
    i2c_transmit_async (S (S fuel)) address callback data m
      = Faulted FAULT_ASSERTION 131 m' /\
    bus m' = bus m /\
    calls m'
      = calls m ++ [task_enqueued (mk_task callback data address);
                    task_called (mk_task callback data address) []
                      (callback (memory m data)).2].
Proof.
  intros [Hq0 Hq] Hfit Hr Hact Hn Hcs.
  assert (Hq0' : 0 <= I2C_QUEUE_SIZE) by lia.
  destruct (reachable_sound Hfit Hq m Hq0' Hr)
    as ((P & H & _ & Hempty) & (_ & Harm & _ & Hcount & _) & _).
  destruct H as (_ & _ & Hpa).
  assert (Hts : tasks (I2C_QUEUE m) = []).
  { destruct (tasks (I2C_QUEUE m)); [reflexivity|].
    simpl length in Hcount. lia. }
  assert (Hp : pending_buffer_switch (I2C_QUEUE m) = false).
  { destruct (pending_buffer_switch (I2C_QUEUE m)); [|reflexivity].
    rewrite Hpa in Hact by reflexivity. discriminate. }
  assert (Harmed : TWI_armed m = false).
  { destruct (TWI_armed m); [|reflexivity].
    rewrite Harm in Hact by reflexivity. discriminate. }
  specialize (Hempty Hp). clear Harm Hpa Hcount Hr P.
  apply wp_faults. unfold i2c_transmit_async.
  destruct m as [q sreg armed mem0 sch bs cl0].
  destruct q as [ts0 [la ca] [lb cb] fr bk act pend tn cur cc].
  simpl in Hact, Hn, Hts, Hp, Harmed, Hcs. subst act tn ts0 pend armed.
  destruct bk; simpl in Hempty; subst.
  all: wp_run.
  all: try solve [bool_to_prop; simpl length in *; lia].
  all: apply is_idle_spec; wp_run; simpl_fields; cbn [negb andb Z.eqb].
  all: rewrite fetch_commands_S; unfold fetch_commands_body.
  all: wp_run.
  all: try solve [bool_to_prop; simpl_fields in *; try discriminate; arith].
  all: rewrite fetch_commands_loop_S; unfold fetch_commands_turn.
  all: wp_run; change (u8 (0 + 1) =? 0) with false; cbv iota.
  all: unfold ring_buffer_get_first; wp_run; simpl_fields; cbn [app].
  all: wp_run.
  all: try solve [bool_to_prop; simpl_fields in *; congruence].
  all: unfold call_task; wp_steps; simpl_fields.
  all: destruct (callback (mem0 data)) as [[cs c'] keep_task]; simpl in Hcs.
  all: subst cs; cbn [run_calls]; wp_steps.
  all: apply wp_preempt_not_armed; [reflexivity|]; wp_steps.
  all: try solve [bool_to_prop; simpl_fields in *; lia].
  all: simpl; repeat split; rewrite <- ?app_assoc; reflexivity.
Qed.

End Faults.

(** ** Tasks that are taken up *)

Section Fed.
Context {cfg : config} {ctx : Type}.










Section Kept.
Hypothesis buffer_fits : I2C_BUFFER_SIZE <= 255.
Hypothesis queue_fits : I2C_QUEUE_SIZE <= 255.







End Kept.


End Fed.


(** * Instances *)

(** A configuration and machines on which the theorems above are
    instantiated. *)
Definition sample_config : config :=
  {| I2C_BUFFER_SIZE := 32; I2C_QUEUE_SIZE := 4 |}.

Section Samples.
#[local] Existing Instance sample_config.

Definition state_after {ctx A} (c : M ctx A) (m : machine ctx) : machine ctx :=
  match c m with
  | Done _ m' => m'
  | Faulted _ _ m' => m'
  | OutOfBounds m' => m'
  | OutOfFuel => m
  end.

(** A callback without a context of its own: it sends one byte, 0x01, to
    the address of its task, in one invocation. *)
Definition sample_callback : i2c_callback_t unit :=
  fun c => ([call_send_start; call_send_byte 0x01; call_end_transmission],
            c, false).

(** The machine at reset: memory zeroed, interrupts disabled. *)
Definition sample_power_on : machine unit :=
  let zeroed := mk_buffer 0 (replicate 32 (mk_command 0 0)) in
  mk_machine
    (mk_queue [] zeroed zeroed ref_buffer_a ref_buffer_a false false 0 0
       (mk_command 0 0))
    false false (fun _ => tt) [] [] [].

(** After [i2c_init], with interrupts enabled. *)
Definition sample_idle : machine unit :=
  Eval vm_compute in state_after (i2c_init ;; sei) sample_power_on.

(** A task for address 0xA0 is enqueued: its commands are in the front
    buffer and the start condition is on the bus. *)
Definition sample_busy : machine unit :=
  Eval vm_compute in
    state_after (i2c_transmit_async 8 0xA0 sample_callback 0%nat) sample_idle.

(** The same inside the interrupt handler, and with a second task behind
    the first. *)
Definition sample_in_handler : machine unit :=
  Eval vm_compute in set_TWI_armed false (set_SREG_I false sample_busy).

Definition sample_queued : machine unit :=
  Eval vm_compute in
    state_after (i2c_transmit_async 8 0xA2 sample_callback 0%nat) sample_busy.

Lemma sample_idle_reachable : reachable sample_idle.
Proof.
  apply (reach_program (state_after i2c_init sample_power_on) (fun _ => tt)
           [] true).
  apply (reach_init sample_power_on); [|vm_compute; reflexivity].
  repeat split; vm_compute; reflexivity.
Qed.

Lemma sample_busy_reachable : reachable sample_busy.
Proof.
  apply (reach_transmit sample_idle 8 0xA0 sample_callback 0%nat);
    [|vm_compute; reflexivity].
  exact sample_idle_reachable.
Qed.

Lemma sample_queued_reachable : reachable sample_queued.
Proof.
  apply (reach_transmit sample_busy 8 0xA2 sample_callback 0%nat);
    [|vm_compute; reflexivity].
  exact sample_busy_reachable.
Qed.

(** A callback that always has more to send. *)
Definition sample_chatty : i2c_callback_t unit :=
  fun c => ([call_send_start; call_send_byte 0x01], c, true).

(** The front buffer was sent while the callback filled the back buffer:
    the current command is the pending sentinel and a buffer switch is
    pending; seen from inside the interrupt handler. *)
Definition sample_pending : machine unit :=
  Eval vm_compute in
    set_TWI_armed false (set_SREG_I false
      (state_after (i2c_transmit_async 8 0xA0 sample_chatty 0%nat)
         (set_schedule [[]; []; []; [TW_START]; [TW_MT_SLA_ACK]] sample_idle))).

(** The same with nothing ready in the back buffer. *)
Definition sample_exhausted : machine unit :=
  Eval vm_compute in
    set_I2C_QUEUE
      (set_pending_buffer_switch false (I2C_QUEUE sample_pending))
      sample_pending.

(** The back buffer filled by a callback, before the buffers are
    switched. *)
Definition sample_filled : machine unit :=
  Eval vm_compute in
    state_after
      (ring_buffer_append (mk_task sample_callback 0%nat 0xA0) ;;
       run_calls (TWI_vect 8)
         [call_send_start; call_send_byte 0x01; call_end_transmission])
      sample_idle.

Definition sample_switched : machine unit :=
  Eval vm_compute in state_after i2c_queue_switch_buffers sample_filled.

(** The swap of [sample_filled]. *)
Lemma switch_buffers_contract_witness :
  (front_buffer (I2C_QUEUE sample_filled)
     <> back_buffer (I2C_QUEUE sample_filled) /\
   i2c_queue_switch_buffers sample_filled = Done tt sample_switched) /\
  front (I2C_QUEUE sample_switched) = back (I2C_QUEUE sample_filled) /\
  front_buffer_cursor (I2C_QUEUE sample_switched) = 0 /\
  current_command (I2C_QUEUE sample_switched)
    = mk_command I2C_COMMAND_START 0 /\
  buf_length (back (I2C_QUEUE sample_switched)) = 0.
Proof.
  assert (Hne : front_buffer (I2C_QUEUE sample_filled)
                  <> back_buffer (I2C_QUEUE sample_filled))
    by (vm_compute; discriminate).
  assert (Hrun : i2c_queue_switch_buffers sample_filled = Done tt sample_switched)
    by (vm_compute; reflexivity).
  split; [split; assumption|].
  destruct (switch_buffers_contract sample_filled sample_switched Hne Hrun)
    as (_ & _ & Hfront & Hcur & _ & Hlen & _).
  repeat split; assumption.
Defined.

(** [tasks_n] in [sample_queued], which holds one task. *)
Lemma tasks_n_counts_tasks_witness :
  (0 <= I2C_QUEUE_SIZE <= 255 /\ reachable sample_queued) /\
  tasks_n (I2C_QUEUE sample_queued) = 1.
Proof.
  assert (Hq : 0 <= I2C_QUEUE_SIZE <= 255) by (vm_compute; split; discriminate).
  split; [split; [exact Hq | exact sample_queued_reachable]|].
  exact (proj1 (tasks_n_counts_tasks sample_queued Hq sample_queued_reachable)).
Defined.

(** [i2c_is_idle] in [sample_idle] and in [sample_busy]. *)
Lemma is_idle_correct_witness :
  (0 <= I2C_QUEUE_SIZE <= 255 /\ reachable sample_idle /\
   reachable sample_busy) /\
  (exists idle, i2c_is_idle sample_idle = Done idle sample_idle /\
     (idle = true <->
      tasks_n (I2C_QUEUE sample_idle) = 0 /\
      transmitter_active (I2C_QUEUE sample_idle) = false) /\
     (idle = true <->
      tasks (I2C_QUEUE sample_idle) = [] /\
      transmitter_active (I2C_QUEUE sample_idle) = false)) /\
  (exists idle, i2c_is_idle sample_busy = Done idle sample_busy /\
     (idle = true <->
      tasks_n (I2C_QUEUE sample_busy) = 0 /\
      transmitter_active (I2C_QUEUE sample_busy) = false) /\
     (idle = true <->
      tasks (I2C_QUEUE sample_busy) = [] /\
      transmitter_active (I2C_QUEUE sample_busy) = false)).
Proof.
  assert (Hq : 0 <= I2C_QUEUE_SIZE <= 255) by (vm_compute; split; discriminate).
  split; [|split].
  - repeat split; try apply Hq;
      [exact sample_idle_reachable | exact sample_busy_reachable].
  - exact (is_idle_correct sample_idle Hq sample_idle_reachable).
  - exact (is_idle_correct sample_busy Hq sample_busy_reachable).
Defined.

(** The task events of [sample_queued]: the first task was served and
    completed before the second was enqueued, and the second waits. *)
Lemma tasks_served_in_order_witness :
  (0 <= I2C_QUEUE_SIZE <= 255 /\ reachable sample_queued) /\
  fifo (calls sample_queued) (tasks (I2C_QUEUE sample_queued)) /\
  completed (calls sample_queued) ++ tasks (I2C_QUEUE sample_queued)
    = enqueued (calls sample_queued).
Proof.
  assert (Hq : 0 <= I2C_QUEUE_SIZE <= 255) by (vm_compute; split; discriminate).
  split; [split; [exact Hq | exact sample_queued_reachable]|].
  exact (tasks_served_in_order sample_queued Hq sample_queued_reachable).
Defined.

(** A producer invocation from [sample_idle] whose third call needs more
    room than the back buffer has: it faults with four commands in the
    back buffer. *)
Definition sample_overflow : list producer_call :=
  [call_send_bytes [1; 2; 3] 3; call_send_byte 4; call_send_bytes [] 29].

Lemma back_buffer_within_capacity_witness :
  (buffers_wf sample_idle /\
   pending_buffer_switch (I2C_QUEUE sample_idle) = false) /\
  (exists m',
     run_calls (TWI_vect 8) sample_overflow sample_idle
       = Faulted FAULT_ASSERTION 331 m' /\
     buf_length (back (I2C_QUEUE m')) = 4) /\
  (match run_calls (TWI_vect 8) sample_overflow sample_idle with
   | Done _ m' =>
       within_capacity m' /\
       0 <= buf_length (back (I2C_QUEUE m')) <= I2C_BUFFER_SIZE
   | Faulted _ _ m' =>
       within_capacity m' /\
       0 <= buf_length (back (I2C_QUEUE m')) <= I2C_BUFFER_SIZE
   | OutOfBounds _ => False
   | OutOfFuel => True
   end /\
   (forall b,
      I2C_BUFFER_SIZE < buf_length (back (I2C_QUEUE sample_idle)) + 1 ->
      i2c_async_send_byte b sample_idle
        = Faulted FAULT_ASSERTION 309 sample_idle) /\
   (forall data n,
      0 < n -> I2C_BUFFER_SIZE < buf_length (back (I2C_QUEUE sample_idle)) + n ->
      i2c_async_send_bytes data n sample_idle
        = Faulted FAULT_ASSERTION 331 sample_idle)).
Proof.
  assert (Hwf : buffers_wf sample_idle).
  { unfold buffers_wf, within_capacity, buffer_within_capacity.
    vm_compute. repeat split; try discriminate. }
  assert (Hp : pending_buffer_switch (I2C_QUEUE sample_idle) = false)
    by reflexivity.
  split; [split; assumption|]. split.
  - eexists. split; vm_compute; reflexivity.
  - exact (back_buffer_within_capacity 8 sample_overflow sample_idle Hwf Hp).
Defined.

(** The two branches, in [sample_pending] and in [sample_exhausted]. *)
Lemma process_command_pending_witness :
  (SREG_I sample_pending = false /\
   transmitter_active (I2C_QUEUE sample_pending) = true /\
   0 < buf_length (front (I2C_QUEUE sample_pending)) /\
   front_buffer_cursor (I2C_QUEUE sample_pending)
     <= buf_length (front (I2C_QUEUE sample_pending)) /\
   cmd_code (current_command (I2C_QUEUE sample_pending))
     = I2C_COMMAND_PENDING /\
   pending_buffer_switch (I2C_QUEUE sample_pending) = true /\
   pending_buffer_switch (I2C_QUEUE sample_exhausted) = false) /\
  i2c_queue_process_command 4 sample_pending =
  (i2c_queue_switch_buffers ;;
   i2c_queue_process_command 3 ;;
   q' <- get_queue ;;
   if 0 <? tasks_n q' then i2c_queue_fetch_commands 3 else ret tt)
    sample_pending /\
  i2c_queue_process_command 4 sample_exhausted =
  Done tt
    (set_I2C_QUEUE (set_transmitter_active false (I2C_QUEUE sample_exhausted))
       (set_TWI_armed false
          (set_bus (bus sample_exhausted ++ [hw_disable_int])
             sample_exhausted))).
Proof.
  split; [repeat split; vm_compute; try reflexivity; discriminate|].
  split.
  - apply (process_command_pending 3 sample_pending); try reflexivity;
      vm_compute; try reflexivity; discriminate.
  - apply (process_command_pending 3 sample_exhausted); try reflexivity;
      vm_compute; try reflexivity; discriminate.
Defined.

(** C6, at the status the handler lets through.  [TW_BUS_ERROR] (an
    illegal start or stop condition on the bus) is 0x00: it is neither
    above [TW_MT_DATA_ACK] nor equal to [TW_MT_SLA_NACK], so the handler
    does not report it and processes the next command as after an
    acknowledge.  In [sample_in_handler] it sends the next byte. *)
Theorem bus_error_is_not_reported :
  (forall (cfg : config) (ctx : Type) (fuel : nat) (m : machine ctx),
     TWI_vect fuel TW_BUS_ERROR m = i2c_queue_process_command fuel m) /\
  exists m',
    TWI_vect 8 TW_BUS_ERROR sample_in_handler = Done tt m' /\
    bus m' = bus sample_in_handler ++ [hw_send_byte 0xA0].
Proof.
  split.
  - intros cfg ctx fuel m. apply TWI_vect_proceeds; vm_compute; discriminate.
  - eexists. split; vm_compute; reflexivity.
Qed.

End Samples.

(** * Instances of the further properties *)

Section MoreSamples.
#[local] Existing Instance sample_config.

(** The bus has acknowledged everything that the task of [sample_busy]
    had to send, and the program has waited for the engine. *)
Definition sample_sent : machine unit :=
  Eval vm_compute in
    state_after (i2c_wait 8 8)
      (set_schedule
         [[TW_START]; [TW_MT_SLA_ACK]; [TW_MT_DATA_ACK]; [TW_MT_DATA_ACK]]
         sample_busy).

Lemma sample_sent_reachable : reachable sample_sent.
Proof.
  apply (reach_wait
           (set_schedule
              [[TW_START]; [TW_MT_SLA_ACK]; [TW_MT_DATA_ACK]; [TW_MT_DATA_ACK]]
              sample_busy) 8 8);
    [|vm_compute; reflexivity].
  exact (reach_program sample_busy (memory sample_busy)
           [[TW_START]; [TW_MT_SLA_ACK]; [TW_MT_DATA_ACK]; [TW_MT_DATA_ACK]]
           true sample_busy_reachable).
Qed.

(** The three operations from [sample_queued], with a second task
    waiting behind the first. *)
Lemma engine_memory_safe_witness :
  (0 <= I2C_QUEUE_SIZE <= 255 /\ reachable sample_queued) /\
  safe (i2c_transmit_async 8 0xA4 sample_callback 0%nat) sample_queued /\
  safe (interrupt (TWI_vect 8) TW_START) sample_queued /\
  safe (i2c_wait 8 8) sample_queued.
Proof.
  assert (Hq : 0 <= I2C_QUEUE_SIZE <= 255) by (vm_compute; split; discriminate).
  split; [split; [exact Hq | exact sample_queued_reachable]|].
  exact (engine_memory_safe sample_queued 8 8 0xA4 TW_START sample_callback
           0%nat Hq sample_queued_reachable).
Defined.

(** In [sample_busy] the start condition is on the wire, and the address,
    the byte and the stop condition wait in the front buffer. *)
Lemma wire_follows_producers_witness :
  (I2C_BUFFER_SIZE <= 255 /\ reachable sample_busy) /\
  wire (bus sample_busy) = [hw_send_start_condition] /\
  map hw_of (unsent (I2C_QUEUE sample_busy))
    = [hw_send_byte 0xA0; hw_send_byte 0x01; hw_send_stop_condition] /\
  map hw_of (produced (calls sample_busy))
  = wire (bus sample_busy)
    ++ map hw_of (unsent (I2C_QUEUE sample_busy)
                  ++ filled (back (I2C_QUEUE sample_busy))).
Proof.
  assert (Hfit : I2C_BUFFER_SIZE <= 255) by (vm_compute; discriminate).
  split; [split; [exact Hfit | exact sample_busy_reachable]|].
  split; [reflexivity|]. split; [reflexivity|].
  exact (wire_follows_producers sample_busy Hfit sample_busy_reachable).
Defined.

(** In [sample_sent] the four primitives of the task are on the wire. *)
Lemma inactive_means_all_sent_witness :
  (I2C_BUFFER_SIZE <= 255 /\ reachable sample_sent /\
   transmitter_active (I2C_QUEUE sample_sent) = false) /\
  wire (bus sample_sent)
    = [hw_send_start_condition; hw_send_byte 0xA0; hw_send_byte 0x01;
       hw_send_stop_condition] /\
  wire (bus sample_sent) = map hw_of (produced (calls sample_sent)).
Proof.
  assert (Hfit : I2C_BUFFER_SIZE <= 255) by (vm_compute; discriminate).
  split; [repeat split; [exact Hfit | exact sample_sent_reachable]|].
  split; [reflexivity|].
  exact (inactive_means_all_sent sample_sent Hfit sample_sent_reachable
           eq_refl).
Defined.

(** The task of [sample_busy], enqueued in [sample_idle] with the bus
    acknowledging at once, and waited for. *)
Definition sample_acknowledging : machine unit :=
  Eval vm_compute in
    set_schedule
      [[]; []; []; []; [TW_START]; [TW_MT_SLA_ACK]; [TW_MT_DATA_ACK]]
      sample_idle.

Definition sample_served : machine unit :=
  Eval vm_compute in
    state_after (i2c_transmit_async 8 0xA0 sample_callback 0%nat ;; i2c_wait 8 8)
      sample_acknowledging.

Lemma sample_acknowledging_reachable : reachable sample_acknowledging.
Proof.
  exact (reach_program sample_idle (memory sample_idle)
           [[]; []; []; []; [TW_START]; [TW_MT_SLA_ACK]; [TW_MT_DATA_ACK]]
           true sample_idle_reachable).
Qed.

Lemma single_task_service_witness :
  (0 <= I2C_QUEUE_SIZE <= 255 /\ I2C_BUFFER_SIZE <= 255 /\
   reachable sample_acknowledging /\
   tasks (I2C_QUEUE sample_acknowledging) = [] /\
   transmitter_active (I2C_QUEUE sample_acknowledging) = false /\
   (i2c_transmit_async 8 0xA0 sample_callback 0%nat ;; i2c_wait 8 8)
     sample_acknowledging = Done tt sample_served) /\
  wire (bus sample_served)
    = [hw_send_start_condition; hw_send_byte 0xA0; hw_send_byte 0x01;
       hw_send_stop_condition] /\
  exists n evs c',
    invocations n (mk_task sample_callback 0%nat 0xA0)
      (memory sample_acknowledging 0%nat) = (evs, c', false) /\
    calls sample_served
      = calls sample_acknowledging
        ++ task_enqueued (mk_task sample_callback 0%nat 0xA0) :: evs /\
    memory sample_served 0%nat = c' /\
    wire (bus sample_served)
      = wire (bus sample_acknowledging) ++ map hw_of (produced evs) /\
    i2c_is_idle sample_served = Done true sample_served.
Proof.
  assert (Hq : 0 <= I2C_QUEUE_SIZE <= 255) by (vm_compute; split; discriminate).
  assert (Hfit : I2C_BUFFER_SIZE <= 255) by (vm_compute; discriminate).
  assert (Hrun : (i2c_transmit_async 8 0xA0 sample_callback 0%nat ;; i2c_wait 8 8)
                   sample_acknowledging = Done tt sample_served)
    by (vm_compute; reflexivity).
  split; [repeat split; try apply Hq; auto using sample_acknowledging_reachable|].
  split; [reflexivity|].
  exact (single_task_service 8 8 0xA0 sample_callback 0%nat
           sample_acknowledging sample_served Hq Hfit
           sample_acknowledging_reachable eq_refl eq_refl Hrun).
Defined.

(** A machine for the program-storage helper: after [i2c_init], with a
    bus that acknowledges whatever it is asked for. *)
Definition progmem_power_on : machine transmit_progmem_t :=
  let zeroed := mk_buffer 0 (replicate 32 (mk_command 0 0)) in
  mk_machine
    (mk_queue [] zeroed zeroed ref_buffer_a ref_buffer_a false false 0 0
       (mk_command 0 0))
    false false (fun _ => mk_progmem 0 0 []) [] [] [].

Definition progmem_idle : machine transmit_progmem_t :=
  Eval vm_compute in
    set_schedule (replicate 64 [TW_MT_DATA_ACK])
      (state_after (i2c_init ;; sei) progmem_power_on).

Lemma progmem_idle_reachable : reachable progmem_idle.
Proof.
  apply (reach_program (state_after i2c_init progmem_power_on)
           (fun _ => mk_progmem 0 0 []) (replicate 64 [TW_MT_DATA_ACK]) true).
  apply (reach_init progmem_power_on); [|vm_compute; reflexivity].
  repeat split; vm_compute; reflexivity.
Qed.

(** Forty bytes of program storage. *)
Definition sample_data : list Z :=
  Eval vm_compute in map Z.of_nat (seq 100 40).

Definition completes {ctx A} (o : outcome ctx A) : bool :=
  match o with
  | Done _ _ => true
  | _ => false
  end.

(** Forty bytes take four invocations: 16, 16 and 8 bytes, and the stop
    condition. *)
Lemma progmem_callback_streams_witness :
  (callback (mk_task i2c_transmit_progmem_cb 0%nat 0x78)
     = i2c_transmit_progmem_cb /\ 0 <= 40 <= 65535) /\
  progmem_events (mk_task i2c_transmit_progmem_cb 0%nat 0x78) 40 sample_data
    = [task_called (mk_task i2c_transmit_progmem_cb 0%nat 0x78)
         (call_send_start
          :: map call_send_byte (progmem_bytes sample_data 0 16)) true;
       task_called (mk_task i2c_transmit_progmem_cb 0%nat 0x78)
         (map call_send_byte (progmem_bytes sample_data 16 16)) true;
       task_called (mk_task i2c_transmit_progmem_cb 0%nat 0x78)
         (map call_send_byte (progmem_bytes sample_data 32 8)) true;
       task_called (mk_task i2c_transmit_progmem_cb 0%nat 0x78)
         [call_end_transmission] false] /\
  invocations 4 (mk_task i2c_transmit_progmem_cb 0%nat 0x78)
    (mk_progmem 40 0 sample_data)
    = (progmem_events (mk_task i2c_transmit_progmem_cb 0%nat 0x78) 40
         sample_data,
       mk_progmem 40 0 sample_data, false) /\
  length (progmem_events (mk_task i2c_transmit_progmem_cb 0%nat 0x78) 40
            sample_data) = 4%nat /\
  produced (progmem_events (mk_task i2c_transmit_progmem_cb 0%nat 0x78) 40
              sample_data)
    = mk_command I2C_COMMAND_START 0
      :: mk_command I2C_COMMAND_SEND_DATA 0x78
      :: map (mk_command I2C_COMMAND_SEND_DATA)
           (progmem_bytes sample_data 0 40)
      ++ [mk_command I2C_COMMAND_STOP 0].
Proof.
  assert (HL : 0 <= 40 <= 65535) by lia.
  split; [split; [reflexivity | exact HL]|]. split; [reflexivity|].
  exact (progmem_callback_streams (mk_task i2c_transmit_progmem_cb 0%nat 0x78)
           40 sample_data eq_refl HL).
Defined.

(** The transfer of the forty bytes to the address 0x78. *)
Lemma progmem_transfer_witness :
  (0 <= I2C_QUEUE_SIZE <= 255 /\ I2C_BUFFER_SIZE <= 255 /\
   0 <= 40 <= 65535 /\ reachable progmem_idle /\
   tasks (I2C_QUEUE progmem_idle) = [] /\
   transmitter_active (I2C_QUEUE progmem_idle) = false) /\
  exists m',
    i2c_transmit_progmem 16 64 0%nat 0x78 sample_data 40 progmem_idle
      = Done tt m' /\
    calls m'
    = calls progmem_idle
      ++ task_enqueued (mk_task i2c_transmit_progmem_cb 0%nat 0x78)
         :: progmem_events (mk_task i2c_transmit_progmem_cb 0%nat 0x78) 40
              sample_data /\
    wire (bus m')
    = wire (bus progmem_idle)
      ++ hw_send_start_condition :: hw_send_byte 0x78
         :: map hw_send_byte (progmem_bytes sample_data 0 (Z.to_nat 40))
         ++ [hw_send_stop_condition] /\
    memory m' 0%nat = mk_progmem 40 0 sample_data /\
    i2c_is_idle m' = Done true m'.
Proof.
  assert (Hq : 0 <= I2C_QUEUE_SIZE <= 255) by (vm_compute; split; discriminate).
  assert (Hfit : I2C_BUFFER_SIZE <= 255) by (vm_compute; discriminate).
  assert (HL : 0 <= 40 <= 65535) by lia.
  split; [repeat split; try apply Hq; try apply HL;
          auto using progmem_idle_reachable|].
  assert (Hdone : completes (i2c_transmit_progmem 16 64 0%nat 0x78 sample_data
                               40 progmem_idle) = true)
    by (vm_compute; reflexivity).
  destruct (i2c_transmit_progmem 16 64 0%nat 0x78 sample_data 40 progmem_idle)
    as [[] m'| | |] eqn:Hrun; try discriminate Hdone.
  exists m'. split; [reflexivity|].
  exact (progmem_transfer 16 64 0%nat 0x78 sample_data 40 progmem_idle m'
           Hq Hfit HL progmem_idle_reachable eq_refl eq_refl Hrun).
Defined.

(** The handler in [sample_in_handler] sends the address and moves the
    cursor. *)
Lemma handler_leaves_buffers_witness :
  pending_buffer_switch (I2C_QUEUE sample_in_handler) = false /\
  (exists m', TWI_vect 8 TW_START sample_in_handler = Done tt m' /\
              front_buffer_cursor (I2C_QUEUE m') = 2) /\
  match TWI_vect 8 TW_START sample_in_handler with
  | Done _ m' => handler_frame sample_in_handler m'
  | Faulted _ _ m' => handler_frame sample_in_handler m'
  | OutOfBounds m' => handler_frame sample_in_handler m'
  | OutOfFuel => True
  end.
Proof.
  split; [reflexivity|]. split; [eexists; split; vm_compute; reflexivity|].
  exact (handler_leaves_buffers 8 TW_START sample_in_handler eq_refl).
Defined.

(** A task at the head of the queue, before its callback has produced
    anything. *)
Definition sample_head : machine unit :=
  Eval vm_compute in
    state_after (ring_buffer_append (mk_task sample_callback 0%nat 0xA0))
      sample_idle.

Definition sample_started : machine unit :=
  Eval vm_compute in state_after i2c_async_send_start sample_head.

Lemma sample_head_ready : back_ready sample_head.
Proof. unfold back_ready. vm_compute. repeat split; discriminate. Qed.

Lemma producer_appends_witness :
  (back_ready sample_head /\
   tasks (I2C_QUEUE sample_head) = [mk_task sample_callback 0%nat 0xA0] /\
   producer call_send_start sample_head = Done tt sample_started) /\
  filled (back (I2C_QUEUE sample_started))
    = [mk_command I2C_COMMAND_START 0;
       mk_command I2C_COMMAND_SEND_DATA 0xA0] /\
  appended
    (commands_of (address (mk_task sample_callback 0%nat 0xA0)) call_send_start)
    sample_head sample_started.
Proof.
  split; [repeat split; try apply sample_head_ready|]. split; [reflexivity|].
  exact (producer_appends call_send_start (mk_task sample_callback 0%nat 0xA0)
           [] sample_head sample_started sample_head_ready eq_refl eq_refl).
Defined.

(** The same for a task with the address 0xA1. *)
Definition sample_odd : machine unit :=
  Eval vm_compute in
    state_after (ring_buffer_append (mk_task sample_callback 0%nat 0xA1))
      sample_idle.

Lemma send_start_odd_address_witness :
  (back_ready sample_odd /\
   buf_length (back (I2C_QUEUE sample_odd)) < I2C_BUFFER_SIZE /\
   tasks (I2C_QUEUE sample_odd) = [mk_task sample_callback 0%nat 0xA1] /\
   Z.land (address (mk_task sample_callback 0%nat 0xA1)) 1 <> 0) /\
  exists m',
    i2c_async_send_start sample_odd = Faulted FAULT_ASSERTION 353 m' /\
    appended [mk_command I2C_COMMAND_START 0] sample_odd m'.
Proof.
  assert (Hr : back_ready sample_odd)
    by (unfold back_ready; vm_compute; repeat split; discriminate).
  assert (Hroom : buf_length (back (I2C_QUEUE sample_odd)) < I2C_BUFFER_SIZE)
    by reflexivity.
  assert (Hodd : Z.land (address (mk_task sample_callback 0%nat 0xA1)) 1 <> 0)
    by (vm_compute; discriminate).
  split; [repeat split; try apply Hr; auto|].
  exact (send_start_odd_address (mk_task sample_callback 0%nat 0xA1) []
           sample_odd Hr Hroom eq_refl Hodd).
Defined.

(** A callback that goes on after the stop condition, and the handler
    when that stop condition is the current command. *)
Definition sample_trailing : i2c_callback_t unit :=
  fun c => ([call_send_start; call_end_transmission; call_send_byte 0x01],
            c, false).

Definition sample_at_stop : machine unit :=
  Eval vm_compute in
    set_TWI_armed false (set_SREG_I false
      (state_after
         (i2c_transmit_async 8 0xA0 sample_trailing 0%nat ;;
          interrupt (TWI_vect 8) TW_START)
         sample_idle)).

Lemma stop_must_end_buffer_witness :
  (SREG_I sample_at_stop = false /\
   transmitter_active (I2C_QUEUE sample_at_stop) = true /\
   cmd_code (current_command (I2C_QUEUE sample_at_stop)) = I2C_COMMAND_STOP /\
   front_buffer_cursor (I2C_QUEUE sample_at_stop) = 2 /\
   buf_length (front (I2C_QUEUE sample_at_stop)) = 4) /\
  exists m',
    i2c_queue_process_command 4 sample_at_stop
      = Faulted FAULT_ASSERTION 222 m' /\
    bus m' = bus sample_at_stop ++ [hw_send_stop_condition] /\
    transmitter_active (I2C_QUEUE m') = false.
Proof.
  split; [repeat split|].
  apply (stop_must_end_buffer 3 sample_at_stop); try reflexivity;
    vm_compute; discriminate.
Defined.

(** Waiting in [sample_busy] while the bus acknowledges ends in
    [sample_sent]. *)
Definition sample_waiting : machine unit :=
  Eval vm_compute in
    set_schedule
      [[TW_START]; [TW_MT_SLA_ACK]; [TW_MT_DATA_ACK]; [TW_MT_DATA_ACK]]
      sample_busy.

Lemma sample_waiting_reachable : reachable sample_waiting.
Proof.
  exact (reach_program sample_busy (memory sample_busy)
           [[TW_START]; [TW_MT_SLA_ACK]; [TW_MT_DATA_ACK]; [TW_MT_DATA_ACK]]
           true sample_busy_reachable).
Qed.

Lemma wait_ends_idle_witness :
  (0 <= I2C_QUEUE_SIZE <= 255 /\ I2C_BUFFER_SIZE <= 255 /\
   reachable sample_waiting /\
   i2c_wait 8 8 sample_waiting = Done tt sample_sent) /\
  (forall m',
     i2c_wait 8 8 sample_waiting = Done tt m' ->
     i2c_is_idle m' = Done true m' /\
     tasks (I2C_QUEUE m') = [] /\
     transmitter_active (I2C_QUEUE m') = false /\
     wire (bus m') = map hw_of (produced (calls m'))) /\
  (i2c_is_idle sample_waiting = Done true sample_waiting ->
   i2c_wait 8 9 sample_waiting = Done tt sample_waiting).
Proof.
  assert (Hq : 0 <= I2C_QUEUE_SIZE <= 255) by (vm_compute; split; discriminate).
  assert (Hfit : I2C_BUFFER_SIZE <= 255) by (vm_compute; discriminate).
  split; [repeat split; try apply Hq; auto using sample_waiting_reachable|].
  exact (wait_ends_idle 8 8 sample_waiting Hq Hfit sample_waiting_reachable).
Defined.

(** [sample_queued] after the bus has acknowledged the start condition
    and the address: the stop condition of the first task is the current
    command, and the second task waits. *)
Definition sample_last_stop : machine unit :=
  Eval vm_compute in
    state_after
      (interrupt (TWI_vect 8) TW_START ;;
       interrupt (TWI_vect 8) TW_MT_SLA_ACK)
      sample_queued.

Lemma sample_last_stop_reachable : reachable sample_last_stop.
Proof.
  apply (reach_interrupt
           (state_after (interrupt (TWI_vect 8) TW_START) sample_queued)
           8 TW_MT_SLA_ACK);
    [|vm_compute; reflexivity].
  apply (reach_interrupt sample_queued 8 TW_START);
    [|vm_compute; reflexivity].
  exact sample_queued_reachable.
Qed.

(** After the stop condition. *)
Definition sample_stalled : machine unit :=
  Eval vm_compute in
    state_after (interrupt (TWI_vect 8) TW_MT_DATA_ACK) sample_last_stop.

Lemma sample_stalled_reachable : reachable sample_stalled.
Proof.
  apply (reach_interrupt sample_last_stop 8 TW_MT_DATA_ACK);
    [|vm_compute; reflexivity].
  exact sample_last_stop_reachable.
Qed.

Lemma stalled_engine_stays_stalled_witness :
  (reachable sample_stalled /\ stalled sample_stalled) /\
  (forall fuel polls, i2c_wait fuel polls sample_stalled = OutOfFuel) /\
  (forall fuel twsr,
     interrupt (TWI_vect fuel) twsr sample_stalled = Done tt sample_stalled) /\
  (forall fuel address callback data m',
     i2c_transmit_async fuel address callback data sample_stalled = Done tt m' ->
     I2C_QUEUE_SIZE <= 255 ->
     stalled m' /\
     calls m'
       = calls sample_stalled
         ++ [task_enqueued (mk_task callback data address)] /\
     bus m' = bus sample_stalled).
Proof.
  assert (Hs : stalled sample_stalled)
    by (unfold stalled; vm_compute; repeat split; discriminate).
  split; [split; [exact sample_stalled_reachable | exact Hs]|].
  exact (stalled_engine_stays_stalled sample_stalled Hs).
Defined.

Lemma last_stop_strands_queued_tasks_witness :
  (reachable sample_last_stop /\
   tasks (I2C_QUEUE sample_last_stop) = [mk_task sample_callback 0%nat 0xA2] /\
   cmd_code (current_command (I2C_QUEUE sample_last_stop)) = I2C_COMMAND_STOP) /\
  exists m',
    interrupt (TWI_vect 8) TW_MT_DATA_ACK sample_last_stop = Done tt m' /\
    stalled m' /\
    bus m' = bus sample_last_stop ++ [hw_send_stop_condition] /\
    calls m' = calls sample_last_stop /\
    tasks (I2C_QUEUE m') = tasks (I2C_QUEUE sample_last_stop).
Proof.
  split; [repeat split; exact sample_last_stop_reachable|].
  apply (last_stop_strands_queued_tasks 7 TW_MT_DATA_ACK sample_last_stop);
    try reflexivity; vm_compute; discriminate.
Defined.

(** The three operations from [sample_busy], the second with the bus
    reporting a lost arbitration. *)
Lemma engine_faults_are_external_witness :
  (0 <= I2C_QUEUE_SIZE <= 255 /\ I2C_BUFFER_SIZE <= 255 /\
   reachable sample_busy) /\
  wp (i2c_transmit_async 8 0xA4 sample_callback 0%nat) (fun _ _ => True)
    external sample_busy /\
  wp (interrupt (TWI_vect 8) TW_MT_ARB_LOST) (fun _ _ => True) external
    sample_busy /\
  wp (i2c_wait 8 8) (fun _ _ => True) external sample_busy.
Proof.
  assert (Hq : 0 <= I2C_QUEUE_SIZE <= 255) by (vm_compute; split; discriminate).
  assert (Hfit : I2C_BUFFER_SIZE <= 255) by (vm_compute; discriminate).
  split; [split; [exact Hq | split; [exact Hfit | exact sample_busy_reachable]]|].
  exact (engine_faults_are_external sample_busy 8 8 0xA4 TW_MT_ARB_LOST
           sample_callback 0%nat Hq Hfit sample_busy_reachable).
Defined.

Lemma engine_state_consistent_witness :
  (0 <= I2C_QUEUE_SIZE <= 255 /\ I2C_BUFFER_SIZE <= 255 /\
   reachable sample_busy) /\
  let q := I2C_QUEUE sample_busy in
  (TWI_armed sample_busy = true -> transmitter_active q = true) /\
  (transmitter_active q = true -> 0 < buf_length (front q)) /\
  0 <= front_buffer_cursor q <= buf_length (front q) /\
  (front_buffer_cursor q < buf_length (front q) ->
   transmitter_active q = true /\
   buf_commands (front q) !! Z.to_nat (front_buffer_cursor q)
     = Some (current_command q)) /\
  (pending_buffer_switch q = true ->
   transmitter_active q = true /\ 0 < buf_length (back q)) /\
  (pending_buffer_switch q = false -> buf_length (back q) = 0) /\
  is_command (cmd_code (current_command q)).
Proof.
  assert (Hq : 0 <= I2C_QUEUE_SIZE <= 255) by (vm_compute; split; discriminate).
  assert (Hfit : I2C_BUFFER_SIZE <= 255) by (vm_compute; discriminate).
  split; [split; [exact Hq | split; [exact Hfit | exact sample_busy_reachable]]|].
  exact (engine_state_consistent sample_busy Hq Hfit sample_busy_reachable).
Defined.

(** A callback that produces nothing, enqueued in [sample_idle]. *)
Definition sample_silent : i2c_callback_t unit := fun c => ([], c, false).

Lemma silent_callback_faults_witness :
  (0 < I2C_QUEUE_SIZE <= 255 /\ I2C_BUFFER_SIZE <= 255 /\
   reachable sample_idle /\
   transmitter_active (I2C_QUEUE sample_idle) = false /\
   tasks_n (I2C_QUEUE sample_idle) = 0 /\
   (sample_silent (memory sample_idle 0%nat)).1.1 = []) /\
  exists m',
    i2c_transmit_async 2 0xA0 sample_silent 0%nat sample_idle
      = Faulted FAULT_ASSERTION 131 m' /\
    bus m' = bus sample_idle /\
    calls m'
      = calls sample_idle
        ++ [task_enqueued (mk_task sample_silent 0%nat 0xA0);
            task_called (mk_task sample_silent 0%nat 0xA0) []
              (sample_silent (memory sample_idle 0%nat)).2].
Proof.
  assert (Hq : 0 < I2C_QUEUE_SIZE <= 255)
    by (vm_compute; split; [reflexivity|discriminate]).
  assert (Hfit : I2C_BUFFER_SIZE <= 255) by (vm_compute; discriminate).
  split; [repeat split; try reflexivity; try apply Hq; try exact Hfit;
          exact sample_idle_reachable|].
  exact (silent_callback_faults 0 0xA0 sample_silent 0%nat sample_idle Hq Hfit
           sample_idle_reachable eq_refl eq_refl eq_refl).
Defined.


End MoreSamples.
